(** * Project Guardian: PII detector and redactor

    A shallow embedding of [detector_full_candidate_name.py] and the
    properties of its detection and redaction functions.

    Text is a list of characters; a character is a code point below 256
    (Latin-1), classified the way Python's [re] and [str] classify it.
    The regular expressions of the program are terms of a small syntax,
    run by a backtracking matcher that lists the ways a pattern can match
    in the order in which Python's engine tries them. *)

From Stdlib Require Import Ascii String List Bool Arith ZArith Lia.
From stdpp Require Import base option list gmap strings pretty fin_maps.

Local Open Scope list_scope.

(** ** Characters and text *)

Definition text := list ascii.

Definition txt (s : string) : text := list_ascii_of_string s.

Definition code (c : ascii) : N := N_of_ascii c.

Definition between (lo hi : N) (c : ascii) : bool :=
  ((lo <=? code c) && (code c <=? hi))%N.

(** [\d] on code points below 256: the decimal digits. *)
Definition is_digit (c : ascii) : bool := between 48 57 c.

(** [\s], [str.isspace] and [str.strip]: tab to carriage return, the
    separators 28 to 31, space, next-line and no-break space. *)
Definition is_space (c : ascii) : bool :=
  between 9 13 c || between 28 32 c || (code c =? 133)%N || (code c =? 160)%N.

(** [\w]: alphanumeric characters and the underscore; above 127 these are
    the Latin-1 letters, ordinal indicators, superscript digits and
    fractions. *)
Definition is_word (c : ascii) : bool :=
  between 48 57 c || between 65 90 c || between 97 122 c || (code c =? 95)%N
  || (code c =? 170)%N || (code c =? 178)%N || (code c =? 179)%N
  || (code c =? 181)%N || (code c =? 185)%N || (code c =? 186)%N
  || between 188 190 c || between 192 214 c || between 216 246 c
  || between 248 255 c.

(** ** Regular expressions *)

(** An item of a bracketed character set. *)
Inductive citem : Type :=
| Rng (lo hi : ascii)      (* a-z *)
| One (c : ascii)          (* a single character *)
| Digits                   (* \d *)
| Spaces.                  (* \s *)

Definition citem_mem (it : citem) (c : ascii) : bool :=
  match it with
  | Rng lo hi => between (code lo) (code hi) c
  | One d => (code c =? code d)%N
  | Digits => is_digit c
  | Spaces => is_space c
  end.

Definition cset := list citem.

Definition cset_mem (cs : cset) (c : ascii) : bool :=
  existsb (fun it => citem_mem it c) cs.

Inductive regex : Type :=
| Chars (cs : cset)                           (* [...] , \d, \s, a literal *)
| Cat (r1 r2 : regex)                         (* r1 r2 *)
| Repeat (lo : nat) (hi : option nat) (r : regex)  (* greedy r{lo,hi} *)
| Group (i : nat) (r : regex)                 (* the i-th capturing ( ) *)
| Bound                                       (* \b *)
| NotBehind (cs : cset)                       (* (?<!c) *)
| NotAhead (cs : cset).                       (* (?!c) *)

Declare Scope regex_scope.
Delimit Scope regex_scope with re.
Bind Scope regex_scope with regex.
Infix "+>" := Cat (at level 60, right associativity) : regex_scope.

(** A position in the subject: the characters before it, nearest first,
    and the characters from it on; with the groups captured so far. *)
Record mstate : Type := MState {
  before : text;
  after : text;
  caps : list (nat * text)
}.

Definition set_cap (i : nat) (x : text) (cs : list (nat * text)) : list (nat * text) :=
  (i, x) :: List.filter (fun p => negb (fst p =? i)) cs.

Definition get_cap (i : nat) (cs : list (nat * text)) : text :=
  match find (fun p => fst p =? i) cs with
  | Some p => snd p
  | None => []
  end.

Definition word_before (st : mstate) : bool :=
  match before st with c :: _ => is_word c | [] => false end.

Definition word_after (st : mstate) : bool :=
  match after st with c :: _ => is_word c | [] => false end.

Definition below (n : nat) (hi : option nat) : bool :=
  match hi with Some h => n <? h | None => true end.

(** The greedy loop of a quantifier: one more round first, then stopping
    here.  Every round has to consume; the rounds are bounded by the
    length of what is left. *)
Fixpoint rounds (step : mstate -> list mstate) (lo : nat) (hi : option nat)
    (fuel n : nat) (st : mstate) : list mstate :=
  let stop := if lo <=? n then [st] else [] in
  match fuel with
  | 0 => stop
  | S fuel' =>
      if below n hi then
        flat_map (fun st' =>
                    if length (after st') <? length (after st)
                    then rounds step lo hi fuel' (S n) st'
                    else [])
                 (step st) ++ stop
      else stop
  end.

(** All the ways [r] matches from [st], in the engine's order of
    preference. *)
Fixpoint exec (r : regex) (st : mstate) : list mstate :=
  match r with
  | Chars cs =>
      match after st with
      | c :: rest =>
          if cset_mem cs c then [MState (c :: before st) rest (caps st)] else []
      | [] => []
      end
  | Cat r1 r2 => flat_map (exec r2) (exec r1 st)
  | Repeat lo hi r1 => rounds (exec r1) lo hi (length (after st)) 0 st
  | Group i r1 =>
      map (fun st' =>
             MState (before st') (after st')
               (set_cap i (take (length (after st) - length (after st')) (after st))
                        (caps st')))
          (exec r1 st)
  | Bound => if xorb (word_before st) (word_after st) then [st] else []
  | NotBehind cs =>
      match before st with
      | c :: _ => if cset_mem cs c then [] else [st]
      | [] => [st]
      end
  | NotAhead cs =>
      match after st with
      | c :: _ => if cset_mem cs c then [] else [st]
      | [] => [st]
      end
  end.

(** A match object: where it ended and what the groups hold. *)
Definition match_at (r : regex) (prev rest : text) : option mstate :=
  head (exec r (MState prev rest [])).

Definition group (m : mstate) (i : nat) : text := get_cap i (caps m).

(** [re.search]: the first position, from the left, at which the pattern
    matches. *)
Fixpoint search_from (r : regex) (prev rest : text) : option mstate :=
  match match_at r prev rest with
  | Some m => Some m
  | None =>
      match rest with
      | [] => None
      | c :: rest' => search_from r (c :: prev) rest'
      end
  end.

Definition search (r : regex) (s : text) : option mstate := search_from r [] s.

(** [re.fullmatch]: the first way to match at the start that ends at the
    end. *)
Definition fullmatch (r : regex) (s : text) : option mstate :=
  find (fun m => match after m with [] => true | _ => false end)
       (exec r (MState [] s [])).

(** The scan shared by [sub] and [split]: the subject cut into the
    non-overlapping matches, leftmost first, and the characters between. *)
Inductive chunk : Type :=
| Lit (c : ascii)
| Hit (m : mstate).

Fixpoint scan_from (r : regex) (prev rest : text) (skip : nat) : list chunk :=
  match rest with
  | [] =>
      match skip, match_at r prev [] with
      | 0, Some m => [Hit m]
      | _, _ => []
      end
  | c :: rest' =>
      match skip with
      | S k => scan_from r (c :: prev) rest' k
      | 0 =>
          match match_at r prev rest with
          | Some m =>
              match length rest - length (after m) with
              | 0 => Hit m :: Lit c :: scan_from r (c :: prev) rest' 0
              | S k => Hit m :: scan_from r (c :: prev) rest' k
              end
          | None => Lit c :: scan_from r (c :: prev) rest' 0
          end
      end
  end.

Definition scan (r : regex) (s : text) : list chunk := scan_from r [] s 0.

(** [pattern.sub(repl, s)] with a function [repl] of the match object. *)
Definition sub (r : regex) (repl : mstate -> text) (s : text) : text :=
  flat_map (fun ch => match ch with Lit c => [c] | Hit m => repl m end)
           (scan r s).

(** The number of capturing groups of a pattern. *)
Fixpoint ngroups (r : regex) : nat :=
  match r with
  | Cat r1 r2 => ngroups r1 + ngroups r2
  | Repeat _ _ r1 => ngroups r1
  | Group _ r1 => S (ngroups r1)
  | _ => 0
  end.

(** [re.split(pattern, s)]: the pieces between the matches, each match
    contributing the text of its groups. *)
Fixpoint pieces (n : nat) (chs : list chunk) (cur : text) : list text :=
  match chs with
  | [] => [rev cur]
  | Lit c :: chs' => pieces n chs' (c :: cur)
  | Hit m :: chs' => rev cur :: map (group m) (seq 1 n) ++ pieces n chs' []
  end.

Definition split (r : regex) (s : text) : list text :=
  pieces (ngroups r) (scan r s) [].

(** ** String operations of Python used by the program *)

Fixpoint dropwhile (p : ascii -> bool) (s : text) : text :=
  match s with
  | c :: s' => if p c then dropwhile p s' else s
  | [] => []
  end.

(** [s.strip()] and [s.strip(ch)]. *)
Definition strip_by (p : ascii -> bool) (s : text) : text :=
  rev (dropwhile p (rev (dropwhile p s))).

Definition strip (s : text) : text := strip_by is_space s.

Definition strip_char (ch : ascii) (s : text) : text :=
  strip_by (fun c => (code c =? code ch)%N) s.

(** [s.isspace()]: at least one character, all of them white space. *)
Definition isspace (s : text) : bool :=
  match s with [] => false | _ => forallb is_space s end.

(** [s[-k:]]: the last [k] characters, all of [s] when it is shorter. *)
Definition lastn (k : nat) (s : text) : text := drop (length s - k) s.

(** ["X" * n] *)
Definition xs (n : nat) : text := replicate n "X"%char.

Fixpoint starts_with (p s : text) : bool :=
  match p, s with
  | [], _ => true
  | a :: p', b :: s' => (code a =? code b)%N && starts_with p' s'
  | _ :: _, [] => false
  end.

(** [s.replace(old, new)] for a non-empty [old]: the occurrences of [old],
    leftmost first and not overlapping, become [new]. *)
Fixpoint replace_from (old new s : text) (skip : nat) : text :=
  match s with
  | [] => []
  | c :: s' =>
      match skip with
      | S k => replace_from old new s' k
      | 0 =>
          if starts_with old s
          then new ++ replace_from old new s' (length old - 1)
          else c :: replace_from old new s' 0
      end
  end.

Definition replace (old new s : text) : text := replace_from old new s 0.

(** [s.split(sep)] for a separator of one character. *)
Fixpoint split_on (sep : ascii) (s : text) : list text :=
  match s with
  | [] => [[]]
  | c :: s' =>
      if (code c =? code sep)%N then [] :: split_on sep s'
      else match split_on sep s' with
           | p :: ps => (c :: p) :: ps
           | [] => [[c]]
           end
  end.

(** [sep.join(parts)] *)
Fixpoint join (sep : text) (parts : list text) : text :=
  match parts with
  | [] => []
  | [p] => p
  | p :: ps => p ++ sep ++ join sep ps
  end.

(** [parts[-1] = x] on a non-empty list. *)
Fixpoint set_last (x : text) (parts : list text) : list text :=
  match parts with
  | [] => []
  | [_] => [x]
  | p :: ps => p :: set_last x ps
  end.

(** ** The patterns *)

Module Pat.
Local Open Scope char_scope.
Local Open Scope regex_scope.

Definition digit : regex := Chars [Digits].
Definition exactly (n : nat) (r : regex) : regex := Repeat n (Some n) r.

Definition upper : citem := Rng "A" "Z".
Definition lower : citem := Rng "a" "z".
Definition num : citem := Rng "0" "9".

(* (?<!\d)(\d{10})(?!\d) *)
Definition RE_TEN_DIGITS : regex :=
  NotBehind [Digits] +> Group 1 (exactly 10 digit) +> NotAhead [Digits].

(* (?<!\d)(\d{12})(?!\d) *)
Definition RE_AADHAR : regex :=
  NotBehind [Digits] +> Group 1 (exactly 12 digit) +> NotAhead [Digits].

(* \b([A-PR-WYa-pr-wy][0-9]{7})\b *)
Definition RE_PASSPORT : regex :=
  Bound
  +> Group 1 (Chars [Rng "A" "P"; Rng "R" "W"; One "Y";
                     Rng "a" "p"; Rng "r" "w"; One "y"]
              +> exactly 7 (Chars [num]))
  +> Bound.

(* \b([A-Za-z0-9._-]{2,})@([A-Za-z][A-Za-z0-9._-]{1,})\b *)
Definition RE_UPI : regex :=
  Bound
  +> Group 1 (Repeat 2 None (Chars [upper; lower; num; One "."; One "_"; One "-"]))
  +> Chars [One "@"]
  +> Group 2 (Chars [upper; lower]
              +> Repeat 1 None (Chars [upper; lower; num; One "."; One "_"; One "-"]))
  +> Bound.

(* \b([A-Za-z0-9._%+-]{1,64})@([A-Za-z0-9.-]{1,255}\.[A-Za-z]{2,24})\b *)
Definition RE_EMAIL : regex :=
  Bound
  +> Group 1 (Repeat 1 (Some 64)
                (Chars [upper; lower; num; One "."; One "_"; One "%"; One "+"; One "-"]))
  +> Chars [One "@"]
  +> Group 2 (Repeat 1 (Some 255) (Chars [upper; lower; num; One "."; One "-"])
              +> Chars [One "."]
              +> Repeat 2 (Some 24) (Chars [upper; lower]))
  +> Bound.

(* \b((?:\d{1,3}\.){3}\d{1,3})\b *)
Definition RE_IPV4 : regex :=
  Bound
  +> Group 1 (exactly 3 (Repeat 1 (Some 3) digit +> Chars [One "."])
              +> Repeat 1 (Some 3) digit)
  +> Bound.

(* (?<!\d)(\d{4})\s*(\d{4})\s*(\d{4})(?!\d) *)
Definition RE_GROUPED : regex :=
  NotBehind [Digits]
  +> Group 1 (exactly 4 digit) +> Repeat 0 None (Chars [Spaces])
  +> Group 2 (exactly 4 digit) +> Repeat 0 None (Chars [Spaces])
  +> Group 3 (exactly 4 digit)
  +> NotAhead [Digits].

(* \s+  and  (\s+) *)
Definition RE_SPACES : regex := Repeat 1 None (Chars [Spaces]).
Definition RE_SPACES_KEPT : regex := Group 1 (Repeat 1 None (Chars [Spaces])).

(* [A-Za-z][A-Za-z.'-]* *)
Definition RE_NAME_TOKEN : regex :=
  Chars [upper; lower]
  +> Repeat 0 None (Chars [upper; lower; One "."; One "'"; One "-"]).
End Pat.
Export Pat.

Definition NUMERIC_ID_KEYS : gset string :=
  {[ "order_id"; "transaction_id"; "product_id"; "booking_reference";
     "customer_id"; "warehouse_code"; "ticket_id"; "gst_number"; "state_code" ]}%string.

Definition PHONEY_KEYS : gset string := {[ "phone"; "contact" ]}%string.
Definition B_NAME_KEYS : gset string := {[ "name" ]}%string.
Definition B_FIRST : string := "first_name".
Definition B_LAST : string := "last_name".
Definition B_EMAIL_KEYS : gset string := {[ "email"; "username" ]}%string.
Definition B_ADDRESS_KEYS : gset string := {[ "address" ]}%string.
Definition B_ADDR_PARTS : gset string := {[ "city"; "state"; "pin_code" ]}%string.
Definition B_DEVICE_KEYS : gset string := {[ "device_id" ]}%string.
Definition B_IP_KEYS : gset string := {[ "ip_address" ]}%string.

Definition key_in (k : string) (ks : gset string) : bool := bool_decide (k ∈ ks).

(** ** Masking helpers *)

Definition mask_phone_digits (s : text) : text :=
  let _m m := let d := group m 1 in take 2 d ++ xs 6 ++ lastn 2 d in
  sub RE_TEN_DIGITS _m s.

Definition mask_aadhar_digits (s : text) : text :=
  let _m m := let d := group m 1 in txt "XXXX XXXX " ++ lastn 4 d in
  let s_norm := sub RE_GROUPED (fun m => group m 1 ++ group m 2 ++ group m 3) s in
  sub RE_AADHAR _m s_norm.

(** [p[0]] and [p[-1]] are read off a group of eight characters, so the
    indices are in range. *)
Definition mask_passport_in (s : text) : text :=
  let _m m := let p := group m 1 in take 1 p ++ xs 6 ++ lastn 1 p in
  sub RE_PASSPORT _m s.

Definition mask_upi_in (s : text) : text :=
  let _m m :=
    let user := group m 1 in
    let prov := group m 2 in
    let keep := Nat.min 2 (length user) in
    take keep user ++ xs (length user - keep) ++ txt "@" ++ prov in
  sub RE_UPI _m s.

Definition mask_email_str (s : text) : text :=
  let _m m :=
    let local := group m 1 in
    let dom := group m 2 in
    let keep := Nat.min 2 (length local) in
    take keep local ++ xs (length local - keep) ++ txt "@" ++ dom in
  sub RE_EMAIL _m s.

Definition is_name_token (t : text) : bool :=
  match fullmatch RE_NAME_TOKEN t with Some _ => true | None => false end.

Definition mask_name_full (name : text) : text :=
  let parts := split RE_SPACES_KEPT name in
  concat (map (fun t =>
                 if isspace t then t
                 else if is_name_token t
                      then take 1 t ++ xs (Nat.max 0 (length t - 1))
                      else t)
              parts).

Definition mask_ip_in (s : text) : text :=
  let _m m :=
    let parts := split_on "." (group m 1) in
    if length parts =? 4 then join (txt ".") (set_last (txt "X") parts)
    else group m 1 in
  sub RE_IPV4 _m s.

Definition hard_redact (_ : text) : text := txt "[REDACTED_PII]".

(** ** Values and records *)

(** A field value as the program observes it: whether it is [None], its
    truth value and its [str()].  Floats, lists and nested objects are
    [VOther], carrying their truth value and their text. *)
Inductive value : Type :=
| VNone
| VBool (b : bool)
| VInt (z : Z)
| VStr (s : text)
| VOther (truth : bool) (repr : text).

(** [bool(v)] *)
Definition truthy (v : value) : bool :=
  match v with
  | VNone => false
  | VBool b => b
  | VInt z => negb (z =? 0)%Z
  | VStr s => match s with [] => false | _ => true end
  | VOther t _ => t
  end.

(** [str(v)] *)
Definition py_str (v : value) : text :=
  match v with
  | VNone => txt "None"
  | VBool true => txt "True"
  | VBool false => txt "False"
  | VInt z => txt (pretty z)
  | VStr s => s
  | VOther _ s => s
  end.

(** [v or ""] *)
Definition or_empty (v : value) : value := if truthy v then v else VStr [].

(** A record: the JSON object of one row. *)
Abbreviation record := (gmap string value).

(** [rec.get(k)]; also [rec[k]] wherever the program reads it, which is
    only behind a test that [rec.get(k)] is true. *)
Definition get (rec : record) (k : string) : value := default VNone (rec !! k).

(** ** Utilities *)

Definition looks_like_full_name (val : value) : bool :=
  let s := strip (py_str (or_empty val)) in
  let tokens := List.filter (fun t => match t with [] => false | _ => true end)
                            (split RE_SPACES s) in
  let alpha := List.filter is_name_token tokens in
  2 <=? length alpha.

Definition valid_email (val : value) : bool :=
  let s := match py_str val with [] => [] | s => s end in
  match search RE_EMAIL s with Some _ => true | None => false end.

(** What [json.loads] hands back: a field mapping, or some other value. *)
Inductive pyobj : Type :=
| PDict (rec : record)
| PVal (v : value).

Section Loading.
(** [json.loads] is the library's; [None] stands for its raising. *)
Variable json_loads : text -> option pyobj.

Definition safe_json_load (raw : text) : pyobj :=
  let txt1 := strip (match raw with [] => [] | _ => raw end) in
  match json_loads txt1 with
  | Some o => o
  | None =>
      let q := ascii_of_nat 34 in
      let txt2 := strip_char q (replace [q; q] [q] txt1) in
      match json_loads txt2 with
      | Some o => o
      | None => PDict ∅
      end
  end.
End Loading.

(** ** Counting the B signals *)

Record flags : Type := Flags {
  f_name : bool;
  f_email : bool;
  f_address : bool;
  f_device_or_ip : bool
}.

Definition count_true (f : flags) : nat :=
  length (List.filter id [f_name f; f_email f; f_address f; f_device_or_ip f]).

Definition count_b_signals (rec : record) : nat * flags * nat * bool :=
  let name :=
    if truthy (get rec "name") && looks_like_full_name (get rec "name") then true
    else if truthy (get rec B_FIRST) && truthy (get rec B_LAST) then true
    else false in
  let email :=
    existsb (fun k => truthy (get rec k) && valid_email (get rec k))
            (elements B_EMAIL_KEYS) in
  let addr_parts :=
    length (List.filter (fun k => truthy (get rec k)) (elements B_ADDR_PARTS)) in
  let has_addr_field := truthy (get rec "address") in
  let address := has_addr_field || (2 <=? addr_parts) in
  let device_present :=
    existsb (fun k => truthy (get rec k)) (elements B_DEVICE_KEYS) in
  let ip_present :=
    truthy (get rec "ip_address")
    && match search RE_IPV4 (py_str (get rec "ip_address")) with
       | Some _ => true
       | None => false
       end in
  let device_or_ip := device_present || ip_present in
  let fl := Flags name email address device_or_ip in
  (count_true fl, fl, addr_parts, has_addr_field).

(** ** A-detection *)

Record found : Type := Found {
  phone : bool;
  aadhar : bool;
  passport : bool;
  upi : bool
}.

Definition matches (r : regex) (s : text) : bool :=
  match search r s with Some _ => true | None => false end.

(** [re.sub(r'\s+', '', s)] *)
Definition squeeze (s : text) : text := sub RE_SPACES (fun _ => []) s.

Definition detect_a_in_value (key : string) (v : value) : found :=
  let s := py_str (or_empty v) in
  let exempt := key_in key NUMERIC_ID_KEYS in
  Found (negb exempt && matches RE_TEN_DIGITS s)
        (negb exempt && matches RE_AADHAR (squeeze s))
        (matches RE_PASSPORT s)
        (matches RE_UPI s).

Definition any_found (f : found) : bool :=
  phone f || aadhar f || passport f || upi f.

(** ** Redaction *)

Definition redact_value (key : string) (v : value) (do_b : bool)
    (addr_parts : nat) (has_addr_field : bool) : value :=
  match v with
  | VNone => VNone
  | _ =>
      let sval := py_str v in
      let before := sval in
      (* A-class always *)
      let sval := mask_phone_digits sval in
      let sval := mask_aadhar_digits sval in
      let sval := mask_passport_in sval in
      let sval := mask_upi_in sval in
      (* B-class only if >=2 B-signals *)
      let sval :=
        if do_b then
          let sval :=
            if key_in key B_NAME_KEYS && looks_like_full_name (VStr before)
            then mask_name_full before else sval in
          let sval :=
            if key_in key {[ B_FIRST; B_LAST ]}
            then take 1 sval ++ xs (Nat.max 0 (length sval - 1)) else sval in
          let sval :=
            if key_in key B_EMAIL_KEYS then mask_email_str sval else sval in
          let sval :=
            if key_in key B_ADDRESS_KEYS then hard_redact sval
            else if key_in key B_ADDR_PARTS
                 then (if has_addr_field || (2 <=? addr_parts)
                       then hard_redact sval else sval)
                 else sval in
          let sval :=
            if key_in key B_DEVICE_KEYS then hard_redact sval else sval in
          let sval :=
            if key_in key B_IP_KEYS then mask_ip_in sval else sval in
          sval
        else sval in
      VStr sval
  end.

(** ** Record processing *)

Definition a_hit (obj : record) : bool :=
  existsb (fun kv => any_found (detect_a_in_value (fst kv) (snd kv)))
          (map_to_list obj).

Definition process_record (obj : record) : record * bool :=
  let a_hit := a_hit obj in
  let '(b_count, flags, addr_parts, has_addr_field) := count_b_signals obj in
  let do_b := 2 <=? b_count in
  let is_pii := a_hit || do_b in
  let alone :=
    f_email flags
    && negb (f_name flags || f_address flags || f_device_or_ip flags) in
  let is_pii := if alone then false else is_pii in
  let do_b := if alone then false else do_b in
  let red := map_imap (fun k v => Some (redact_value k v do_b addr_parts has_addr_field)) obj in
  (red, is_pii).

(** [process_record] on whatever the loader returned: only a mapping has
    [items()]. *)
Definition process_loaded (o : pyobj) : option (record * bool) :=
  match o with
  | PDict rec => Some (process_record rec)
  | PVal _ => None
  end.

(** * Notions used in the statements *)

(** The four masks that [redact_value] applies to every value. *)
Definition a_masks (s : text) : text :=
  mask_upi_in (mask_passport_in (mask_aadhar_digits (mask_phone_digits s))).

(** A field's text matches one of the types that detection looks for. *)
Definition direct_match (k : string) (v : value) : Prop :=
  let s := py_str (or_empty v) in
  ((k ∉ NUMERIC_ID_KEYS)
   /\ (matches RE_TEN_DIGITS s = true \/ matches RE_AADHAR (squeeze s) = true))
  \/ matches RE_PASSPORT s = true
  \/ matches RE_UPI s = true.

(** A reader of the bare JSON literals: an instance of [json.loads] on the
    few texts it covers, failing on every other text. *)
Definition loads_literals (t : text) : option pyobj :=
  if bool_decide (t = txt "[]") then Some (PVal (VOther false (txt "[]")))
  else if bool_decide (t = txt "{}") then Some (PDict ∅)
  else if bool_decide (t = txt "null") then Some (PVal VNone)
  else if bool_decide (t = txt "true") then Some (PVal (VBool true))
  else if bool_decide (t = txt "false") then Some (PVal (VBool false))
  else None.

(** The field names that combination redaction treats specially. *)
Definition B_ROLE_KEYS : gset string :=
  B_NAME_KEYS ∪ {[ B_FIRST; B_LAST ]} ∪ B_EMAIL_KEYS ∪ B_ADDRESS_KEYS
  ∪ B_ADDR_PARTS ∪ B_DEVICE_KEYS ∪ B_IP_KEYS.

(** The combination flag that [process_record] hands to [redact_value]. *)
Definition email_alone (fl : flags) : bool :=
  f_email fl && negb (f_name fl || f_address fl || f_device_or_ip fl).

Definition do_combination_redact (obj : record) : bool :=
  let '(b_count, fl, _, _) := count_b_signals obj in
  if email_alone fl then false else 2 <=? b_count.

Definition signal_flags (obj : record) : flags := snd (fst (fst (count_b_signals obj))).
Definition signal_count (obj : record) : nat := fst (fst (fst (count_b_signals obj))).
Definition addr_parts_of (obj : record) : nat := snd (fst (count_b_signals obj)).
Definition has_addr_field_of (obj : record) : bool := snd (count_b_signals obj).

(** ** Notions of the proofs about the matcher *)

(** The position [k] characters further on. *)
Definition advance (k : nat) (st : mstate) : mstate :=
  MState (rev (take k (after st)) ++ before st) (drop k (after st)) (caps st).
(** The length of the longest prefix whose characters satisfy [p]. *)
Fixpoint prefix_len (p : ascii -> bool) (s : text) : nat :=
  match s with c :: s' => if p c then S (prefix_len p s') else 0 | [] => 0 end.
(** [a], [a - 1], ..., [b]; empty when [a < b]. *)
Definition desc (a b : nat) : list nat := rev (seq b (S a - b)).
(** How many more rounds a quantifier can make after [i], with [m]
    characters of its class ahead. *)
Definition reach (hi : option nat) (i m : nat) : nat :=
  match hi with Some h => Nat.min (h - i) m | None => m end.

(** frame *)
(** [st'] lies further on in the same subject as [st]. *)
Definition frame (st st' : mstate) : Prop :=
  exists x, after st = x ++ after st' /\ before st' = rev x ++ before st.

(** A lower bound on what a pattern consumes. *)
Fixpoint min_len (r : regex) : nat :=
  match r with
  | Chars _ => 1
  | Cat r1 r2 => min_len r1 + min_len r2
  | Repeat lo _ r1 => lo * min_len r1
  | Group _ r1 => min_len r1
  | _ => 0
  end.

(** What a chunk of the scan contributes to the result of [sub]. *)
Definition emit (repl : mstate -> text) (ch : chunk) : text :=
  match ch with Lit c => [c] | Hit m => repl m end.

(** [sub] from a position inside the subject. *)
Definition sub_from (r : regex) (repl : mstate -> text) (prev rest : text) : text :=
  flat_map (emit repl) (scan_from r prev rest 0).

(** runs *)
(** The longest prefix whose characters satisfy [p]. *)
Fixpoint prefix (p : ascii -> bool) (s : text) : text :=
  match s with c :: s' => if p c then c :: prefix p s' else [] | [] => [] end.

(** The first character of [s] exists and satisfies [p]. *)
Definition p_head (p : ascii -> bool) (s : text) : bool :=
  match s with c :: _ => p c | [] => false end.

(** ** Maximal runs

    The maximal runs of characters satisfying [p]: runs of digits for the
    numeric patterns, runs of word characters (tokens) for the passport
    pattern.  [cur] is the run that is open when the scan of [s] starts. *)
Definition flush (cur : text) : list text :=
  match cur with [] => [] | _ => [cur] end.

Fixpoint pending (p : ascii -> bool) (cur s : text) : text :=
  match s with
  | [] => cur
  | c :: s' => if p c then pending p (cur ++ [c]) s' else pending p [] s'
  end.

Fixpoint closed (p : ascii -> bool) (cur s : text) : list text :=
  match s with
  | [] => []
  | c :: s' => if p c then closed p (cur ++ [c]) s' else flush cur ++ closed p [] s'
  end.

Definition runs (p : ascii -> bool) (cur s : text) : list text :=
  closed p cur s ++ flush (pending p cur s).

Definition has_good (p : ascii -> bool) (good : text -> bool) (cur s : text) : bool :=
  existsb good (runs p cur s).

(** [s] does not start with a character satisfying [p]. *)
Definition starts_np (p : ascii -> bool) (s : text) : Prop :=
  match s with [] => True | c :: _ => p c = false end.

(** At a position reached by the scan: either a run is open and, continued
    by what lies ahead, it is not good; or no run is open. *)
Definition fresh (p : ascii -> bool) (good : text -> bool)
    (prev cur rest : text) : Prop :=
  if p_head p prev then good (cur ++ prefix p rest) = false else cur = [].

(** A replacement [w] of the matched text [x], between [prev] and [rest],
    that creates no good run: runs do not join across its ends, and its
    own good runs are good runs of [x]. *)
Record safe_repl (p : ascii -> bool) (good : text -> bool)
    (prev x rest w : text) : Prop := SafeRepl {
  safe_nonempty : w <> [];
  safe_head : p_head p x = false -> p_head p w = false;
  safe_left : p_head p x = true -> p_head p prev = false;
  safe_right : p_head p (rev x) = true -> p_head p rest = false;
  safe_last : p_head p (rev x) = false -> p_head p (rev w) = false;
  safe_runs : existsb good (runs p [] w) = true -> existsb good (runs p [] x) = true
}.

(** ** The shapes that the patterns recognise *)

(** [(?<!\d)(\d{n})(?!\d)]: the phone pattern at 10, the national-ID
    pattern at 12. *)
Definition isolated_run (n : nat) : regex :=
  (NotBehind [Digits] +> Group 1 (exactly n digit) +> NotAhead [Digits])%re.

Definition has_length (n : nat) (t : text) : bool := length t =? n.

(** The letters of the passport pattern: the ASCII letters other than Q, X
    and Z, in either case. *)
Definition is_letter (c : ascii) : bool := between 65 90 c || between 97 122 c.

Definition passport_letter (c : ascii) : bool :=
  is_letter c
  && negb (existsb (fun d => (code c =? code d)%N)
                   ["Q"; "X"; "Z"; "q"; "x"; "z"]%char).

(** A passport-like token: a passport letter and seven digits. *)
Definition pp_token (t : text) : bool :=
  match t with
  | c :: ds => passport_letter c && (length ds =? 7) && forallb is_digit ds
  | [] => false
  end.

(** The replacement functions of the phone mask and the national-ID mask. *)
Definition phone_repl (m : mstate) : text :=
  let d := group m 1 in take 2 d ++ xs 6 ++ lastn 2 d.

Definition aadhar_repl (m : mstate) : text :=
  let d := group m 1 in txt "XXXX XXXX " ++ lastn 4 d.


Definition passport_repl (m : mstate) : text :=
  let p := group m 1 in take 1 p ++ xs 6 ++ lastn 1 p.

(** One step of a match: the text [g] it consumed. *)
Definition steps (st st' : mstate) (g : text) : Prop :=
  after st = g ++ after st' /\ before st' = rev g ++ before st.


Definition grouped_repl (m : mstate) : text := group m 1 ++ group m 2 ++ group m 3.

(** The characters of a payment handle and of its provider. *)
Definition upi_char (c : ascii) : bool :=
  is_letter c || is_digit c
  || existsb (fun d => (code c =? code d)%N) ["."; "_"; "-"]%char.

Definition handle_repl (user prov : text) : text :=
  let keep := Nat.min 2 (length user) in
  take keep user ++ xs (length user - keep) ++ txt "@" ++ prov.

Definition upi_repl (m : mstate) : text :=
  let user := group m 1 in
  let prov := group m 2 in
  let keep := Nat.min 2 (length user) in
  take keep user ++ xs (length user - keep) ++ txt "@" ++ prov.

Definition at_least (n : nat) (t : text) : bool := n <=? length t.

(** ** Notions of the statements about tokens and patterns *)

(** The maximal runs of digits of a text. *)
Definition digit_runs (s : text) : list text := runs is_digit [] s.

(** The tokens of a text: its maximal runs of word characters. *)
Definition tokens (s : text) : list text := runs is_word [] s.

(** A passport-like code: a passport letter followed by seven digits. *)
Definition passport_code (t : text) : Prop :=
  exists c ds, t = c :: ds /\ passport_letter c = true
               /\ length ds = 7 /\ forallb is_digit ds = true.

(** A payment handle somewhere in a text: at least two handle characters,
    [@] and a provider. *)
Definition holds_handle (s : text) : Prop :=
  exists a user prov b,
    s = a ++ (user ++ "@"%char :: prov) ++ b
    /\ 2 <= length user /\ forallb upi_char user = true /\ prov <> [].

(** None of the patterns of the always-on masks matches. *)
Definition no_direct_pattern (s : text) : Prop :=
  matches RE_TEN_DIGITS s = false /\ matches RE_GROUPED s = false
  /\ matches RE_AADHAR s = false /\ matches RE_PASSPORT s = false
  /\ matches RE_UPI s = false.

(** What a field without combination redaction becomes. *)
Definition masked_value (v : value) : value :=
  match v with VNone => VNone | _ => VStr (a_masks (py_str v)) end.

Definition email_repl (m : mstate) : text := handle_repl (group m 1) (group m 2).

(** [k] rounds of [step] lead from [st] to [m]. *)
Fixpoint chain (step : mstate -> list mstate) (k : nat) (st m : mstate) : Prop :=
  match k with
  | 0 => m = st
  | S k' => exists st', In st' (step st) /\ chain step k' st' m
  end.

(** The replacement function of the IPv4 mask. *)
Definition ip_repl (m : mstate) : text :=
  let parts := split_on "." (group m 1) in
  if length parts =? 4 then join (txt ".") (set_last (txt "X") parts)
  else group m 1.

(** No phone-like number, no isolated run of twelve digits and no
    passport-like code. *)
Definition no_number_or_code (t : text) : Prop :=
  matches RE_TEN_DIGITS t = false /\ matches RE_AADHAR t = false
  /\ matches RE_PASSPORT t = false.

(** The field is a name that combination redaction rebuilds from the
    original text of the value. *)
Definition rebuilt_name (obj : record) (k : string) (v : value) : bool :=
  do_combination_redact obj && key_in k B_NAME_KEYS
  && looks_like_full_name (VStr (py_str v)).

(** ** Notions of the further properties *)

(** [t] is [s] with some characters of the class [p] overwritten by [X],
    one for one; all other characters are where they were. *)
Definition overwrites (p : ascii -> bool) (s t : text) : Prop :=
  Forall2 (fun c d => d = c \/ (d = "X"%char /\ p c = true)) s t.

(** The characters of the local part of an email address. *)
Definition email_char (c : ascii) : bool :=
  is_letter c || is_digit c
  || existsb (fun d => (code c =? code d)%N) ["."; "_"; "%"; "+"; "-"]%char.

(** The characters of a name token after its first letter. *)
Definition name_char (c : ascii) : bool :=
  is_letter c || existsb (fun d => (code c =? code d)%N) ["."; "'"; "-"]%char.

(** What [mask_name_full] does to one piece of the name. *)
Definition mask_piece (t : text) : text :=
  if isspace t then t
  else if is_name_token t then take 1 t ++ xs (Nat.max 0 (length t - 1))
       else t.

(** No character of [u] is white space. *)
Definition no_space (u : text) : bool := forallb (fun c => negb (is_space c)) u.

(** [mask_name_full] from a position inside the subject. *)
Definition mask_name_from (prev s : text) : text :=
  concat (map mask_piece (pieces 1 (scan_from RE_SPACES_KEPT prev s 0) [])).

(** What the signal counter sees of a field: its value when that is true
    in Python's sense, and nothing otherwise. *)
Definition seen (rec : record) (k : string) : value :=
  if truthy (get rec k) then get rec k else VNone.

(** The characters of the host part of an email address. *)
Definition host_char (c : ascii) : bool :=
  is_letter c || is_digit c
  || existsb (fun d => (code c =? code d)%N) ["."; "-"]%char.

(** An email address somewhere in a text: a local part, [@], a host, a
    dot and a top-level name of at least two letters. *)
Definition holds_email (s : text) : Prop :=
  exists a loc host tld b,
    s = a ++ (loc ++ "@"%char :: host ++ "."%char :: tld) ++ b
    /\ 1 <= length loc /\ forallb email_char loc = true
    /\ 1 <= length host /\ forallb host_char host = true
    /\ 2 <= length tld /\ forallb is_letter tld = true.

(** The double quote. *)
Definition dq : ascii := ascii_of_nat 34.

(** A text as a CSV cell that was quoted and never unquoted: every double
    quote doubled, and the whole between double quotes. *)
Definition csv_quoted (s : text) : text :=
  dq :: flat_map (fun c => if (code c =? 34)%N then [dq; dq] else [c]) s ++ [dq].

(** White space or a double quote: what [safe_json_load] takes off the
    ends of the text. *)
Definition edge_char (c : ascii) : bool := is_space c || (code c =? 34)%N.

(** ** The command-line program

    [main] reads the input through [csv.DictReader] and writes through
    [csv.DictWriter]; files and the CSV syntax are the library's.  What
    [main] itself decides is embedded: whether it runs at all, which column
    it reads, what becomes of each row, and where it stops. *)

(** A row as the reader yields it: a mapping from column names to cells;
    the cells a short line lacks are [None]. *)
Abbreviation csv_row := (gmap string (option text)).

(** The input as the reader presents it: the column names of the first
    line ([None] for a file without one) and the rows. *)
Record csv_file : Type := CsvFile {
  fieldnames : option (list string);
  rows : list csv_row
}.

(** A row of the output: [record_id], [redacted_data_json], [is_pii]. *)
Record out_row : Type := OutRow {
  out_record_id : option text;
  redacted_data_json : text;
  is_pii_text : text
}.

Inductive line : Type :=
| Header
| Row (r : out_row).

(** How a run ends: [sys.exit(2)] after the usage line, [SystemExit] with
    the message about the columns, an exception that nothing catches, or
    the normal end after the last row. *)
Inductive ending : Type :=
| Usage
| BadColumns
| Raised
| Wrote.

(** A run: how it ended, and the lines in the output file; [None] when the
    output file was never opened. *)
Record run : Type := Run {
  ended : ending;
  out_file : option (list line)
}.

Section Main.
(** [json.loads] and [json.dumps] are the library's. *)
Variable json_loads : text -> option pyobj.
Variable json_dumps : record -> text.

(** The column that holds the JSON. *)
Definition json_col (names : list string) : option string :=
  if bool_decide ("data_json"%string ∈ names) then Some "data_json"%string
  else if bool_decide ("Data_json"%string ∈ names) then Some "Data_json"%string
  else None.

(** [row.get(json_col, "{}")] *)
Definition json_cell (col : string) (row : csv_row) : option text :=
  match row !! col with
  | Some cell => cell
  | None => Some (txt "{}")
  end.

(** One turn of the loop over the rows; [None] when [process_record]
    raises, which it does on anything but a mapping.  [safe_json_load]
    reads [None] as the empty text. *)
Definition process_row (col : string) (row : csv_row) : option out_row :=
  let raw := json_cell col row in
  let obj := safe_json_load json_loads (default [] raw) in
  match process_loaded obj with
  | Some (red, is_pii) =>
      Some (OutRow (mjoin (row !! "record_id"%string)) (json_dumps red)
                   (if is_pii then txt "True" else txt "False"))
  | None => None
  end.

Fixpoint write_rows (col : string) (rs : list csv_row) (out : list line) : run :=
  match rs with
  | [] => Run Wrote (Some out)
  | row :: rs' =>
      match process_row col row with
      | Some r => write_rows col rs' (out ++ [Row r])
      | None => Run Raised (Some out)
      end
  end.

(** [main], on the argument vector and on the input file, [None] when it
    cannot be opened. *)
Definition main (argv : list text) (input : option csv_file) : run :=
  if negb (length argv =? 2) then Run Usage None
  else
    match input with
    | None => Run Raised None
    | Some f =>
        match fieldnames f with
        | None => Run Raised (Some [])
        | Some names =>
            match json_col names with
            | Some col =>
                if bool_decide ("record_id"%string ∈ names)
                then write_rows col (rows f) [Header]
                else Run BadColumns (Some [])
            | None => Run BadColumns (Some [])
            end
        end
    end.
End Main.

(** * Properties *)

(** ** The scan *)

Section Scan.
Variable r : regex.

Lemma scan_from_no_match prev rest :
  search_from r prev rest = None -> scan_from r prev rest 0 = map Lit rest.
Proof.
  revert prev. induction rest as [|c rest IH]; intros prev H; simpl in *.
  - destruct (match_at r prev []); [discriminate | reflexivity].
  - destruct (match_at r prev (c :: rest)); [discriminate |].
    f_equal. apply IH, H.
Qed.

Lemma flat_map_lit (repl : mstate -> text) (s : text) :
  flat_map (fun ch => match ch with Lit c => [c] | Hit m => repl m end)
           (map Lit s) = s.
Proof. induction s as [|c s IH]; simpl; [reflexivity | now rewrite IH]. Qed.

(** A substitution with nothing to replace returns its subject. *)
Lemma sub_no_match (repl : mstate -> text) (s : text) :
  matches r s = false -> sub r repl s = s.
Proof.
  unfold matches, search, sub, scan. intros H.
  destruct (search_from r [] s) eqn:E; [discriminate |].
  rewrite (scan_from_no_match _ _ E). apply flat_map_lit.
Qed.
End Scan.

Lemma desc_S_S a b : desc (S a) (S b) = map S (desc a b).
Proof. unfold desc. simpl. rewrite <- seq_shift, map_rev. reflexivity. Qed.

Lemma desc_S_0 a : desc (S a) 0 = map S (desc a 0) ++ [0].
Proof.
  unfold desc. rewrite Nat.sub_0_r. change (seq 0 (S (S a))) with (0 :: seq 1 (S a)).
  simpl rev at 1. rewrite <- seq_shift, map_rev. rewrite Nat.sub_0_r. reflexivity.
Qed.

Lemma desc_0 b : desc 0 b = if b =? 0 then [0] else [].
Proof. destruct b; reflexivity. Qed.

Lemma advance_0 st : advance 0 st = st.
Proof. destruct st; reflexivity. Qed.

Lemma advance_S k b x a c :
  advance (S k) (MState b (x :: a) c) = advance k (MState (x :: b) a c).
Proof. unfold advance; simpl. now rewrite <- app_assoc. Qed.

Lemma stop_desc lo i st :
  (if lo <=? i then [st] else []) = map (fun k => advance k st) (desc 0 (lo - i)).
Proof.
  rewrite desc_0.
  destruct (Nat.leb_spec lo i), (Nat.eqb_spec (lo - i) 0); try lia; simpl;
    now rewrite ?advance_0.
Qed.

Lemma rounds_chars cs lo hi fuel : forall i st,
  length (after st) <= fuel ->
  rounds (exec (Chars cs)) lo hi fuel i st
  = map (fun k => advance k st)
        (desc (reach hi i (prefix_len (cset_mem cs) (after st))) (lo - i)).
Proof.
  induction fuel as [|fuel IH]; intros i [b a c] Hf; simpl in Hf.
  - destruct a; [| simpl in Hf; lia]. cbn [rounds after prefix_len].
    assert (reach hi i 0 = 0) as -> by (destruct hi; simpl; lia).
    apply stop_desc.
  - cbn [rounds].
    destruct (below i hi) eqn:Hb.
    + destruct a as [|x a]; cbn [exec after flat_map app prefix_len].
      { assert (reach hi i 0 = 0) as -> by (destruct hi; simpl; lia). apply stop_desc. }
      destruct (cset_mem cs x) eqn:Hx; cbn [flat_map app before caps after].
      2:{ assert (reach hi i 0 = 0) as -> by (destruct hi; simpl; lia). apply stop_desc. }
      cbn [length]. assert ((length a <? S (length a)) = true) as -> by (apply Nat.ltb_lt; lia).
      rewrite app_nil_r. rewrite IH by (simpl in *; lia). cbn [after].
      set (L := prefix_len (cset_mem cs) a).
      assert (reach hi i (S L) = S (reach hi (S i) L)) as ->.
      { destruct hi as [h|]; simpl in *; [| reflexivity]. apply Nat.ltb_lt in Hb. lia. }
      destruct (Nat.leb_spec lo i) as [Hle|Hlt].
      * replace (lo - S i) with 0 by lia. replace (lo - i) with 0 by lia.
        rewrite desc_S_0, map_app, map_map. simpl. rewrite advance_0.
        f_equal. apply map_ext. intros k. now rewrite advance_S.
      * replace (lo - i) with (S (lo - S i)) by lia.
        rewrite desc_S_S, map_map, app_nil_r.
        apply map_ext. intros k. now rewrite advance_S.
    + cbn [after].
      assert (reach hi i (prefix_len (cset_mem cs) a) = 0) as ->.
      { destruct hi as [h|]; simpl in *; [| discriminate]. apply Nat.ltb_ge in Hb. lia. }
      apply stop_desc.
Qed.

Lemma exec_repeat_chars lo hi cs st :
  exec (Repeat lo hi (Chars cs)) st
  = map (fun k => advance k st)
        (desc (reach hi 0 (prefix_len (cset_mem cs) (after st))) lo).
Proof.
  change (exec (Repeat lo hi (Chars cs)) st)
    with (rounds (exec (Chars cs)) lo hi (length (after st)) 0 st).
  rewrite rounds_chars by lia. now rewrite Nat.sub_0_r.
Qed.

Ltac in_single H := simpl in H; first [contradiction | destruct H as [<- | []]].

Lemma frame_refl st : frame st st.
Proof. exists []. split; reflexivity. Qed.

Lemma frame_trans st1 st2 st3 : frame st1 st2 -> frame st2 st3 -> frame st1 st3.
Proof.
  intros (x & Hx1 & Hx2) (y & Hy1 & Hy2). exists (x ++ y). split.
  - rewrite Hx1, Hy1. now rewrite app_assoc.
  - rewrite Hy2, Hx2, rev_app_distr. now rewrite app_assoc.
Qed.

Lemma rounds_frame (step : mstate -> list mstate) lo hi :
  (forall st st', In st' (step st) -> frame st st') ->
  forall fuel n st st', In st' (rounds step lo hi fuel n st) -> frame st st'.
Proof.
  intros Hstep. induction fuel as [|fuel IH]; intros n st st' Hin; cbn [rounds] in Hin.
  - destruct (lo <=? n); [| destruct Hin]. destruct Hin as [<- | []]. apply frame_refl.
  - assert (Hstop : In st' (if lo <=? n then [st] else []) -> frame st st').
    { destruct (lo <=? n); [| intros []]. intros [<- | []]. apply frame_refl. }
    destruct (below n hi); [| auto].
    apply in_app_or in Hin. destruct Hin as [Hin | Hin]; [| auto].
    apply in_flat_map in Hin. destruct Hin as (st1 & H1 & H2).
    destruct (length (after st1) <? length (after st)); [| destruct H2].
    eapply frame_trans; [apply Hstep, H1 | eapply IH, H2].
Qed.

Lemma exec_frame r : forall st st', In st' (exec r st) -> frame st st'.
Proof.
  induction r as [cs | r1 IH1 r2 IH2 | lo hi r IH | i r IH | | cs | cs];
    intros st st' Hin; cbn [exec] in Hin.
  - destruct (after st) as [|c rest] eqn:Ha; [destruct Hin |].
    destruct (cset_mem cs c); [| destruct Hin]. destruct Hin as [<- | []].
    exists [c]. split; [exact Ha | reflexivity].
  - apply in_flat_map in Hin. destruct Hin as (st1 & H1 & H2).
    eapply frame_trans; eauto.
  - eapply rounds_frame; eauto.
  - apply in_map_iff in Hin. destruct Hin as (st1 & <- & H1).
    destruct (IH _ _ H1) as (x & Hx1 & Hx2). exists x. split; assumption.
  - destruct (xorb _ _); [| destruct Hin]. destruct Hin as [<- | []]. apply frame_refl.
  - destruct (before st) as [|c ?]; [| destruct (cset_mem cs c)];
      in_single Hin; apply frame_refl.
  - destruct (after st) as [|c ?]; [| destruct (cset_mem cs c)];
      in_single Hin; apply frame_refl.
Qed.

Lemma match_at_frame r prev rest m :
  match_at r prev rest = Some m ->
  exists x, rest = x ++ after m /\ before m = rev x ++ prev.
Proof.
  unfold match_at. intros H.
  destruct (exec r (MState prev rest [])) as [|m' l] eqn:E; [discriminate |].
  injection H as ->.
  apply (exec_frame r (MState prev rest []) m). rewrite E. now left.
Qed.

Lemma rounds_min_len (step : mstate -> list mstate) lo hi k :
  (forall st st', In st' (step st) -> length (after st') + k <= length (after st)) ->
  forall fuel n st st', In st' (rounds step lo hi fuel n st) ->
    length (after st') + (lo - n) * k <= length (after st).
Proof.
  intros Hstep. induction fuel as [|fuel IH]; intros n st st' Hin; cbn [rounds] in Hin.
  - destruct (Nat.leb_spec lo n); [| destruct Hin]. destruct Hin as [<- | []].
    replace (lo - n) with 0 by lia. lia.
  - assert (Hstop : In st' (if lo <=? n then [st] else []) ->
                    length (after st') + (lo - n) * k <= length (after st)).
    { destruct (Nat.leb_spec lo n); [| intros []]. intros [<- | []].
      replace (lo - n) with 0 by lia. lia. }
    destruct (below n hi); [| auto].
    apply in_app_or in Hin. destruct Hin as [Hin | Hin]; [| auto].
    apply in_flat_map in Hin. destruct Hin as (st1 & H1 & H2).
    destruct (length (after st1) <? length (after st)); [| destruct H2].
    apply Hstep in H1. apply IH in H2.
    assert ((lo - n) * k <= (lo - S n) * k + k) by nia. lia.
Qed.

Lemma exec_min_len r : forall st st',
  In st' (exec r st) -> length (after st') + min_len r <= length (after st).
Proof.
  induction r as [cs | r1 IH1 r2 IH2 | lo hi r IH | i r IH | | cs | cs];
    intros st st' Hin; cbn [exec] in Hin; cbn [min_len].
  - destruct (after st) as [|c rest] eqn:Ha; [destruct Hin |].
    destruct (cset_mem cs c); [| destruct Hin]. destruct Hin as [<- | []]. simpl. lia.
  - apply in_flat_map in Hin. destruct Hin as (st1 & H1 & H2).
    apply IH1 in H1. apply IH2 in H2. lia.
  - apply (rounds_min_len _ _ _ _ IH) in Hin. now rewrite Nat.sub_0_r in Hin.
  - apply in_map_iff in Hin. destruct Hin as (st1 & <- & H1). apply IH in H1. simpl. lia.
  - destruct (xorb _ _); [| destruct Hin]. destruct Hin as [<- | []]. lia.
  - destruct (before st) as [|c ?]; [| destruct (cset_mem cs c)];
      in_single Hin; lia.
  - destruct (after st) as [|c ?] eqn:Ha; [| destruct (cset_mem cs c)];
      in_single Hin; rewrite Ha; lia.
Qed.

Lemma match_at_consumes r prev rest m :
  0 < min_len r -> match_at r prev rest = Some m -> length (after m) < length rest.
Proof.
  unfold match_at. intros Hpos H.
  destruct (exec r (MState prev rest [])) as [|m' l] eqn:E; [discriminate |].
  injection H as ->.
  assert (In m (exec r (MState prev rest []))) as Hin by (rewrite E; now left).
  apply exec_min_len in Hin. simpl in Hin. lia.
Qed.

Lemma sub_sub_from r repl s : sub r repl s = sub_from r repl [] s.
Proof. reflexivity. Qed.

Lemma scan_skip r x : forall prev rest,
  scan_from r prev (x ++ rest) (length x) = scan_from r (rev x ++ prev) rest 0.
Proof.
  induction x as [|c x IH]; intros prev rest; [reflexivity |].
  cbn [app length scan_from]. rewrite IH. cbn [rev]. now rewrite <- app_assoc.
Qed.

Section SubInd.
Variable r : regex.
Variable repl : mstate -> text.
Variable Q : text -> text -> text -> Prop.
Hypothesis consumes : 0 < min_len r.
Hypothesis Q_end : forall prev, Q prev [] [].
Hypothesis Q_lit : forall prev c rest out,
  match_at r prev (c :: rest) = None ->
  Q (c :: prev) rest out -> Q prev (c :: rest) (c :: out).
Hypothesis Q_hit : forall prev x rest m out,
  x <> [] -> match_at r prev (x ++ rest) = Some m ->
  after m = rest -> before m = rev x ++ prev ->
  Q (rev x ++ prev) rest out -> Q prev (x ++ rest) (repl m ++ out).

Lemma sub_from_ind : forall prev rest, Q prev rest (sub_from r repl prev rest).
Proof.
  intros prev rest. remember (length rest) as n eqn:Hn.
  revert prev rest Hn. induction n as [n IH] using lt_wf_ind. intros prev rest Hn.
  destruct rest as [|c rest].
  - unfold sub_from. cbn [scan_from].
    destruct (match_at r prev []) as [m|] eqn:E; [| apply Q_end].
    apply match_at_consumes in E; [simpl in E; lia | exact consumes].
  - unfold sub_from. cbn [scan_from].
    destruct (match_at r prev (c :: rest)) as [m|] eqn:E.
    + pose proof (match_at_consumes _ _ _ _ consumes E) as Hlt.
      destruct (match_at_frame _ _ _ _ E) as (x & Hx & Hb).
      destruct x as [|c' x]; [simpl in Hx; rewrite <- Hx in Hlt; lia |].
      injection Hx as <- Hrest.
      replace (length (c :: rest) - length (after m)) with (S (length x)).
      2:{ rewrite Hrest. simpl. rewrite length_app. lia. }
      cbn [flat_map emit]. rewrite Hrest, scan_skip.
      replace (rev x ++ c :: prev) with (rev (c :: x) ++ prev)
        by (simpl; now rewrite <- app_assoc).
      change (c :: x ++ after m) with ((c :: x) ++ after m).
      apply Q_hit; [discriminate | | reflexivity | exact Hb |].
      * rewrite <- E. f_equal. simpl. now rewrite Hrest.
      * eapply (IH (length (after m))); [| reflexivity].
        subst n. simpl. rewrite Hrest, length_app. lia.
    + cbn [flat_map emit app]. apply Q_lit; [exact E |].
      eapply (IH (length rest)); [subst n; simpl; lia | reflexivity].
Qed.
End SubInd.

Section Runs.
Variable p : ascii -> bool.

Lemma length_prefix s : length (prefix p s) = prefix_len p s.
Proof. induction s as [|c s IH]; simpl; [| destruct (p c); simpl; rewrite ?IH]; reflexivity. Qed.

Lemma prefix_app_drop s : prefix p s ++ drop (length (prefix p s)) s = s.
Proof. induction s as [|c s IH]; simpl; [| destruct (p c); simpl; rewrite ?IH]; reflexivity. Qed.

Lemma prefix_all s : forallb p (prefix p s) = true.
Proof. induction s as [|c s IH]; simpl; [| destruct (p c) eqn:E; simpl; rewrite ?E, ?IH]; reflexivity. Qed.

Lemma drop_prefix_starts_np s : starts_np p (drop (length (prefix p s)) s).
Proof.
  induction s as [|c s IH]; simpl; [exact I |].
  destruct (p c) eqn:E; simpl; [exact IH | exact E].
Qed.

Lemma prefix_starts_np s : starts_np p s -> prefix p s = [].
Proof. destruct s as [|c s]; simpl; [reflexivity | now intros ->]. Qed.

Lemma closed_app a : forall cur b,
  closed p cur (a ++ b) = closed p cur a ++ closed p (pending p cur a) b.
Proof.
  induction a as [|c a IH]; intros cur b; simpl; [reflexivity |].
  destruct (p c); rewrite IH; [reflexivity | now rewrite app_assoc].
Qed.

Lemma pending_app a : forall cur b,
  pending p cur (a ++ b) = pending p (pending p cur a) b.
Proof.
  induction a as [|c a IH]; intros cur b; simpl; [reflexivity |].
  destruct (p c); now rewrite IH.
Qed.

Lemma runs_app a cur b :
  runs p cur (a ++ b) = closed p cur a ++ runs p (pending p cur a) b.
Proof. unfold runs. now rewrite closed_app, pending_app, app_assoc. Qed.

Lemma runs_nil cur : runs p cur [] = flush cur.
Proof. reflexivity. Qed.

Lemma runs_cons_p cur c s : p c = true -> runs p cur (c :: s) = runs p (cur ++ [c]) s.
Proof. intros H. unfold runs; simpl. now rewrite H. Qed.

Lemma runs_cons_np cur c s : p c = false -> runs p cur (c :: s) = flush cur ++ runs p [] s.
Proof. intros H. unfold runs; simpl. rewrite H. now rewrite app_assoc. Qed.

Lemma runs_starts_np cur s : starts_np p s -> runs p cur s = flush cur ++ runs p [] s.
Proof.
  destruct s as [|c s]; simpl; intros H.
  - rewrite !runs_nil. simpl. now rewrite app_nil_r.
  - rewrite !(runs_cons_np _ _ _ H). simpl. reflexivity.
Qed.

Lemma runs_all_p x : forall cur s,
  forallb p x = true -> runs p cur (x ++ s) = runs p (cur ++ x) s.
Proof.
  induction x as [|c x IH]; intros cur s H; simpl in *.
  - now rewrite app_nil_r.
  - apply andb_prop in H. destruct H as [Hc Hx].
    rewrite (runs_cons_p _ _ _ Hc), IH by exact Hx. now rewrite <- app_assoc.
Qed.
End Runs.

Section RunsMore.
Variable p : ascii -> bool.

Lemma p_head_rev_app x prev : x <> [] -> p_head p (rev x ++ prev) = p_head p (rev x).
Proof.
  intros Hx. destruct (rev x) as [|c l] eqn:E; [| reflexivity].
  apply (f_equal (@rev ascii)) in E. rewrite rev_involutive in E. now subst.
Qed.

Lemma p_head_rev_all x : x <> [] -> forallb p x = true -> p_head p (rev x) = true.
Proof.
  intros Hx H. destruct (rev x) as [|c l] eqn:E.
  - apply (f_equal (@rev ascii)) in E. rewrite rev_involutive in E. now subst.
  - simpl. rewrite forallb_forall in H. apply H.
    apply in_rev. rewrite E. now left.
Qed.

Lemma pending_last_np w cur : w <> [] -> p_head p (rev w) = false -> pending p cur w = [].
Proof.
  intros Hw H. destruct (rev w) as [|c l] eqn:E.
  - apply (f_equal (@rev ascii)) in E. rewrite rev_involutive in E. now subst.
  - apply (f_equal (@rev ascii)) in E. rewrite rev_involutive in E. subst w.
    simpl in *. rewrite pending_app. simpl. now rewrite H.
Qed.

Lemma p_head_starts_np s : p_head p s = false -> starts_np p s.
Proof. destruct s; simpl; auto. Qed.

Lemma starts_np_app w s : w <> [] -> p_head p w = false -> starts_np p (w ++ s).
Proof. destruct w; simpl; [congruence | auto]. Qed.
End RunsMore.

Section Recognizer.
Variable p : ascii -> bool.
Variable good : text -> bool.
Variable r : regex.
Hypothesis rec_none : forall prev rest,
  match_at r prev rest = None ->
  p_head p prev = true \/ good (prefix p rest) = false.
Hypothesis rec_some : forall prev rest m,
  match_at r prev rest = Some m ->
  p_head p prev = false /\ good (prefix p rest) = true
  /\ after m = drop (length (prefix p rest)) rest.
Hypothesis good_nil : good [] = false.
Hypothesis consumes : 0 < min_len r.

Lemma has_good_flush cur : has_good p good cur [] = existsb good (flush cur).
Proof. reflexivity. Qed.

Lemma existsb_flush_false cur : good cur = false -> existsb good (flush cur) = false.
Proof. intros H. destruct cur; simpl; [reflexivity | now rewrite H]. Qed.

Lemma search_has_good rest : forall prev cur m,
  (p_head p prev = false -> cur = []) ->
  search_from r prev rest = Some m -> has_good p good cur rest = true.
Proof.
  induction rest as [|c rest IH]; intros prev cur m Hc H; cbn [search_from] in H.
  - destruct (match_at r prev []) as [m'|] eqn:E; [| discriminate].
    apply rec_some in E. destruct E as (_ & E & _). simpl in E. congruence.
  - destruct (match_at r prev (c :: rest)) as [m'|] eqn:E.
    + apply rec_some in E. destruct E as (Hp & Hg & _).
      rewrite (Hc Hp). unfold has_good.
      pose proof (prefix_app_drop p (c :: rest)) as Hsplit.
      pose proof (prefix_all p (c :: rest)) as Hall.
      pose proof (drop_prefix_starts_np p (c :: rest)) as Hnp.
      destruct (prefix p (c :: rest)) as [|a x] eqn:Ex; [congruence |].
      rewrite <- Hsplit.
      rewrite runs_all_p by exact Hall.
      rewrite runs_starts_np by exact Hnp.
      rewrite existsb_app. apply orb_true_iff. left.
      simpl. now rewrite Hg.
    + unfold has_good. destruct (p c) eqn:Hpc.
      * rewrite runs_cons_p by exact Hpc. eapply (IH (c :: prev)); [| exact H].
        simpl. congruence.
      * rewrite runs_cons_np by exact Hpc. rewrite existsb_app.
        apply orb_true_iff. right. eapply (IH (c :: prev)); [| exact H]. reflexivity.
Qed.

Lemma has_good_search rest : forall prev cur,
  fresh p good prev cur rest -> has_good p good cur rest = true ->
  search_from r prev rest <> None.
Proof.
  induction rest as [|c rest IH]; intros prev cur Hf H; cbn [search_from].
  - exfalso. rewrite has_good_flush in H. unfold fresh in Hf.
    destruct (p_head p prev).
    + simpl in Hf. rewrite app_nil_r in Hf.
      rewrite existsb_flush_false in H by exact Hf. discriminate.
    + subst. discriminate.
  - destruct (match_at r prev (c :: rest)) as [m'|] eqn:E; [discriminate |].
    apply rec_none in E. unfold has_good in H. unfold fresh in Hf.
    destruct (p c) eqn:Hpc.
    + rewrite runs_cons_p in H by exact Hpc.
      apply (IH (c :: prev) (cur ++ [c])); [| exact H].
      unfold fresh. simpl p_head. rewrite Hpc. simpl prefix in *. rewrite Hpc in *.
      rewrite <- app_assoc. simpl.
      destruct (p_head p prev); [exact Hf |].
      subst cur. destruct E as [E | E]; [discriminate | exact E].
    + rewrite runs_cons_np in H by exact Hpc. rewrite existsb_app in H.
      apply orb_true_iff in H. destruct H as [H | H].
      * exfalso. simpl prefix in *. rewrite Hpc in *.
        destruct (p_head p prev).
        -- rewrite app_nil_r in Hf. rewrite existsb_flush_false in H by exact Hf.
           discriminate.
        -- subst. discriminate.
      * apply (IH (c :: prev) []); [| exact H].
        unfold fresh. simpl p_head. now rewrite Hpc.
Qed.

Theorem matches_runs s : matches r s = has_good p good [] s.
Proof.
  unfold matches, search.
  destruct (search_from r [] s) as [m|] eqn:E.
  - symmetry. eapply search_has_good; [| exact E]. reflexivity.
  - destruct (has_good p good [] s) eqn:H; [| reflexivity].
    exfalso. eapply has_good_search; [| exact H | exact E]. reflexivity.
Qed.

Section Complete.
Variable repl : mstate -> text.
Hypothesis repl_ok : forall prev rest m,
  match_at r prev rest = Some m ->
  existsb good (closed p [] (repl m)) = false /\ good (pending p [] (repl m)) = false.

Lemma sub_from_complete prev rest : forall cur,
  fresh p good prev cur rest -> has_good p good cur (sub_from r repl prev rest) = false.
Proof.
  apply (sub_from_ind r repl
           (fun prev rest out => forall cur, fresh p good prev cur rest ->
                                has_good p good cur out = false)); clear prev rest.
  - exact consumes.
  - intros prev cur Hf. rewrite has_good_flush. unfold fresh in Hf.
    destruct (p_head p prev).
    + simpl in Hf. rewrite app_nil_r in Hf. now apply existsb_flush_false.
    + now subst.
  - intros prev c rest out E IH cur Hf. apply rec_none in E.
    unfold has_good. unfold fresh in Hf. simpl prefix in *.
    destruct (p c) eqn:Hpc.
    + rewrite runs_cons_p by exact Hpc. apply IH.
      unfold fresh. simpl p_head. rewrite Hpc. rewrite <- app_assoc. simpl.
      destruct (p_head p prev); [exact Hf |].
      subst cur. destruct E as [E | E]; [discriminate | exact E].
    + rewrite runs_cons_np by exact Hpc. rewrite existsb_app.
      apply orb_false_iff. split.
      * destruct (p_head p prev).
        -- rewrite app_nil_r in Hf. now apply existsb_flush_false.
        -- now subst.
      * apply IH. unfold fresh. simpl p_head. now rewrite Hpc.
  - intros prev x rest m out Hx E Ha Hb IH cur Hf.
    destruct (repl_ok _ _ _ E) as (Hc & Hp).
    destruct (rec_some _ _ _ E) as (Hprev & Hg & Hd).
    unfold fresh in Hf. rewrite Hprev in Hf. subst cur.
    assert (prefix p (x ++ rest) = x) as Hpx.
    { pose proof (prefix_app_drop p (x ++ rest)) as H.
      rewrite <- Hd, Ha in H. now apply app_inv_tail in H. }
    assert (starts_np p rest) as Hnp.
    { rewrite <- Ha, Hd. apply drop_prefix_starts_np. }
    unfold has_good. rewrite runs_app, existsb_app, Hc. simpl.
    apply IH. unfold fresh.
    rewrite p_head_rev_app by exact Hx.
    rewrite p_head_rev_all; [| exact Hx | rewrite <- Hpx; apply prefix_all].
    rewrite (prefix_starts_np _ _ Hnp), app_nil_r. exact Hp.
Qed.

Theorem sub_complete s : matches r (sub r repl s) = false.
Proof.
  rewrite matches_runs, sub_sub_from. apply sub_from_complete. reflexivity.
Qed.
End Complete.
End Recognizer.

Section SafePass.
Variable p : ascii -> bool.
Variable good : text -> bool.
Variable r : regex.
Variable repl : mstate -> text.
Hypothesis consumes : 0 < min_len r.
Hypothesis safe : forall prev x rest m,
  x <> [] -> match_at r prev (x ++ rest) = Some m -> after m = rest ->
  safe_repl p good prev x rest (repl m).

Lemma has_good_starts_np cur s :
  starts_np p s ->
  has_good p good cur s = existsb good (flush cur) || has_good p good [] s.
Proof. intros H. unfold has_good. now rewrite (runs_starts_np p cur s H), existsb_app. Qed.

Lemma sub_from_safe prev rest : forall cur,
  (p_head p prev = false -> cur = []) ->
  has_good p good cur (sub_from r repl prev rest) = true ->
  has_good p good cur rest = true.
Proof.
  apply (sub_from_ind r repl
           (fun prev rest out => forall cur, (p_head p prev = false -> cur = []) ->
              has_good p good cur out = true -> has_good p good cur rest = true));
    clear prev rest.
  - exact consumes.
  - auto.
  - intros prev c rest out _ IH cur Hc H. unfold has_good in *.
    destruct (p c) eqn:Hpc.
    + rewrite runs_cons_p in * by exact Hpc. apply (IH (cur ++ [c])); [| exact H].
      simpl. congruence.
    + rewrite runs_cons_np in * by exact Hpc. rewrite existsb_app in *.
      apply orb_true_iff in H. apply orb_true_iff.
      destruct H as [H | H]; [now left | right]. apply (IH []); auto.
  - intros prev x rest m out Hx E Ha _ IH cur Hc H.
    destruct (safe _ _ _ _ Hx E Ha) as [Hw Hhead Hleft Hright Hlast Hruns].
    set (w := repl m) in *.
    (* reduce to an empty pending run *)
    assert (Hred : has_good p good [] (w ++ out) = true ->
                   has_good p good [] (x ++ rest) = true).
    { clear H. intros H. unfold has_good in H |- *.
      rewrite runs_app, existsb_app in H |- *.
      destruct (p_head p (rev x)) eqn:Hl.
      - specialize (Hright eq_refl).
        assert (starts_np p rest) as Hnp by now apply p_head_starts_np.
        change (existsb good (runs p (pending p [] x) rest))
          with (has_good p good (pending p [] x) rest).
        rewrite has_good_starts_np by exact Hnp.
        rewrite orb_assoc, <- existsb_app. fold (runs p [] x).
        apply orb_true_iff in H. apply orb_true_iff. destruct H as [H | H].
        + left. apply Hruns. unfold runs. rewrite existsb_app, H. reflexivity.
        + apply IH in H.
          2:{ rewrite p_head_rev_app, Hl by exact Hx. discriminate. }
          rewrite has_good_starts_np in H by exact Hnp.
          apply orb_true_iff in H. destruct H as [H | H]; [left | now right].
          apply Hruns. unfold runs. rewrite existsb_app, H. apply orb_true_r.
      - specialize (Hlast eq_refl).
        rewrite (pending_last_np p w [] Hw Hlast) in H.
        rewrite (pending_last_np p x [] Hx Hl).
        apply orb_true_iff in H. apply orb_true_iff. destruct H as [H | H].
        + left. assert (existsb good (runs p [] x) = true) as Hr.
          { apply Hruns. unfold runs. rewrite existsb_app, H. reflexivity. }
          unfold runs in Hr. rewrite (pending_last_np p x [] Hx Hl) in Hr.
          simpl in Hr. now rewrite app_nil_r in Hr.
        + right. apply (IH []); [reflexivity | exact H]. }
    destruct (p_head p x) eqn:Hh.
    + rewrite (Hc (Hleft eq_refl)) in *. now apply Hred.
    + specialize (Hhead eq_refl).
      rewrite has_good_starts_np in H by now apply starts_np_app.
      rewrite has_good_starts_np by now apply starts_np_app.
      apply orb_true_iff in H. apply orb_true_iff.
      destruct H as [H | H]; [now left | right; now apply Hred].
Qed.

Theorem sub_safe s :
  has_good p good [] (sub r repl s) = true -> has_good p good [] s = true.
Proof. rewrite sub_sub_from. now apply sub_from_safe. Qed.
End SafePass.

(** ** Character classes *)

Ltac by_char c := destruct c as [[] [] [] [] [] [] [] []]; vm_compute; congruence.

Lemma digit_word c : is_digit c = true -> is_word c = true.
Proof. by_char c. Qed.

Lemma mem_digits c : cset_mem [Digits] c = is_digit c.
Proof. unfold cset_mem; simpl. apply orb_false_r. Qed.

Lemma mem_num c : cset_mem [num] c = is_digit c.
Proof. unfold cset_mem; simpl. apply orb_false_r. Qed.

Lemma mem_passport c :
  cset_mem [Rng "A" "P"; Rng "R" "W"; One "Y"; Rng "a" "p"; Rng "r" "w"; One "y"]%char c
  = passport_letter c.
Proof. by_char c. Qed.

Lemma passport_letter_word c : passport_letter c = true -> is_word c = true.
Proof. by_char c. Qed.

Lemma passport_letter_not_digit c : passport_letter c = true -> is_digit c = false.
Proof. by_char c. Qed.

Lemma prefix_len_ext (p q : ascii -> bool) s :
  (forall c, p c = q c) -> prefix_len p s = prefix_len q s.
Proof.
  intros H. induction s as [|c s IH]; simpl; [reflexivity |].
  rewrite H, IH. reflexivity.
Qed.

Lemma prefix_len_le p s : prefix_len p s <= length s.
Proof. induction s as [|c s IH]; simpl; [lia | destruct (p c); simpl; lia]. Qed.

Lemma prefix_len_drop p n : forall s,
  n <= prefix_len p s -> prefix_len p (drop n s) = prefix_len p s - n.
Proof.
  induction n as [|n IH]; intros s H; simpl.
  - rewrite drop_0. lia.
  - destruct s as [|c s]; simpl in *; [lia |].
    destruct (p c); simpl in *; [| lia]. apply IH. lia.
Qed.

Lemma p_head_prefix_len p s : p_head p s = (0 <? prefix_len p s).
Proof. destruct s as [|c s]; simpl; [reflexivity | destruct (p c); reflexivity]. Qed.

Lemma prefix_take p s : prefix p s = take (prefix_len p s) s.
Proof.
  induction s as [|c s IH]; simpl; [reflexivity |].
  destruct (p c); simpl; [now rewrite IH | reflexivity].
Qed.

(** ** Fixed repetitions of a class *)

Lemma desc_min n L : desc (Nat.min n L) n = if n <=? L then [n] else [].
Proof.
  unfold desc. destruct (Nat.leb_spec n L).
  - rewrite Nat.min_l by lia. replace (S n - n) with 1 by lia. reflexivity.
  - rewrite Nat.min_r by lia. replace (S L - n) with 0 by lia. reflexivity.
Qed.

Lemma exec_exactly_chars n cs st :
  exec (exactly n (Chars cs)) st
  = if n <=? prefix_len (cset_mem cs) (after st) then [advance n st] else [].
Proof.
  unfold exactly. rewrite exec_repeat_chars. unfold reach.
  rewrite Nat.sub_0_r, desc_min.
  destruct (n <=? _); reflexivity.
Qed.

(** ** The isolated run of digits *)

Lemma match_at_isolated_run n prev rest :
  match_at (isolated_run n) prev rest
  = if negb (p_head is_digit prev) && (prefix_len is_digit rest =? n)
    then Some (MState (rev (take n rest) ++ prev) (drop n rest) [(1, take n rest)])
    else None.
Proof.
  unfold match_at, isolated_run.
  change (exec (NotBehind [Digits] +> Group 1 (exactly n digit) +> NotAhead [Digits])
               (MState prev rest []))
    with (flat_map (fun st => flat_map (exec (NotAhead [Digits]))
                     (map (fun st' => MState (before st') (after st')
                             (set_cap 1 (take (length (after st) - length (after st'))
                                              (after st)) (caps st')))
                          (exec (exactly n (Chars [Digits])) st)))
                   (exec (NotBehind [Digits]) (MState prev rest []))).
  assert (Hnb : exec (NotBehind [Digits]) (MState prev rest [])
                = if p_head is_digit prev then [] else [MState prev rest []]).
  { cbn [exec before]. destruct prev as [|c prev]; [reflexivity |].
    rewrite mem_digits. reflexivity. }
  rewrite Hnb. destruct (p_head is_digit prev); [reflexivity |].
  cbn [flat_map negb andb]. rewrite app_nil_r, exec_exactly_chars.
  cbn [after]. rewrite (prefix_len_ext _ is_digit) by apply mem_digits.
  pose proof (prefix_len_le is_digit rest) as Hle.
  destruct (Nat.leb_spec n (prefix_len is_digit rest)) as [Hn | Hn].
  2:{ destruct (Nat.eqb_spec (prefix_len is_digit rest) n); [lia | reflexivity]. }
  cbn [map flat_map advance after before caps]. rewrite app_nil_r.
  cbn [exec after].
  assert (Hhd : p_head is_digit (drop n rest) = (0 <? prefix_len is_digit rest - n)).
  { rewrite p_head_prefix_len, prefix_len_drop by exact Hn. reflexivity. }
  rewrite length_drop.
  replace (length rest - (length rest - n)) with n by lia.
  destruct (drop n rest) as [|c d] eqn:Hd.
  - simpl in Hhd. destruct (Nat.eqb_spec (prefix_len is_digit rest) n) as [_ | Hne].
    + reflexivity.
    + exfalso. symmetry in Hhd. apply Nat.ltb_ge in Hhd. lia.
  - simpl in Hhd. rewrite mem_digits, Hhd.
    destruct (Nat.eqb_spec (prefix_len is_digit rest) n) as [He | Hne].
    + replace (0 <? prefix_len is_digit rest - n) with false
        by (symmetry; apply Nat.ltb_ge; lia).
      reflexivity.
    + replace (0 <? prefix_len is_digit rest - n) with true
        by (symmetry; apply Nat.ltb_lt; lia).
      reflexivity.
Qed.

Lemma isolated_run_none n prev rest :
  match_at (isolated_run n) prev rest = None ->
  p_head is_digit prev = true \/ has_length n (prefix is_digit rest) = false.
Proof.
  rewrite match_at_isolated_run. unfold has_length. rewrite length_prefix.
  destruct (p_head is_digit prev); [now left |].
  destruct (prefix_len is_digit rest =? n); [discriminate | now right].
Qed.

Lemma isolated_run_some n prev rest m :
  match_at (isolated_run n) prev rest = Some m ->
  p_head is_digit prev = false /\ has_length n (prefix is_digit rest) = true
  /\ after m = drop (length (prefix is_digit rest)) rest
  /\ group m 1 = prefix is_digit rest.
Proof.
  rewrite match_at_isolated_run. unfold has_length. rewrite length_prefix.
  destruct (p_head is_digit prev); [discriminate |].
  destruct (Nat.eqb_spec (prefix_len is_digit rest) n) as [He | Hne]; [| discriminate].
  simpl. intros H. injection H as <-. simpl.
  rewrite prefix_take, He. repeat split; reflexivity.
Qed.

Lemma isolated_run_consumes n : 0 < n -> 0 < min_len (isolated_run n).
Proof. simpl. lia. Qed.

Ltac fixed_length d H :=
  unfold has_length in H; apply Nat.eqb_eq in H;
  repeat (destruct d as [|? d]; [discriminate H |]);
  destruct d; [| discriminate H]; clear H.

Ltac case_digits :=
  repeat match goal with
         | |- context [is_digit ?c] =>
             lazymatch c with
             | Ascii _ _ _ _ _ _ _ _ => fail
             | _ => destruct (is_digit c)
             end
         end.

(** ** The phone mask and the national-ID mask leave nothing to match *)

Lemma phone_repl_runs n d :
  has_length 10 d = true -> 2 < n ->
  existsb (has_length n) (closed is_digit [] (take 2 d ++ xs 6 ++ lastn 2 d)) = false
  /\ has_length n (pending is_digit [] (take 2 d ++ xs 6 ++ lastn 2 d)) = false.
Proof.
  intros H Hn. fixed_length d H.
  assert (forall t, length t <= 2 -> has_length n t = false) as Hs.
  { intros t Ht. unfold has_length. apply Nat.eqb_neq. lia. }
  cbn -[is_digit has_length].
  change (is_digit "X") with false. cbn -[is_digit has_length].
  case_digits; cbn -[has_length]; rewrite ?Hs by (simpl; lia); split; reflexivity.
Qed.

Lemma aadhar_repl_runs n d :
  has_length 12 d = true -> 4 < n ->
  existsb (has_length n) (closed is_digit [] (txt "XXXX XXXX " ++ lastn 4 d)) = false
  /\ has_length n (pending is_digit [] (txt "XXXX XXXX " ++ lastn 4 d)) = false.
Proof.
  intros H Hn. fixed_length d H.
  assert (forall t, length t <= 4 -> has_length n t = false) as Hs.
  { intros t Ht. unfold has_length. apply Nat.eqb_neq. lia. }
  cbn -[is_digit has_length].
  change (is_digit "X") with false. change (is_digit " ") with false.
  cbn -[is_digit has_length].
  case_digits; cbn -[has_length]; rewrite ?Hs by (simpl; lia); split; reflexivity.
Qed.

Lemma has_length_nil n : 0 < n -> has_length n [] = false.
Proof. intros H. unfold has_length. apply Nat.eqb_neq. simpl. lia. Qed.

(** No phone-like number is left by the phone mask. *)
Theorem mask_phone_complete s : matches RE_TEN_DIGITS (mask_phone_digits s) = false.
Proof.
  change (matches (isolated_run 10) (sub (isolated_run 10) phone_repl s) = false).
  apply (sub_complete is_digit (has_length 10)).
  - apply isolated_run_none.
  - intros prev rest m H. apply isolated_run_some in H. tauto.
  - reflexivity.
  - simpl; lia.
  - intros prev rest m H. apply isolated_run_some in H.
    destruct H as (_ & Hl & _ & Hg). unfold phone_repl. rewrite Hg.
    apply phone_repl_runs; [exact Hl | lia].
Qed.

(** No isolated run of twelve digits is left by the national-ID mask. *)
Theorem mask_aadhar_complete s : matches RE_AADHAR (mask_aadhar_digits s) = false.
Proof.
  unfold mask_aadhar_digits.
  set (s_norm := sub RE_GROUPED _ s).
  change (matches (isolated_run 12) (sub (isolated_run 12) aadhar_repl s_norm) = false).
  apply (sub_complete is_digit (has_length 12)).
  - apply isolated_run_none.
  - intros prev rest m H. apply isolated_run_some in H. tauto.
  - reflexivity.
  - simpl; lia.
  - intros prev rest m H. apply isolated_run_some in H.
    destruct H as (_ & Hl & _ & Hg). unfold aadhar_repl. rewrite Hg.
    apply aadhar_repl_runs; [exact Hl | lia].
Qed.

(** ** The passport-like token *)

Lemma take_prefix_all q n : forall s,
  n <= prefix_len q s -> forallb q (take n s) = true.
Proof.
  induction n as [|n IH]; intros s H; [reflexivity |].
  destruct s as [|c s]; simpl in *; [lia |].
  destruct (q c); simpl in *; [apply IH; lia | lia].
Qed.

Lemma forallb_impl (q w : ascii -> bool) s :
  (forall c, q c = true -> w c = true) -> forallb q s = true -> forallb w s = true.
Proof.
  intros Hqw. induction s as [|c s IH]; simpl; [reflexivity |].
  intros H. apply andb_prop in H. destruct H as [Hc Hs].
  now rewrite (Hqw _ Hc), IH.
Qed.

(** A run of [n] characters of a class [q] that is closed by a character
    outside a wider class [w]: the longest [w]-prefix has length [n] and
    lies in [q]. *)
Lemma closed_run_prefix (q w : ascii -> bool) :
  (forall c, q c = true -> w c = true) ->
  forall s n,
    (n <=? prefix_len q s) && negb (p_head w (drop n s))
    = (length (prefix w s) =? n) && forallb q (prefix w s).
Proof.
  intros Hqw. induction s as [|c s IH]; intros n.
  - rewrite drop_nil. simpl. destruct n; reflexivity.
  - destruct n as [|n].
    + rewrite drop_0. simpl. destruct (w c) eqn:Hw; simpl; reflexivity.
    + simpl. destruct (q c) eqn:Hq.
      * rewrite (Hqw _ Hq). simpl. rewrite Hq. simpl. apply IH.
      * simpl. destruct (w c); simpl; [| reflexivity].
        rewrite Hq. simpl. symmetry. apply andb_false_r.
Qed.

Lemma match_at_passport prev rest :
  match_at RE_PASSPORT prev rest
  = if negb (p_head is_word prev) && pp_token (prefix is_word rest)
    then Some (MState (rev (take 8 rest) ++ prev) (drop 8 rest) [(1, take 8 rest)])
    else None.
Proof.
  unfold match_at, RE_PASSPORT.
  set (body := (Chars _ +> exactly 7 (Chars [num]))%re).
  change (exec (Bound +> Group 1 body +> Bound) (MState prev rest []))
    with (flat_map (exec (Group 1 body +> Bound))
            (if xorb (p_head is_word prev) (p_head is_word rest)
             then [MState prev rest []] else [])).
  destruct rest as [|c rest].
  { simpl p_head. rewrite xorb_false_r, andb_false_r.
    destruct (p_head is_word prev); reflexivity. }
  assert (Hbody : forall st, after st = c :: rest ->
            exec body st
            = if passport_letter c && (7 <=? prefix_len is_digit rest)
              then [MState (rev (take 7 rest) ++ c :: before st) (drop 7 rest) (caps st)]
              else []).
  { intros st Ha. unfold body.
    change (exec (Chars ?cs +> ?r) st) with (flat_map (exec r) (exec (Chars cs) st)).
    cbn [exec]. rewrite Ha, mem_passport.
    destruct (passport_letter c); [| reflexivity].
    cbn [flat_map andb]. rewrite app_nil_r, exec_exactly_chars. cbn [after].
    rewrite (prefix_len_ext _ is_digit) by apply mem_num.
    destruct (7 <=? prefix_len is_digit rest); reflexivity. }
  cbn [prefix p_head pp_token].
  destruct (passport_letter c) eqn:Hpl.
  2:{ assert (pp_token (if is_word c then c :: prefix is_word rest else []) = false) as ->.
      { destruct (is_word c); simpl; [now rewrite Hpl | reflexivity]. }
      rewrite andb_false_r.
      destruct (xorb _ _); [| reflexivity].
      cbn [flat_map]. rewrite app_nil_r.
      change (exec (Group 1 body +> Bound) ?st)
        with (flat_map (exec Bound)
                (map (fun st' => MState (before st') (after st')
                        (set_cap 1 (take (length (after st) - length (after st')) (after st))
                                 (caps st')))
                     (exec body st))).
      rewrite Hbody by reflexivity. reflexivity. }
  rewrite (passport_letter_word _ Hpl). cbn [pp_token]. rewrite Hpl.
  rewrite xorb_true_r.
  destruct (p_head is_word prev); [reflexivity |].
  cbn [negb andb flat_map]. rewrite app_nil_r.
  change (exec (Group 1 body +> Bound) ?st)
    with (flat_map (exec Bound)
            (map (fun st' => MState (before st') (after st')
                    (set_cap 1 (take (length (after st) - length (after st')) (after st))
                             (caps st')))
                 (exec body st))).
  rewrite Hbody by reflexivity. cbn [andb before caps after].
  rewrite <- (closed_run_prefix is_digit is_word digit_word rest 7).
  destruct (Nat.leb_spec 7 (prefix_len is_digit rest)) as [H7 | H7]; [| reflexivity].
  cbn [map flat_map after before caps andb]. rewrite app_nil_r.
  cbn [exec word_before word_after before after].
  pose proof (prefix_len_le is_digit rest) as Hle.
  assert (Hlast : p_head is_word (rev (take 7 rest) ++ c :: prev) = true).
  { assert (take 7 rest <> []) as Hne.
    { destruct rest; simpl in *; [lia | discriminate]. }
    rewrite p_head_rev_app by exact Hne.
    apply p_head_rev_all; [exact Hne |].
    apply (forallb_impl is_digit); [apply digit_word |].
    now apply take_prefix_all. }
  match goal with
  | |- context [xorb (word_before ?st) (word_after ?st)] =>
      change (xorb (word_before st) (word_after st))
        with (xorb (p_head is_word (rev (take 7 rest) ++ c :: prev))
                   (p_head is_word (drop 7 rest)))
  end.
  rewrite Hlast.
  rewrite xorb_true_l.
  destruct (p_head is_word (drop 7 rest)); [reflexivity |].
  cbn [negb head]. f_equal.
  rewrite length_drop. cbn [length].
  replace (S (length rest) - (length rest - 7)) with 8 by lia.
  cbn [take drop rev]. rewrite <- app_assoc. reflexivity.
Qed.

Lemma pp_token_shape t :
  pp_token t = true ->
  exists c d1 d2 d3 d4 d5 d6 d7,
    t = [c; d1; d2; d3; d4; d5; d6; d7] /\ passport_letter c = true
    /\ forallb is_digit [d1; d2; d3; d4; d5; d6; d7] = true.
Proof.
  destruct t as [|c ds]; [discriminate |]. simpl.
  intros H. apply andb_prop in H. destruct H as [H Hd].
  apply andb_prop in H. destruct H as [Hc Hl].
  change (has_length 7 ds = true) in Hl. fixed_length ds Hl.
  repeat eexists; eauto.
Qed.

Lemma passport_none prev rest :
  match_at RE_PASSPORT prev rest = None ->
  p_head is_word prev = true \/ pp_token (prefix is_word rest) = false.
Proof.
  rewrite match_at_passport.
  destruct (p_head is_word prev); [now left |].
  destruct (pp_token _); [discriminate | now right].
Qed.

Lemma passport_some prev rest m :
  match_at RE_PASSPORT prev rest = Some m ->
  p_head is_word prev = false /\ pp_token (prefix is_word rest) = true
  /\ after m = drop (length (prefix is_word rest)) rest
  /\ group m 1 = prefix is_word rest.
Proof.
  rewrite match_at_passport.
  destruct (p_head is_word prev); [discriminate |].
  destruct (pp_token (prefix is_word rest)) eqn:Hpp; [| discriminate].
  simpl. intros H. injection H as <-. simpl.
  assert (length (prefix is_word rest) = 8) as Hl.
  { destruct (pp_token_shape _ Hpp) as (c & d1 & d2 & d3 & d4 & d5 & d6 & d7 & -> & _).
    reflexivity. }
  rewrite Hl.
  assert (take 8 rest = prefix is_word rest) as ->.
  { rewrite prefix_take, <- length_prefix, Hl. reflexivity. }
  repeat split; reflexivity.
Qed.

Lemma passport_repl_shape t :
  pp_token t = true ->
  exists c d, passport_letter c = true /\ is_digit d = true
              /\ head t = Some c
              /\ take 1 t ++ xs 6 ++ lastn 1 t = c :: xs 6 ++ [d].
Proof.
  intros H. destruct (pp_token_shape _ H)
    as (c & d1 & d2 & d3 & d4 & d5 & d6 & d7 & -> & Hc & Hd).
  exists c, d7. simpl in Hd.
  repeat (apply andb_prop in Hd; destruct Hd as [? Hd]).
  repeat split; assumption || reflexivity.
Qed.

(** No passport-like code is left by the passport mask. *)
Theorem mask_passport_complete s : matches RE_PASSPORT (mask_passport_in s) = false.
Proof.
  change (matches RE_PASSPORT (sub RE_PASSPORT passport_repl s) = false).
  apply (sub_complete is_word pp_token).
  - apply passport_none.
  - intros prev rest m H. apply passport_some in H. tauto.
  - reflexivity.
  - simpl; lia.
  - intros prev rest m H. apply passport_some in H.
    destruct H as (_ & Hpp & _ & Hg). unfold passport_repl. rewrite Hg.
    destruct (passport_repl_shape _ Hpp) as (c & d & Hc & Hd & _ & ->).
    cbn -[is_word passport_letter is_digit].
    rewrite (passport_letter_word _ Hc), (digit_word _ Hd).
    change (is_word "X") with true. cbn -[passport_letter is_digit].
    change (is_digit "X") with false. rewrite andb_false_r. split; reflexivity.
Qed.

(** C4 in terms of tokens: the passport pattern matches exactly when some
    maximal run of word characters is a passport letter and seven digits. *)
Lemma matches_passport_tokens s :
  matches RE_PASSPORT s = has_good is_word pp_token [] s.
Proof.
  apply matches_runs.
  - apply passport_none.
  - intros prev rest m H. apply passport_some in H. tauto.
  - reflexivity.
Qed.

Lemma matches_isolated_run n s :
  0 < n -> matches (isolated_run n) s = has_good is_digit (has_length n) [] s.
Proof.
  intros Hn. apply matches_runs.
  - apply isolated_run_none.
  - intros prev rest m H. apply isolated_run_some in H. tauto.
  - now apply has_length_nil.
Qed.

(** ** Reading a match backwards *)

Lemma match_at_in r prev rest m :
  match_at r prev rest = Some m -> In m (exec r (MState prev rest [])).
Proof.
  unfold match_at. destruct (exec r _) as [|m' l]; [discriminate |].
  intros H. injection H as ->. now left.
Qed.

Lemma in_exec_cat r1 r2 st m :
  In m (exec (r1 +> r2) st) ->
  exists mid, In mid (exec r1 st) /\ In m (exec r2 mid).
Proof. cbn [exec]. intros H. apply in_flat_map in H. exact H. Qed.

Lemma in_desc k a b : In k (desc a b) -> b <= k <= a.
Proof. unfold desc. rewrite <- in_rev, in_seq. lia. Qed.

Lemma steps_advance k st :
  k <= length (after st) -> steps st (advance k st) (take k (after st)).
Proof.
  intros Hk. split; simpl; [now rewrite take_drop | reflexivity].
Qed.

Lemma in_exec_repeat_chars lo hi cs st m :
  In m (exec (Repeat lo hi (Chars cs)) st) ->
  exists g, steps st m g /\ lo <= length g /\ forallb (cset_mem cs) g = true
            /\ caps m = caps st.
Proof.
  rewrite exec_repeat_chars. intros H. apply in_map_iff in H.
  destruct H as (k & <- & Hk). apply in_desc in Hk.
  pose proof (prefix_len_le (cset_mem cs) (after st)) as Hle.
  assert (k <= prefix_len (cset_mem cs) (after st)) as Hkp.
  { destruct Hk as [_ Hk]. destruct hi; simpl in Hk; lia. }
  exists (take k (after st)). split; [apply steps_advance; lia |].
  split; [rewrite length_take; lia |].
  split; [now apply take_prefix_all | reflexivity].
Qed.

Lemma in_exec_chars cs st m :
  In m (exec (Chars cs) st) ->
  exists c, steps st m [c] /\ cset_mem cs c = true /\ caps m = caps st.
Proof.
  cbn [exec]. destruct (after st) as [|c rest] eqn:Ha; [intros [] |].
  destruct (cset_mem cs c) eqn:Hc; [| intros []].
  intros [<- | []]. exists c. split; [split; [exact Ha | reflexivity] |].
  split; [exact Hc | reflexivity].
Qed.

Lemma in_exec_group i r st m :
  In m (exec (Group i r) st) ->
  exists m1 g, In m1 (exec r st) /\ steps st m g /\ steps st m1 g
               /\ caps m = set_cap i g (caps m1).
Proof.
  cbn [exec]. intros H. apply in_map_iff in H. destruct H as (m1 & <- & H1).
  destruct (exec_frame _ _ _ H1) as (g & Hg1 & Hg2).
  exists m1, g. split; [exact H1 |]. split; [split; assumption |].
  split; [split; assumption |]. simpl. f_equal.
  rewrite Hg1, length_app. replace (length g + length (after m1) - length (after m1))
    with (length g) by lia.
  now rewrite take_app_length.
Qed.

Lemma in_exec_bound st m :
  In m (exec Bound st) ->
  m = st /\ xorb (p_head is_word (before st)) (p_head is_word (after st)) = true.
Proof.
  cbn [exec].
  change (xorb (word_before st) (word_after st))
    with (xorb (p_head is_word (before st)) (p_head is_word (after st))).
  destruct (xorb _ _); [| intros []]. intros [<- | []]. split; reflexivity.
Qed.

Lemma in_exec_notbehind cs st m :
  In m (exec (NotBehind cs) st) -> m = st /\ p_head (cset_mem cs) (before st) = false.
Proof.
  cbn [exec]. destruct (before st) as [|c l]; simpl.
  - intros [<- | []]. split; reflexivity.
  - destruct (cset_mem cs c); [intros [] |]. intros [<- | []]. split; reflexivity.
Qed.

Lemma in_exec_notahead cs st m :
  In m (exec (NotAhead cs) st) -> m = st /\ p_head (cset_mem cs) (after st) = false.
Proof.
  cbn [exec]. destruct (after st) as [|c l]; simpl.
  - intros [<- | []]. split; reflexivity.
  - destruct (cset_mem cs c); [intros [] |]. intros [<- | []]. split; reflexivity.
Qed.

Lemma in_exec_group_exactly i n cs st m :
  In m (exec (Group i (exactly n (Chars cs))) st) ->
  exists g, steps st m g /\ length g = n /\ forallb (cset_mem cs) g = true
            /\ caps m = set_cap i g (caps st).
Proof.
  intros H. apply in_exec_group in H. destruct H as (m1 & g & H1 & Hs & Hs1 & Hc).
  rewrite exec_exactly_chars in H1.
  destruct (Nat.leb_spec n (prefix_len (cset_mem cs) (after st))) as [Hn | Hn];
    [| destruct H1].
  destruct H1 as [<- | []].
  pose proof (prefix_len_le (cset_mem cs) (after st)) as Hle.
  destruct Hs1 as [Ha _]. simpl in Ha.
  assert (g = take n (after st)) as Hg.
  { rewrite <- (take_drop n (after st)) in Ha at 1.
    apply app_inv_tail in Ha. now symmetry. }
  exists g. split; [exact Hs |]. subst g.
  split; [rewrite length_take; lia |].
  split; [now apply take_prefix_all | exact Hc].
Qed.

Lemma steps_trans st1 st2 st3 g h :
  steps st1 st2 g -> steps st2 st3 h -> steps st1 st3 (g ++ h).
Proof.
  intros [Ha Hb] [Hc Hd]. split.
  - rewrite Ha, Hc. now rewrite app_assoc.
  - rewrite Hd, Hb, rev_app_distr. now rewrite app_assoc.
Qed.

Lemma existsb_runs_false p good w :
  existsb good (closed p [] w) = false -> good (pending p [] w) = false ->
  existsb good (runs p [] w) = false.
Proof.
  intros Hc Hp. unfold runs. rewrite existsb_app, Hc. simpl.
  now apply existsb_flush_false.
Qed.

(** ** Passes that create no good run *)

Section RecognizerSafe.
Variable p : ascii -> bool.
Variable good1 good2 : text -> bool.
Variable r : regex.
Hypothesis rec_some : forall prev rest m,
  match_at r prev rest = Some m ->
  p_head p prev = false /\ good1 (prefix p rest) = true
  /\ after m = drop (length (prefix p rest)) rest.
Hypothesis good_nil : good1 [] = false.

Lemma recognizer_match prev x rest m :
  match_at r prev (x ++ rest) = Some m -> after m = rest ->
  p_head p prev = false /\ x = prefix p (x ++ rest) /\ starts_np p rest
  /\ good1 x = true.
Proof.
  intros E Ha. destruct (rec_some _ _ _ E) as (Hprev & Hg & Hd).
  assert (prefix p (x ++ rest) = x) as Hpx.
  { pose proof (prefix_app_drop p (x ++ rest)) as H.
    rewrite <- Hd, Ha in H. now apply app_inv_tail in H. }
  split; [exact Hprev |]. split; [now symmetry |]. split.
  - rewrite <- Ha, Hd. apply drop_prefix_starts_np.
  - now rewrite <- Hpx.
Qed.

(** A recogniser of whole runs, replacing them by text without a good run,
    creates no good run. *)
Lemma recognizer_safe prev x rest m w :
  match_at r prev (x ++ rest) = Some m -> after m = rest ->
  w <> [] -> existsb good2 (runs p [] w) = false ->
  safe_repl p good2 prev x rest w.
Proof.
  intros E Ha Hw Hruns.
  destruct (recognizer_match _ _ _ _ E Ha) as (Hprev & Hx & Hnp & Hg).
  assert (x <> []) as Hne by (intros ->; congruence).
  assert (forallb p x = true) as Hall by (rewrite Hx; apply prefix_all).
  constructor.
  - exact Hw.
  - intros H. exfalso. destruct x as [|c x]; [congruence |].
    simpl in *. apply andb_prop in Hall. destruct Hall. congruence.
  - intros _. exact Hprev.
  - intros _. destruct rest; simpl in *; [reflexivity | exact Hnp].
  - intros H. rewrite p_head_rev_all in H by assumption. discriminate.
  - rewrite Hruns. discriminate.
Qed.
End RecognizerSafe.

(** The national-ID substitution creates no run of [n] digits, [n] above 4. *)
Lemma aadhar_pass_safe n s :
  4 < n ->
  has_good is_digit (has_length n) [] (sub RE_AADHAR aadhar_repl s) = true ->
  has_good is_digit (has_length n) [] s = true.
Proof.
  intros Hn. change RE_AADHAR with (isolated_run 12).
  apply sub_safe; [simpl; lia |].
  intros prev x rest m Hx E Ha.
  apply (recognizer_safe is_digit (has_length 12) (has_length n) (isolated_run 12))
    with (m := m); try assumption.
  - intros prev' rest' m' H. apply isolated_run_some in H. tauto.
  - reflexivity.
  - discriminate.
  - apply isolated_run_some in E. destruct E as (_ & Hl & _ & Hg).
    unfold aadhar_repl. rewrite Hg.
    destruct (aadhar_repl_runs n _ Hl Hn). now apply existsb_runs_false.
Qed.

(** ** The 4-4-4 grouping *)

Lemma forallb_eq (p q : ascii -> bool) s :
  (forall c, p c = q c) -> forallb p s = forallb q s.
Proof.
  intros H. induction s as [|c s IH]; simpl; [reflexivity | now rewrite H, IH].
Qed.

Lemma mem_spaces c : cset_mem [Spaces] c = is_space c.
Proof. unfold cset_mem; simpl. apply orb_false_r. Qed.

Lemma grouped_shape prev rest m :
  match_at RE_GROUPED prev rest = Some m ->
  exists g1 w1 g2 w2 g3,
    rest = (g1 ++ w1 ++ g2 ++ w2 ++ g3) ++ after m
    /\ has_length 4 g1 = true /\ has_length 4 g2 = true /\ has_length 4 g3 = true
    /\ forallb is_digit g1 = true /\ forallb is_digit g2 = true
    /\ forallb is_digit g3 = true
    /\ forallb is_space w1 = true /\ forallb is_space w2 = true
    /\ p_head is_digit prev = false /\ p_head is_digit (after m) = false
    /\ group m 1 = g1 /\ group m 2 = g2 /\ group m 3 = g3.
Proof.
  intros H. apply match_at_in in H. unfold RE_GROUPED in H.
  apply in_exec_cat in H. destruct H as (m0 & H0 & H).
  apply in_exec_notbehind in H0. destruct H0 as [-> Hnb].
  apply in_exec_cat in H. destruct H as (m1 & H1 & H).
  apply in_exec_group_exactly in H1. destruct H1 as (g1 & S1 & L1 & D1 & C1).
  apply in_exec_cat in H. destruct H as (m2 & H2 & H).
  apply in_exec_repeat_chars in H2. destruct H2 as (w1 & S2 & _ & D2 & C2).
  apply in_exec_cat in H. destruct H as (m3 & H3 & H).
  apply in_exec_group_exactly in H3. destruct H3 as (g2 & S3 & L3 & D3 & C3).
  apply in_exec_cat in H. destruct H as (m4 & H4 & H).
  apply in_exec_repeat_chars in H4. destruct H4 as (w2 & S4 & _ & D4 & C4).
  apply in_exec_cat in H. destruct H as (m5 & H5 & H).
  apply in_exec_group_exactly in H5. destruct H5 as (g3 & S5 & L5 & D5 & C5).
  apply in_exec_notahead in H. destruct H as [-> Hna].
  pose proof (steps_trans _ _ _ _ _ S1
                (steps_trans _ _ _ _ _ S2
                   (steps_trans _ _ _ _ _ S3 (steps_trans _ _ _ _ _ S4 S5)))) as [Ha _].
  simpl in Ha, Hnb.
  rewrite (forallb_eq _ is_digit) in D1, D3, D5 by apply mem_digits.
  rewrite (forallb_eq _ is_space) in D2, D4 by apply mem_spaces.
  exists g1, w1, g2, w2, g3.
  split; [exact Ha |].
  unfold has_length. rewrite L1, L3, L5.
  repeat (split; [first [reflexivity | assumption] |]).
  split.
  { rewrite <- Hnb. destruct prev; cbn [p_head]; [reflexivity | now rewrite mem_digits]. }
  split.
  { rewrite <- Hna. destruct (after m5); cbn [p_head]; [reflexivity | now rewrite mem_digits]. }
  unfold group. rewrite C5, C4, C3, C2, C1. simpl. repeat split; reflexivity.
Qed.

Lemma runs_all_digits p w : w <> [] -> forallb p w = true -> runs p [] w = [w].
Proof.
  intros Hw H. rewrite <- (app_nil_r w) at 1.
  rewrite runs_all_p by exact H. simpl. rewrite runs_nil.
  destruct w; [congruence | reflexivity].
Qed.

Lemma p_head_app p x y : x <> [] -> p_head p (x ++ y) = p_head p x.
Proof. destruct x; [congruence | reflexivity]. Qed.

Lemma not_word_not_digit s : p_head is_word s = false -> p_head is_digit s = false.
Proof.
  destruct s as [|c s]; simpl; [reflexivity |].
  intros H. destruct (is_digit c) eqn:E; [| reflexivity].
  apply digit_word in E. congruence.
Qed.

(** Joining 4-4-4 groups creates no run of [n] digits, [n] other than 12. *)
Lemma grouped_pass_safe n s :
  n <> 12 ->
  has_good is_digit (has_length n) [] (sub RE_GROUPED grouped_repl s) = true ->
  has_good is_digit (has_length n) [] s = true.
Proof.
  intros Hn. apply sub_safe; [simpl; lia |].
  intros prev x rest m Hx E Ha.
  destruct (grouped_shape _ _ _ E)
    as (g1 & w1 & g2 & w2 & g3 & Hsplit & L1 & L2 & L3 & D1 & D2 & D3 & _ & _
        & Hnb & Hna & G1 & G2 & G3).
  rewrite Ha in Hsplit, Hna. apply app_inv_tail in Hsplit. subst x.
  unfold grouped_repl. rewrite G1, G2, G3.
  assert (g1 <> []) as N1 by (intros ->; discriminate).
  assert (g3 <> []) as N3 by (intros ->; discriminate).
  assert (forallb is_digit (g1 ++ g2 ++ g3) = true) as Dall
    by (now rewrite !forallb_app, D1, D2, D3).
  constructor.
  - destruct g1; [congruence | discriminate].
  - intros H. exfalso. rewrite p_head_app in H by exact N1.
    destruct g1 as [|c g1]; [congruence |]. simpl in *.
    apply andb_prop in D1. destruct D1. congruence.
  - intros _. exact Hnb.
  - intros _. exact Hna.
  - intros H. exfalso.
    rewrite !app_assoc, rev_app_distr, p_head_app in H
      by (intros H'; apply (f_equal (@rev ascii)) in H';
          rewrite rev_involutive in H'; now apply N3).
    rewrite p_head_rev_all in H by assumption. discriminate.
  - rewrite runs_all_digits; [| destruct g1; [congruence | discriminate] | exact Dall].
    simpl. unfold has_length in *. rewrite !length_app.
    apply Nat.eqb_eq in L1, L2, L3. rewrite L1, L2, L3.
    destruct (Nat.eqb_spec (4 + (4 + 4)) n); [lia | discriminate].
Qed.

Lemma passport_match prev x rest m :
  match_at RE_PASSPORT prev (x ++ rest) = Some m -> after m = rest ->
  p_head is_word prev = false /\ x = prefix is_word (x ++ rest)
  /\ starts_np is_word rest /\ pp_token x = true.
Proof.
  apply (recognizer_match is_word pp_token RE_PASSPORT).
  intros prev' rest' m' H. apply passport_some in H. tauto.
Qed.

(** The passport mask creates no run of [n] digits, [n] above 1. *)
Lemma passport_pass_safe n s :
  1 < n ->
  has_good is_digit (has_length n) [] (mask_passport_in s) = true ->
  has_good is_digit (has_length n) [] s = true.
Proof.
  intros Hn. change (mask_passport_in s) with (sub RE_PASSPORT passport_repl s).
  apply sub_safe; [simpl; lia |].
  intros prev x rest m Hx E Ha.
  destruct (passport_match _ _ _ _ E Ha) as (Hprev & Hpx & Hnp & Hpp).
  apply passport_some in E. destruct E as (_ & _ & _ & Hg).
  unfold passport_repl. rewrite Hg, <- Hpx.
  destruct (pp_token_shape _ Hpp)
    as (c & d1 & d2 & d3 & d4 & d5 & d6 & d7 & -> & Hc & Hd).
  pose proof (passport_letter_not_digit _ Hc) as Hcd.
  simpl in Hd. repeat (apply andb_prop in Hd; destruct Hd as [? Hd]).
  constructor.
  - discriminate.
  - intros _. simpl. exact Hcd.
  - simpl. congruence.
  - intros _. apply not_word_not_digit.
    destruct rest; simpl in *; [reflexivity | exact Hnp].
  - simpl. congruence.
  - unfold runs. cbn -[is_digit has_length]. rewrite Hcd.
    change (is_digit "X") with false. cbn -[is_digit has_length].
    destruct (is_digit d7); cbn -[has_length]; [| discriminate].
    unfold has_length. simpl length.
    destruct (Nat.eqb_spec 1 n); [lia | discriminate].
Qed.

(** ** The payment handle *)

Lemma mem_upi c :
  cset_mem [upper; lower; num; One "."; One "_"; One "-"]%char c = upi_char c.
Proof. by_char c. Qed.

Lemma mem_at c : cset_mem [One "@"]%char c = true -> c = "@"%char.
Proof. by_char c. Qed.

Lemma steps_inj st m g h : steps st m g -> steps st m h -> g = h.
Proof.
  intros [Ha _] [Hb _]. rewrite Ha in Hb. now apply app_inv_tail in Hb.
Qed.

Lemma rev_nonempty (x : text) : x <> [] -> rev x <> [].
Proof.
  intros Hx H. apply (f_equal (@rev ascii)) in H.
  rewrite rev_involutive in H. now apply Hx.
Qed.

Lemma p_head_rev_tail p (a b t : text) :
  b <> [] -> p_head p (rev (a ++ b) ++ t) = p_head p (rev b).
Proof.
  intros Hb. rewrite rev_app_distr, <- app_assoc.
  apply p_head_app. now apply rev_nonempty.
Qed.

Lemma upi_shape prev rest m :
  match_at RE_UPI prev rest = Some m ->
  exists user prov,
    rest = (user ++ "@"%char :: prov) ++ after m
    /\ 2 <= length user /\ forallb upi_char user = true
    /\ prov <> []
    /\ xorb (p_head is_word prev) (p_head is_word user) = true
    /\ xorb (p_head is_word (rev prov)) (p_head is_word (after m)) = true
    /\ group m 1 = user /\ group m 2 = prov.
Proof.
  intros H. apply match_at_in in H. unfold RE_UPI in H.
  apply in_exec_cat in H. destruct H as (m0 & H0 & H).
  apply in_exec_bound in H0. destruct H0 as [-> Hb0].
  apply in_exec_cat in H. destruct H as (m1 & H1 & H).
  apply in_exec_group in H1. destruct H1 as (m1' & user & H1 & S1 & S1' & C1).
  apply in_exec_repeat_chars in H1. destruct H1 as (user' & Su & Lu & Du & Cu).
  pose proof (steps_inj _ _ _ _ S1' Su) as <-. clear Su.
  apply in_exec_cat in H. destruct H as (m2 & H2 & H).
  apply in_exec_chars in H2. destruct H2 as (c & S2 & Hc & C2).
  apply mem_at in Hc. subst c.
  apply in_exec_cat in H. destruct H as (m3 & H3 & H).
  apply in_exec_group in H3. destruct H3 as (m3' & prov & H3 & S3 & S3' & C3).
  apply in_exec_cat in H3. destruct H3 as (m4 & H4 & H3).
  apply in_exec_chars in H4. destruct H4 as (c & S4 & Hc & C4).
  apply in_exec_repeat_chars in H3. destruct H3 as (g & S5 & L5 & D5 & C5).
  pose proof (steps_inj _ _ _ _ S3' (steps_trans _ _ _ _ _ S4 S5)) as ->.
  apply in_exec_bound in H. destruct H as [-> Hb1].
  pose proof (steps_trans _ _ _ _ _ S1 (steps_trans _ _ _ _ _ S2 S3)) as [Ha Hbf].
  simpl in Ha, Hbf, Hb0.
  rewrite (forallb_eq _ upi_char) in Du by apply mem_upi.
  exists user, ([c] ++ g).
  split; [rewrite Ha; now rewrite <- !app_assoc |].
  split; [exact Lu |]. split; [exact Du |]. split; [discriminate |].
  split.
  { rewrite <- Hb0, Ha. f_equal. symmetry. rewrite <- app_assoc. apply p_head_app.
    intros ->. simpl in Lu. lia. }
  split.
  { rewrite <- Hb1, Hbf. f_equal.
    change (user ++ "@"%char :: c :: g) with (user ++ ["@"%char] ++ ([c] ++ g)).
    rewrite app_assoc. symmetry. now apply p_head_rev_tail. }
  unfold group. rewrite C3, C5, C4, C2, C1, Cu. simpl. split; reflexivity.
Qed.

Lemma closed_pending_all_p p t : forall cur,
  forallb p t = true -> closed p cur t = [] /\ pending p cur t = cur ++ t.
Proof.
  induction t as [|c t IH]; intros cur H; simpl in *.
  - now rewrite app_nil_r.
  - apply andb_prop in H. destruct H as [Hc Ht]. rewrite Hc.
    destruct (IH (cur ++ [c]) Ht) as [-> ->]. now rewrite <- app_assoc.
Qed.

Lemma closed_pending_all_np p t : forall cur,
  forallb (fun c => negb (p c)) t = true -> t <> [] ->
  closed p cur t = flush cur /\ pending p cur t = [].
Proof.
  induction t as [|c t IH]; intros cur H Ht; [congruence |]. simpl in *.
  apply andb_prop in H. destruct H as [Hc H]. apply negb_true_iff in Hc. rewrite Hc.
  destruct t as [|c' t]; [simpl; now rewrite app_nil_r |].
  destruct (IH [] H) as [-> ->]; [discriminate |]. simpl. now rewrite app_nil_r.
Qed.

Lemma forallb_xs p k : p "X"%char = true -> forallb p (xs k) = true.
Proof.
  intros H. unfold xs. induction k as [|k IH]; simpl; [reflexivity | now rewrite H, IH].
Qed.

Lemma length_xs k : length (xs k) = k.
Proof. apply length_replicate. Qed.

Lemma runs_after_at p a prov :
  p "@"%char = false ->
  runs p [] ((a ++ ["@"%char]) ++ prov) = closed p [] (a ++ ["@"%char]) ++ runs p [] prov.
Proof.
  intros H. rewrite runs_app. f_equal. f_equal.
  apply pending_last_np.
  - intros H'. now apply app_eq_nil in H' as [_ H'].
  - rewrite rev_app_distr. simpl. exact H.
Qed.

Lemma xs_at_all_np p k :
  p "X"%char = false -> p "@"%char = false ->
  forallb (fun c => negb (p c)) (xs k ++ ["@"%char]) = true.
Proof.
  intros HX Hat. rewrite forallb_app. simpl. rewrite Hat. simpl.
  rewrite andb_true_r. unfold xs. induction k as [|k IH]; simpl; [reflexivity |].
  now rewrite HX, IH.
Qed.

Lemma xs_at_nonempty k : xs k ++ ["@"%char] <> [].
Proof. intros H'. now apply app_eq_nil in H' as [_ H']. Qed.

Lemma upi_handle_digit_runs n u1 u2 k :
  2 < n ->
  existsb (has_length n) (closed is_digit [] (([u1; u2] ++ xs k) ++ ["@"%char])) = false.
Proof.
  intros Hn. rewrite <- app_assoc.
  assert (forall t, length t <= 2 -> has_length n t = false) as Hs.
  { intros t Ht. unfold has_length. apply Nat.eqb_neq. lia. }
  pose proof (fun cur => proj1 (closed_pending_all_np is_digit (xs k ++ ["@"%char]) cur
                 (xs_at_all_np is_digit k eq_refl eq_refl) (xs_at_nonempty k))) as E.
  cbn [app closed].
  destruct (is_digit u1), (is_digit u2); cbn [app flush existsb];
    rewrite ?E; cbn [app flush existsb];
    rewrite ?Hs by (simpl; lia); reflexivity.
Qed.

Lemma handle_repl_cases user prov :
  1 <= length user ->
  handle_repl user prov = user ++ "@"%char :: prov
  \/ exists u1 u2 rest,
       user = u1 :: u2 :: rest
       /\ handle_repl user prov = (([u1; u2] ++ xs (length rest)) ++ ["@"%char]) ++ prov.
Proof.
  intros H. destruct user as [|u1 [|u2 rest]]; simpl in H; [lia | now left |].
  right. exists u1, u2, rest. split; [reflexivity |].
  unfold handle_repl. simpl. rewrite Nat.sub_0_r, <- !app_assoc. reflexivity.
Qed.

Lemma safe_repl_same p good prev x rest :
  x <> [] ->
  (p_head p x = true -> p_head p prev = false) ->
  (p_head p (rev x) = true -> p_head p rest = false) ->
  safe_repl p good prev x rest x.
Proof. intros Hx Hl Hr. constructor; auto. Qed.

(** Masking a handle, between word boundaries, creates no run of [n]
    digits, [n] above 2. *)
Lemma handle_safe_digits n prev user prov rest :
  2 < n -> 1 <= length user -> prov <> [] ->
  xorb (p_head is_word prev) (p_head is_word user) = true ->
  xorb (p_head is_word (rev prov)) (p_head is_word rest) = true ->
  safe_repl is_digit (has_length n) prev (user ++ "@"%char :: prov) rest
            (handle_repl user prov).
Proof.
  intros Hn Lu Np Hb0 Hb1.
  assert (Hlast : forall a, p_head is_digit (rev (a ++ prov)) = p_head is_digit (rev prov)).
  { intros a. rewrite <- (app_nil_r (rev (a ++ prov))). now apply p_head_rev_tail. }
  assert (Hleft : p_head is_digit user = true -> p_head is_digit prev = false).
  { intros H. assert (p_head is_word user = true) as Hw.
    { destruct user; simpl in *; [discriminate | now apply digit_word]. }
    rewrite Hw, xorb_true_r in Hb0. apply negb_true_iff in Hb0.
    now apply not_word_not_digit. }
  assert (Hright : p_head is_digit (rev prov) = true -> p_head is_digit rest = false).
  { intros H. assert (p_head is_word (rev prov) = true) as Hw.
    { destruct (rev prov); simpl in *; [discriminate | now apply digit_word]. }
    rewrite Hw, xorb_true_l in Hb1. apply negb_true_iff in Hb1.
    now apply not_word_not_digit. }
  assert (Hne : user <> []) by (intros ->; simpl in Lu; lia).
  change (user ++ "@"%char :: prov) with (user ++ ["@"%char] ++ prov).
  rewrite (app_assoc user).
  destruct (handle_repl_cases user prov Lu) as [-> | (u1 & u2 & urest & -> & ->)].
  - change (user ++ "@"%char :: prov) with (user ++ ["@"%char] ++ prov).
    rewrite (app_assoc user). apply safe_repl_same.
    + intros H. now apply app_eq_nil in H as [_ H].
    + rewrite <- app_assoc, p_head_app by exact Hne. exact Hleft.
    + rewrite Hlast. exact Hright.
  - constructor.
    + discriminate.
    + simpl. auto.
    + simpl. exact Hleft.
    + rewrite Hlast. exact Hright.
    + rewrite !Hlast. auto.
    + rewrite !runs_after_at by reflexivity. rewrite !existsb_app.
      rewrite upi_handle_digit_runs by exact Hn. simpl.
      intros H. rewrite H. apply orb_true_r.
Qed.

(** The payment-handle mask creates no run of [n] digits, [n] above 2. *)
Lemma upi_pass_safe_digits n s :
  2 < n ->
  has_good is_digit (has_length n) [] (mask_upi_in s) = true ->
  has_good is_digit (has_length n) [] s = true.
Proof.
  intros Hn. change (mask_upi_in s) with (sub RE_UPI upi_repl s).
  apply sub_safe; [simpl; lia |].
  intros prev x rest m Hx E Ha.
  destruct (upi_shape _ _ _ E) as (user & prov & Hsplit & Lu & _ & Np & Hb0 & Hb1 & G1 & G2).
  rewrite Ha in Hsplit, Hb1. apply app_inv_tail in Hsplit. subst x.
  change (upi_repl m) with (handle_repl (group m 1) (group m 2)). rewrite G1, G2.
  apply handle_safe_digits; try assumption. lia.
Qed.

Lemma pp_token_xs pre k : length pre <= 2 -> pp_token (pre ++ xs k) = false.
Proof.
  intros H. destruct pre as [|a [|b [|c pre]]]; simpl in H; try lia; clear H;
    destruct k; cbn -[passport_letter is_digit Nat.eqb];
    try change (passport_letter "X") with false;
    try change (is_digit "X") with false;
    cbn -[passport_letter is_digit Nat.eqb];
    rewrite ?andb_false_r; try reflexivity.
  all: try (destruct (passport_letter a); reflexivity).
Qed.

Lemma upi_handle_tokens u1 u2 k :
  existsb pp_token (closed is_word [] (([u1; u2] ++ xs k) ++ ["@"%char])) = false.
Proof.
  assert (forall cur, closed is_word cur (xs k ++ ["@"%char]) = flush (cur ++ xs k)) as E.
  { intros cur. rewrite closed_app.
    destruct (closed_pending_all_p is_word (xs k) cur) as [-> ->];
      [now apply forallb_xs |].
    simpl. change (is_word "@") with false. cbn. apply app_nil_r. }
  assert (forall pre, length pre <= 2 -> existsb pp_token (flush (pre ++ xs k)) = false) as F.
  { intros pre Hp. apply existsb_flush_false. now apply pp_token_xs. }
  rewrite <- app_assoc. cbn [app closed].
  destruct (is_word u1), (is_word u2); cbn [app flush existsb]; rewrite ?E;
    rewrite ?F by (simpl; lia); try reflexivity.
  change [u1] with ([u1] ++ xs 0).
  rewrite pp_token_xs by (simpl; lia). reflexivity.
Qed.

(** Masking a handle, between word boundaries, creates no passport-like
    token. *)
Lemma handle_safe_tokens prev user prov rest :
  1 <= length user -> prov <> [] ->
  xorb (p_head is_word prev) (p_head is_word user) = true ->
  xorb (p_head is_word (rev prov)) (p_head is_word rest) = true ->
  safe_repl is_word pp_token prev (user ++ "@"%char :: prov) rest
            (handle_repl user prov).
Proof.
  intros Lu Np Hb0 Hb1.
  assert (Hlast : forall a, p_head is_word (rev (a ++ prov)) = p_head is_word (rev prov)).
  { intros a. rewrite <- (app_nil_r (rev (a ++ prov))). now apply p_head_rev_tail. }
  assert (Hleft : p_head is_word user = true -> p_head is_word prev = false).
  { intros H. rewrite H, xorb_true_r in Hb0. now apply negb_true_iff in Hb0. }
  assert (Hright : p_head is_word (rev prov) = true -> p_head is_word rest = false).
  { intros H. rewrite H, xorb_true_l in Hb1. now apply negb_true_iff in Hb1. }
  assert (Hne : user <> []) by (intros ->; simpl in Lu; lia).
  change (user ++ "@"%char :: prov) with (user ++ ["@"%char] ++ prov).
  rewrite (app_assoc user).
  destruct (handle_repl_cases user prov Lu) as [-> | (u1 & u2 & urest & -> & ->)].
  - change (user ++ "@"%char :: prov) with (user ++ ["@"%char] ++ prov).
    rewrite (app_assoc user). apply safe_repl_same.
    + intros H. now apply app_eq_nil in H as [_ H].
    + rewrite <- app_assoc, p_head_app by exact Hne. exact Hleft.
    + rewrite Hlast. exact Hright.
  - constructor.
    + discriminate.
    + simpl. auto.
    + simpl. exact Hleft.
    + rewrite Hlast. exact Hright.
    + rewrite !Hlast. auto.
    + rewrite !runs_after_at by reflexivity. rewrite !existsb_app.
      rewrite upi_handle_tokens. simpl.
      intros H. rewrite H. apply orb_true_r.
Qed.

(** The payment-handle mask creates no passport-like token. *)
Lemma upi_pass_safe_tokens s :
  has_good is_word pp_token [] (mask_upi_in s) = true ->
  has_good is_word pp_token [] s = true.
Proof.
  change (mask_upi_in s) with (sub RE_UPI upi_repl s).
  apply sub_safe; [simpl; lia |].
  intros prev x rest m Hx E Ha.
  destruct (upi_shape _ _ _ E) as (user & prov & Hsplit & Lu & _ & Np & Hb0 & Hb1 & G1 & G2).
  rewrite Ha in Hsplit, Hb1. apply app_inv_tail in Hsplit. subst x.
  change (upi_repl m) with (handle_repl (group m 1) (group m 2)). rewrite G1, G2.
  apply handle_safe_tokens; try assumption. lia.
Qed.

(** ** What the always-on masks leave behind *)

Lemma mask_aadhar_unfold s :
  mask_aadhar_digits s = sub RE_AADHAR aadhar_repl (sub RE_GROUPED grouped_repl s).
Proof. reflexivity. Qed.

(** No phone-like number is left. *)
Theorem a_masks_no_phone s : matches RE_TEN_DIGITS (a_masks s) = false.
Proof.
  change RE_TEN_DIGITS with (isolated_run 10).
  rewrite matches_isolated_run by lia.
  destruct (has_good _ _ _ _) eqn:H; [| reflexivity]. exfalso.
  unfold a_masks in H.
  apply upi_pass_safe_digits in H; [| lia].
  apply passport_pass_safe in H; [| lia].
  rewrite mask_aadhar_unfold in H.
  apply aadhar_pass_safe in H; [| lia].
  apply grouped_pass_safe in H; [| lia].
  rewrite <- matches_isolated_run in H by lia.
  change (isolated_run 10) with RE_TEN_DIGITS in H.
  now rewrite mask_phone_complete in H.
Qed.

(** No isolated run of twelve digits is left. *)
Theorem a_masks_no_aadhar s : matches RE_AADHAR (a_masks s) = false.
Proof.
  change RE_AADHAR with (isolated_run 12).
  rewrite matches_isolated_run by lia.
  destruct (has_good _ _ _ _) eqn:H; [| reflexivity]. exfalso.
  unfold a_masks in H.
  apply upi_pass_safe_digits in H; [| lia].
  apply passport_pass_safe in H; [| lia].
  rewrite <- matches_isolated_run in H by lia.
  change (isolated_run 12) with RE_AADHAR in H.
  now rewrite mask_aadhar_complete in H.
Qed.

(** No passport-like code is left. *)
Theorem a_masks_no_passport s : matches RE_PASSPORT (a_masks s) = false.
Proof.
  rewrite matches_passport_tokens.
  destruct (has_good _ _ _ _) eqn:H; [| reflexivity]. exfalso.
  unfold a_masks in H.
  apply upi_pass_safe_tokens in H.
  rewrite <- matches_passport_tokens in H.
  now rewrite mask_passport_complete in H.
Qed.

(** ** Equations of the substitution *)

Section SubEquations.
Variable r : regex.
Variable repl : mstate -> text.
Hypothesis consumes : 0 < min_len r.

Lemma sub_from_nil prev : sub_from r repl prev [] = [].
Proof.
  unfold sub_from. cbn [scan_from].
  destruct (match_at r prev []) as [m|] eqn:E; [| reflexivity].
  apply match_at_consumes in E; [simpl in E; lia | exact consumes].
Qed.

Lemma sub_from_lit prev c rest :
  match_at r prev (c :: rest) = None ->
  sub_from r repl prev (c :: rest) = c :: sub_from r repl (c :: prev) rest.
Proof. intros E. unfold sub_from. cbn [scan_from]. now rewrite E. Qed.

Lemma sub_from_hit prev x rest m :
  match_at r prev (x ++ rest) = Some m -> after m = rest ->
  sub_from r repl prev (x ++ rest) = repl m ++ sub_from r repl (rev x ++ prev) rest.
Proof.
  intros E Ha.
  pose proof (match_at_consumes _ _ _ _ consumes E) as Hlt.
  rewrite Ha, length_app in Hlt.
  destruct x as [|c x]; [simpl in Hlt; lia |].
  unfold sub_from. cbn [app scan_from]. cbn [app] in E. rewrite E, Ha.
  replace (length (c :: x ++ rest) - length rest) with (S (length x))
    by (simpl; rewrite length_app; lia).
  cbn [flat_map emit]. rewrite scan_skip. cbn [rev]. now rewrite <- app_assoc.
Qed.

(** A subject that is one match from end to end. *)
Lemma sub_whole s m :
  match_at r [] s = Some m -> after m = [] -> sub r repl s = repl m.
Proof.
  intros E Ha. rewrite sub_sub_from.
  rewrite <- (app_nil_r s) in E |- *.
  rewrite (sub_from_hit _ _ _ _ E Ha), sub_from_nil. apply app_nil_r.
Qed.

(** Replacing every match by the text it matched changes nothing, on the
    subjects of a class [ok] closed under suffixes. *)
Lemma sub_from_fixed (ok : text -> Prop) :
  (forall c s, ok (c :: s) -> ok s) ->
  (forall x s, ok (x ++ s) -> ok s) ->
  (forall prev x rest m,
     ok (x ++ rest) -> match_at r prev (x ++ rest) = Some m -> after m = rest ->
     repl m = x) ->
  forall prev rest, ok rest -> sub_from r repl prev rest = rest.
Proof.
  intros Hc Happ Hfix.
  apply (sub_from_ind r repl (fun prev rest out => ok rest -> out = rest)).
  - exact consumes.
  - reflexivity.
  - intros prev c rest out _ IH Hok. f_equal. apply IH. eapply Hc, Hok.
  - intros prev x rest m out _ E Ha _ IH Hok.
    rewrite (Hfix _ _ _ _ Hok E Ha). f_equal. apply IH. eapply Happ, Hok.
Qed.
End SubEquations.

(** ** Where a search succeeds *)

Lemma search_from_split r rest : forall prev m,
  search_from r prev rest = Some m ->
  exists a b, rest = a ++ b /\ match_at r (rev a ++ prev) b = Some m.
Proof.
  induction rest as [|c rest IH]; intros prev m H; cbn [search_from] in H.
  - destruct (match_at r prev []) eqn:E; [| discriminate].
    exists [], []. split; [reflexivity |]. simpl. congruence.
  - destruct (match_at r prev (c :: rest)) eqn:E.
    + exists [], (c :: rest). split; [reflexivity |]. simpl. congruence.
    + destruct (IH _ _ H) as (a & b & -> & Hm).
      exists (c :: a), b. split; [reflexivity |].
      simpl. now rewrite <- app_assoc.
Qed.

Lemma matches_split r s :
  matches r s = true ->
  exists a b m, s = a ++ b /\ match_at r (rev a) b = Some m.
Proof.
  unfold matches, search. destruct (search_from r [] s) as [m|] eqn:E; [| discriminate].
  intros _. destruct (search_from_split _ _ _ _ E) as (a & b & Hs & Hm).
  rewrite app_nil_r in Hm. eauto.
Qed.

(** A payment handle needs its [@]. *)
Lemma upi_needs_at s : matches RE_UPI s = true -> In "@"%char s.
Proof.
  intros H. destruct (matches_split _ _ H) as (a & b & m & -> & Hm).
  destruct (upi_shape _ _ _ Hm) as (user & prov & -> & _).
  rewrite !in_app_iff. right. left. right. now left.
Qed.

Lemma long_run_found n tail : forall cur,
  n <= length cur -> 0 < n -> has_good is_digit (at_least n) cur tail = true.
Proof.
  assert (forall cur, n <= length cur -> 0 < n ->
                      existsb (at_least n) (flush cur) = true) as Hf.
  { intros cur Hc Hn. destruct cur; simpl in *; [lia |].
    unfold at_least. simpl. rewrite orb_false_r. apply Nat.leb_le. lia. }
  induction tail as [|c tail IH]; intros cur Hc Hn; unfold has_good.
  - rewrite runs_nil. now apply Hf.
  - destruct (is_digit c) eqn:E.
    + rewrite runs_cons_p by exact E. apply IH; [rewrite length_app; lia | exact Hn].
    + rewrite runs_cons_np by exact E. rewrite existsb_app, Hf by assumption. reflexivity.
Qed.

(** A 4-4-4 grouping needs a run of at least four digits. *)
Lemma grouped_needs_run s :
  matches RE_GROUPED s = true -> has_good is_digit (at_least 4) [] s = true.
Proof.
  intros H. destruct (matches_split _ _ H) as (a & b & m & -> & Hm).
  destruct (grouped_shape _ _ _ Hm)
    as (g1 & w1 & g2 & w2 & g3 & -> & L1 & _ & _ & D1 & _ & _ & _ & _ & Hnb & _).
  unfold has_good. rewrite runs_app, existsb_app. apply orb_true_iff. right.
  assert (pending is_digit [] a = []) as ->.
  { destruct a as [|c a]; [reflexivity |]. now apply pending_last_np. }
  rewrite <- !app_assoc. rewrite runs_all_p by exact D1.
  apply long_run_found; [| lia].
  unfold has_length in L1. apply Nat.eqb_eq in L1. simpl. lia.
Qed.

(** ** The masks on bare numbers and on their own output *)

Lemma prefix_len_all p s : forallb p s = true -> prefix_len p s = length s.
Proof.
  induction s as [|c s IH]; simpl; [reflexivity |].
  intros H. apply andb_prop in H. destruct H as [-> H]. now rewrite IH.
Qed.

Lemma digit_not_passport_letter c : is_digit c = true -> passport_letter c = false.
Proof. by_char c. Qed.

Lemma digit_not_at c : is_digit c = true -> c <> "@"%char.
Proof. by_char c. Qed.

Ltac split_digits H :=
  simpl in H; repeat (apply andb_prop in H; let H' := fresh "Hd" in destruct H as [H' H]);
  clear H.

Ltac use_digits :=
  repeat match goal with
         | H : is_digit ?c = true |- _ =>
             rewrite ?H, ?(digit_word _ H), ?(digit_not_passport_letter _ H);
             generalize dependent H
         end; intros.

Lemma no_at_no_handle s : ~ In "@"%char s -> mask_upi_in s = s.
Proof.
  intros H. apply sub_no_match.
  destruct (matches RE_UPI s) eqn:E; [| reflexivity].
  exfalso. now apply H, upi_needs_at.
Qed.

Lemma no_run_no_grouping s :
  has_good is_digit (at_least 4) [] s = false ->
  has_good is_digit (has_length 12) [] s = false ->
  mask_aadhar_digits s = s.
Proof.
  intros H4 H12. rewrite mask_aadhar_unfold.
  assert (sub RE_GROUPED grouped_repl s = s) as ->.
  { apply sub_no_match. destruct (matches RE_GROUPED s) eqn:E; [| reflexivity].
    apply grouped_needs_run in E. congruence. }
  apply sub_no_match. change RE_AADHAR with (isolated_run 12).
  now rewrite matches_isolated_run by lia.
Qed.

Lemma no_token_no_passport s :
  has_good is_word pp_token [] s = false -> mask_passport_in s = s.
Proof. intros H. apply sub_no_match. now rewrite matches_passport_tokens. Qed.

Lemma no_run_no_phone s :
  has_good is_digit (has_length 10) [] s = false -> mask_phone_digits s = s.
Proof.
  intros H. apply sub_no_match. change RE_TEN_DIGITS with (isolated_run 10).
  now rewrite matches_isolated_run by lia.
Qed.

Lemma mask_phone_ten_digits ds :
  has_length 10 ds = true -> forallb is_digit ds = true ->
  mask_phone_digits ds = take 2 ds ++ xs 6 ++ lastn 2 ds.
Proof.
  intros Hl Hd. pose proof Hl as Hl'. apply Nat.eqb_eq in Hl'.
  assert (match_at (isolated_run 10) [] ds
          = Some (MState (rev (take 10 ds) ++ []) (drop 10 ds) [(1, take 10 ds)])) as E.
  { rewrite match_at_isolated_run. simpl p_head.
    rewrite prefix_len_all, Hl' by exact Hd. reflexivity. }
  change (mask_phone_digits ds) with (sub (isolated_run 10) phone_repl ds).
  rewrite (sub_whole _ _ (isolated_run_consumes 10 ltac:(lia)) _ _ E).
  - unfold phone_repl, group. simpl get_cap.
    rewrite (take_ge ds 10) by lia. reflexivity.
  - simpl. apply drop_ge. lia.
Qed.

(** The always-on masks on a number of ten digits. *)
Lemma a_masks_ten_digits ds :
  has_length 10 ds = true -> forallb is_digit ds = true ->
  a_masks ds = take 2 ds ++ xs 6 ++ lastn 2 ds.
Proof.
  intros Hl Hd. unfold a_masks. rewrite (mask_phone_ten_digits _ Hl Hd).
  fixed_length ds Hl. split_digits Hd.
  cbn -[mask_aadhar_digits mask_passport_in mask_upi_in].
  rewrite no_run_no_grouping, no_token_no_passport, no_at_no_handle; try reflexivity.
  - simpl. intros H.
    repeat (destruct H as [H | H];
            [first [discriminate H | subst; discriminate] |]).
    exact H.
  - unfold has_good, runs. cbn -[is_word pp_token]. use_digits.
    change (is_word "X") with true. cbn -[passport_letter is_digit]. use_digits. reflexivity.
  - unfold has_good, runs. cbn -[is_digit]. use_digits.
    change (is_digit "X") with false. cbn -[is_digit]. use_digits. reflexivity.
  - unfold has_good, runs. cbn -[is_digit]. use_digits.
    change (is_digit "X") with false. cbn -[is_digit]. use_digits. reflexivity.
Qed.

Lemma digit_not_space c : is_digit c = true -> is_space c = false.
Proof. by_char c. Qed.

Lemma digits_no_spaces w :
  forallb is_space w = true -> forallb is_digit w = true -> w = [].
Proof.
  destruct w as [|c w]; [reflexivity |]. simpl. intros Hs Hd.
  apply andb_prop in Hs, Hd. destruct Hs as [Hs _], Hd as [Hd _].
  apply digit_not_space in Hd. congruence.
Qed.

(** Joining groups leaves a text of digits as it is. *)
Lemma grouped_on_digits s :
  forallb is_digit s = true -> sub RE_GROUPED grouped_repl s = s.
Proof.
  rewrite sub_sub_from.
  apply (sub_from_fixed RE_GROUPED grouped_repl ltac:(simpl; lia)
           (fun s => forallb is_digit s = true)).
  - intros c s' H. simpl in H. now apply andb_prop in H.
  - intros x s' H. rewrite forallb_app in H. now apply andb_prop in H.
  - intros prev x rest m Hok E Ha.
    destruct (grouped_shape _ _ _ E)
      as (g1 & w1 & g2 & w2 & g3 & Hsplit & _ & _ & _ & _ & _ & _ & S1 & S2 & _ & _
          & G1 & G2 & G3).
    rewrite Ha in Hsplit. apply app_inv_tail in Hsplit. subst x.
    rewrite !forallb_app, !andb_true_iff in Hok.
    destruct Hok as ((_ & Dw1 & _ & Dw2 & _) & _).
    unfold grouped_repl. rewrite G1, G2, G3.
    rewrite (digits_no_spaces w1), (digits_no_spaces w2) by assumption.
    reflexivity.
Qed.

Lemma mask_aadhar_twelve_digits ds :
  has_length 12 ds = true -> forallb is_digit ds = true ->
  mask_aadhar_digits ds = txt "XXXX XXXX " ++ lastn 4 ds.
Proof.
  intros Hl Hd. pose proof Hl as Hl'. apply Nat.eqb_eq in Hl'.
  rewrite mask_aadhar_unfold, grouped_on_digits by exact Hd.
  assert (match_at (isolated_run 12) [] ds
          = Some (MState (rev (take 12 ds) ++ []) (drop 12 ds) [(1, take 12 ds)])) as E.
  { rewrite match_at_isolated_run. simpl p_head.
    rewrite prefix_len_all, Hl' by exact Hd. reflexivity. }
  change RE_AADHAR with (isolated_run 12).
  rewrite (sub_whole _ _ (isolated_run_consumes 12 ltac:(lia)) _ _ E).
  - unfold aadhar_repl, group. simpl get_cap.
    rewrite (take_ge ds 12) by lia. reflexivity.
  - simpl. apply drop_ge. lia.
Qed.

(** The always-on masks on a number of twelve digits. *)
Lemma a_masks_twelve_digits ds :
  has_length 12 ds = true -> forallb is_digit ds = true ->
  a_masks ds = txt "XXXX XXXX " ++ lastn 4 ds.
Proof.
  intros Hl Hd. unfold a_masks.
  rewrite no_run_no_phone.
  2:{ unfold has_good. rewrite runs_all_digits; [| intros ->; discriminate | exact Hd].
      simpl. unfold has_length in *. apply Nat.eqb_eq in Hl. rewrite Hl. reflexivity. }
  rewrite (mask_aadhar_twelve_digits _ Hl Hd).
  fixed_length ds Hl. split_digits Hd.
  cbn -[mask_passport_in mask_upi_in].
  rewrite no_token_no_passport, no_at_no_handle; try reflexivity.
  - simpl. intros H.
    repeat (destruct H as [H | H];
            [first [discriminate H | subst; discriminate] |]).
    exact H.
  - unfold has_good, runs. cbn -[is_word pp_token]. use_digits.
    change (is_word "X") with true. change (is_word " ") with false.
    cbn -[passport_letter is_digit]. use_digits.
    change (passport_letter "X") with false. reflexivity.
Qed.

(** A 4-4-4 grouping needs twelve digits. *)
Lemma grouped_needs_twelve s :
  matches RE_GROUPED s = true -> 12 <= length (List.filter is_digit s).
Proof.
  intros H. destruct (matches_split _ _ H) as (a & b & m & -> & Hm).
  destruct (grouped_shape _ _ _ Hm)
    as (g1 & w1 & g2 & w2 & g3 & -> & L1 & L2 & L3 & D1 & D2 & D3 & _).
  assert (forall g, forallb is_digit g = true -> List.filter is_digit g = g) as Hf.
  { induction g as [|c g IH]; simpl; [reflexivity |].
    intros Hg. apply andb_prop in Hg. destruct Hg as [-> Hg]. now rewrite IH. }
  unfold has_length in *. apply Nat.eqb_eq in L1, L2, L3.
  rewrite !List.filter_app, !length_app.
  rewrite (Hf g1), (Hf g2), (Hf g3) by assumption. lia.
Qed.

(** The masks' own output: a masked phone number, a masked national ID, a
    masked passport code and the opaque marker are left as they are. *)
Lemma phone_token_stable a b c d :
  forallb is_digit [a; b; c; d] = true ->
  a_masks ([a; b] ++ xs 6 ++ [c; d]) = [a; b] ++ xs 6 ++ [c; d].
Proof.
  intros Hd. split_digits Hd. unfold a_masks.
  cbn -[mask_phone_digits mask_aadhar_digits mask_passport_in mask_upi_in].
  rewrite no_run_no_phone, no_run_no_grouping, no_token_no_passport, no_at_no_handle;
    try reflexivity.
  - simpl. intros H.
    repeat (destruct H as [H | H];
            [first [discriminate H | subst; discriminate] |]).
    exact H.
  - unfold has_good, runs. cbn -[is_word pp_token]. use_digits.
    change (is_word "X") with true. cbn -[passport_letter is_digit]. use_digits. reflexivity.
  - unfold has_good, runs. cbn -[is_digit]. use_digits.
    change (is_digit "X") with false. cbn -[is_digit]. use_digits. reflexivity.
  - unfold has_good, runs. cbn -[is_digit]. use_digits.
    change (is_digit "X") with false. cbn -[is_digit]. use_digits. reflexivity.
  - unfold has_good, runs. cbn -[is_digit]. use_digits.
    change (is_digit "X") with false. cbn -[is_digit]. use_digits. reflexivity.
Qed.

Lemma aadhar_token_stable a b c d :
  forallb is_digit [a; b; c; d] = true ->
  a_masks (txt "XXXX XXXX " ++ [a; b; c; d]) = txt "XXXX XXXX " ++ [a; b; c; d].
Proof.
  intros Hd. split_digits Hd. unfold a_masks.
  cbn -[mask_phone_digits mask_aadhar_digits mask_passport_in mask_upi_in].
  rewrite no_run_no_phone.
  2:{ unfold has_good, runs. cbn -[is_digit]. use_digits.
      change (is_digit "X") with false. change (is_digit " ") with false.
      cbn -[is_digit]. use_digits. reflexivity. }
  rewrite mask_aadhar_unfold.
  rewrite (sub_no_match RE_GROUPED).
  2:{ destruct (matches RE_GROUPED _) eqn:E; [| reflexivity]. exfalso.
      apply grouped_needs_twelve in E.
      match type of E with
      | context [List.filter is_digit ?l] =>
          change l with (txt "XXXX XXXX " ++ [a; b; c; d]) in E
      end.
      rewrite List.filter_app, length_app in E.
      pose proof (List.filter_length_le is_digit [a; b; c; d]) as Hle.
      change (length (List.filter is_digit (txt "XXXX XXXX "))) with 0 in E.
      simpl length in Hle at 2. lia. }
  rewrite (sub_no_match RE_AADHAR).
  2:{ change RE_AADHAR with (isolated_run 12). rewrite matches_isolated_run by lia.
      unfold has_good, runs. cbn -[is_digit]. use_digits.
      change (is_digit "X") with false. change (is_digit " ") with false.
      cbn -[is_digit]. use_digits. reflexivity. }
  rewrite no_token_no_passport, no_at_no_handle; try reflexivity.
  - simpl. intros H.
    repeat (destruct H as [H | H];
            [first [discriminate H | subst; discriminate] |]).
    exact H.
  - unfold has_good, runs. cbn -[is_word pp_token]. use_digits.
    change (is_word "X") with true. change (is_word " ") with false.
    cbn -[passport_letter is_digit]. use_digits.
    change (passport_letter "X") with false. reflexivity.
Qed.

Lemma letter_not_at c : passport_letter c = true -> c <> "@"%char.
Proof. by_char c. Qed.

Lemma mask_passport_code c ds :
  passport_letter c = true -> has_length 7 ds = true -> forallb is_digit ds = true ->
  mask_passport_in (c :: ds) = c :: xs 6 ++ lastn 1 ds.
Proof.
  intros Hc Hl Hd.
  assert (prefix is_word (c :: ds) = c :: ds) as Hp.
  { rewrite prefix_take, prefix_len_all, take_ge; [reflexivity | lia |].
    simpl. rewrite (passport_letter_word _ Hc).
    now apply (forallb_impl is_digit is_word ds digit_word). }
  assert (pp_token (c :: ds) = true) as Hpp.
  { simpl. rewrite Hc, Hd. unfold has_length in Hl. now rewrite Hl. }
  assert (match_at RE_PASSPORT [] (c :: ds)
          = Some (MState (rev (take 8 (c :: ds)) ++ []) (drop 8 (c :: ds))
                         [(1, take 8 (c :: ds))])) as E.
  { rewrite match_at_passport, Hp, Hpp. reflexivity. }
  change (mask_passport_in (c :: ds)) with (sub RE_PASSPORT passport_repl (c :: ds)).
  fixed_length ds Hl.
  rewrite (sub_whole RE_PASSPORT passport_repl ltac:(simpl; lia) _ _ E); reflexivity.
Qed.

Lemma passport_token_stable c d :
  passport_letter c = true -> is_digit d = true ->
  a_masks (c :: xs 6 ++ [d]) = c :: xs 6 ++ [d].
Proof.
  intros Hc Hd. unfold a_masks.
  pose proof (passport_letter_not_digit _ Hc) as Hcd.
  pose proof (passport_letter_word _ Hc) as Hcw.
  cbn -[mask_phone_digits mask_aadhar_digits mask_passport_in mask_upi_in].
  rewrite no_run_no_phone, no_run_no_grouping, no_token_no_passport, no_at_no_handle;
    try reflexivity.
  - simpl. intros H. pose proof (letter_not_at _ Hc). pose proof (digit_not_at _ Hd).
    repeat (destruct H as [H | H]; [first [discriminate H | congruence] |]).
    exact H.
  - unfold has_good, runs. cbn -[is_word pp_token]. rewrite Hcw, (digit_word _ Hd).
    change (is_word "X") with true. cbn -[passport_letter is_digit].
    change (is_digit "X") with false. rewrite Hc. reflexivity.
  - unfold has_good, runs. cbn -[is_digit]. rewrite Hcd, Hd.
    change (is_digit "X") with false. cbn -[is_digit]. reflexivity.
  - unfold has_good, runs. cbn -[is_digit]. rewrite Hcd, Hd.
    change (is_digit "X") with false. cbn -[is_digit]. reflexivity.
  - unfold has_good, runs. cbn -[is_digit]. rewrite Hcd, Hd.
    change (is_digit "X") with false. cbn -[is_digit]. reflexivity.
Qed.

Lemma marker_stable : a_masks (txt "[REDACTED_PII]") = txt "[REDACTED_PII]".
Proof. vm_compute. reflexivity. Qed.

Lemma exempt_not_role k : k ∈ NUMERIC_ID_KEYS -> k ∉ B_ROLE_KEYS.
Proof.
  unfold NUMERIC_ID_KEYS, B_ROLE_KEYS, B_NAME_KEYS, B_FIRST, B_LAST, B_EMAIL_KEYS,
    B_ADDRESS_KEYS, B_ADDR_PARTS, B_DEVICE_KEYS, B_IP_KEYS.
  rewrite !elem_of_union, !elem_of_singleton.
  intros H. repeat (destruct H as [H | H]); subst; intuition discriminate.
Qed.

(** ** The patterns in terms of runs and tokens *)

Lemma pp_token_code t : pp_token t = true <-> passport_code t.
Proof.
  unfold passport_code. split.
  - destruct t as [|c ds]; [discriminate |]. simpl. intros H.
    apply andb_prop in H. destruct H as [H Hd]. apply andb_prop in H.
    destruct H as [Hc Hl]. apply Nat.eqb_eq in Hl. eauto 6.
  - intros (c & ds & -> & Hc & Hl & Hd). simpl. now rewrite Hc, Hl, Hd.
Qed.

Lemma matches_passport_code s :
  matches RE_PASSPORT s = true <-> exists t, In t (tokens s) /\ passport_code t.
Proof.
  rewrite matches_passport_tokens. unfold has_good, tokens.
  rewrite existsb_exists. split.
  - intros (t & Hin & Ht). exists t. split; [exact Hin |]. now apply pp_token_code.
  - intros (t & Hin & Ht). exists t. split; [exact Hin |]. now apply pp_token_code.
Qed.

Lemma matches_digit_run n s :
  0 < n ->
  matches (isolated_run n) s = true <-> exists t, In t (digit_runs s) /\ length t = n.
Proof.
  intros Hn. rewrite matches_isolated_run by exact Hn. unfold has_good, digit_runs.
  rewrite existsb_exists. unfold has_length. split.
  - intros (t & Hin & Ht). exists t. split; [exact Hin |]. now apply Nat.eqb_eq.
  - intros (t & Hin & Ht). exists t. split; [exact Hin |]. now apply Nat.eqb_eq.
Qed.

Lemma matches_handle s : matches RE_UPI s = true -> holds_handle s.
Proof.
  intros H. destruct (matches_split _ _ H) as (a & b & m & -> & Hm).
  destruct (upi_shape _ _ _ Hm) as (user & prov & -> & Lu & Du & Np & _).
  exists a, user, prov, (after m). repeat split; assumption.
Qed.

(** ** The email address *)

Lemma email_shape prev rest m :
  match_at RE_EMAIL prev rest = Some m ->
  exists loc dom,
    rest = (loc ++ "@"%char :: dom) ++ after m
    /\ 1 <= length loc /\ dom <> []
    /\ xorb (p_head is_word prev) (p_head is_word loc) = true
    /\ xorb (p_head is_word (rev dom)) (p_head is_word (after m)) = true
    /\ group m 1 = loc /\ group m 2 = dom.
Proof.
  intros H. apply match_at_in in H. unfold RE_EMAIL in H.
  apply in_exec_cat in H. destruct H as (m0 & H0 & H).
  apply in_exec_bound in H0. destruct H0 as [-> Hb0].
  apply in_exec_cat in H. destruct H as (m1 & H1 & H).
  apply in_exec_group in H1. destruct H1 as (m1' & loc & H1 & S1 & S1' & C1).
  apply in_exec_repeat_chars in H1. destruct H1 as (loc' & Su & Lu & _ & Cu).
  pose proof (steps_inj _ _ _ _ S1' Su) as <-. clear Su.
  apply in_exec_cat in H. destruct H as (m2 & H2 & H).
  apply in_exec_chars in H2. destruct H2 as (c & S2 & Hc & C2).
  apply mem_at in Hc. subst c.
  apply in_exec_cat in H. destruct H as (m3 & H3 & H).
  apply in_exec_group in H3. destruct H3 as (m3' & dom & H3 & S3 & S3' & C3).
  apply in_exec_cat in H3. destruct H3 as (m4 & H4 & H3).
  apply in_exec_repeat_chars in H4. destruct H4 as (g1 & S4 & L4 & _ & C4).
  apply in_exec_cat in H3. destruct H3 as (m5 & H5 & H3).
  apply in_exec_chars in H5. destruct H5 as (c & S5 & _ & C5).
  apply in_exec_repeat_chars in H3. destruct H3 as (g3 & S6 & L6 & _ & C6).
  pose proof (steps_inj _ _ _ _ S3'
                (steps_trans _ _ _ _ _ S4 (steps_trans _ _ _ _ _ S5 S6))) as ->.
  apply in_exec_bound in H. destruct H as [-> Hb1].
  pose proof (steps_trans _ _ _ _ _ S1 (steps_trans _ _ _ _ _ S2 S3)) as [Ha Hbf].
  simpl in Ha, Hbf, Hb0.
  assert (g1 ++ [c] ++ g3 <> []) as Np.
  { intros H'. apply app_eq_nil in H' as [_ H']. discriminate H'. }
  exists loc, (g1 ++ [c] ++ g3).
  split; [exact Ha |].
  split; [exact Lu |]. split; [exact Np |].
  split.
  { rewrite <- Hb0, Ha. f_equal. symmetry. rewrite <- app_assoc. apply p_head_app.
    intros ->. simpl in Lu. lia. }
  split.
  { rewrite <- Hb1, Hbf. f_equal.
    change (loc ++ "@"%char :: g1 ++ c :: g3)
      with (loc ++ ["@"%char] ++ (g1 ++ [c] ++ g3)).
    rewrite (app_assoc loc). symmetry. now apply p_head_rev_tail. }
  unfold group. rewrite C3, C6, C5, C4, C2, C1, Cu. simpl. split; reflexivity.
Qed.

(** The email mask creates no run of [n] digits, [n] above 2, and no
    passport-like token. *)
Lemma email_pass_safe_digits n s :
  2 < n ->
  has_good is_digit (has_length n) [] (mask_email_str s) = true ->
  has_good is_digit (has_length n) [] s = true.
Proof.
  intros Hn. change (mask_email_str s) with (sub RE_EMAIL email_repl s).
  apply sub_safe; [simpl; lia |].
  intros prev x rest m Hx E Ha.
  destruct (email_shape _ _ _ E) as (loc & dom & Hsplit & Lu & Np & Hb0 & Hb1 & G1 & G2).
  rewrite Ha in Hsplit, Hb1. apply app_inv_tail in Hsplit. subst x.
  unfold email_repl. rewrite G1, G2.
  now apply handle_safe_digits.
Qed.

Lemma email_pass_safe_tokens s :
  has_good is_word pp_token [] (mask_email_str s) = true ->
  has_good is_word pp_token [] s = true.
Proof.
  change (mask_email_str s) with (sub RE_EMAIL email_repl s).
  apply sub_safe; [simpl; lia |].
  intros prev x rest m Hx E Ha.
  destruct (email_shape _ _ _ E) as (loc & dom & Hsplit & Lu & Np & Hb0 & Hb1 & G1 & G2).
  rewrite Ha in Hsplit, Hb1. apply app_inv_tail in Hsplit. subst x.
  unfold email_repl. rewrite G1, G2.
  now apply handle_safe_tokens.
Qed.

(** ** The IPv4 address *)

Lemma in_rounds step lo hi fuel : forall n st m,
  In m (rounds step lo hi fuel n st) ->
  exists k, chain step k st m /\ lo <= n + k
            /\ match hi with Some h => n + k <= Nat.max n h | None => True end.
Proof.
  assert (Hstop : forall n st m, In m (if lo <=? n then [st] else []) ->
            exists k, chain step k st m /\ lo <= n + k
              /\ match hi with Some h => n + k <= Nat.max n h | None => True end).
  { intros n st m H. destruct (Nat.leb_spec lo n) as [Hle | Hle]; [| destruct H].
    in_single H. exists 0. split; [reflexivity |]. split; [lia |].
    destruct hi; [lia | exact I]. }
  induction fuel as [|fuel IH]; intros n st m H; cbn [rounds] in H.
  - now apply Hstop.
  - destruct (below n hi) eqn:Hb; [| now apply Hstop].
    apply in_app_or in H. destruct H as [H | H]; [| now apply Hstop].
    apply in_flat_map in H. destruct H as (st' & Hs & H).
    destruct (length (after st') <? length (after st)); [| destruct H].
    destruct (IH _ _ _ H) as (k & Hc & Hlo & Hhi).
    exists (S k). split; [exists st'; split; assumption |]. split; [lia |].
    destruct hi as [h|]; [| exact I]. simpl in Hb. apply Nat.ltb_lt in Hb. lia.
Qed.

Lemma in_exec_exactly n r st m :
  In m (exec (exactly n r) st) -> chain (exec r) n st m.
Proof.
  unfold exactly. cbn [exec]. intros H. apply in_rounds in H.
  destruct H as (k & Hc & Hlo & Hhi). simpl in Hlo, Hhi.
  replace n with k by lia. exact Hc.
Qed.

Lemma digit_not_dot c : is_digit c = true -> (code c =? code ".")%N = false.
Proof. by_char c. Qed.

Lemma mem_dot c : cset_mem [One "."]%char c = true -> c = "."%char.
Proof. by_char c. Qed.

(** One octet and its dot. *)
Lemma in_exec_octet_dot st m :
  In m (exec (Repeat 1 (Some 3) digit +> Chars [One "."%char]) st) ->
  exists d, steps st m (d ++ ["."%char]) /\ 1 <= length d
            /\ forallb is_digit d = true /\ caps m = caps st.
Proof.
  intros H. apply in_exec_cat in H. destruct H as (m1 & H1 & H2).
  apply in_exec_repeat_chars in H1. destruct H1 as (d & S1 & L1 & D1 & C1).
  apply in_exec_chars in H2. destruct H2 as (c & S2 & Hc & C2).
  apply mem_dot in Hc. subst c.
  rewrite (forallb_eq _ is_digit) in D1 by apply mem_digits.
  exists d. split; [eapply steps_trans; eassumption |].
  split; [exact L1 |]. split; [exact D1 |]. now rewrite C2.
Qed.

Lemma split_on_digits d : forallb is_digit d = true -> split_on "." d = [d].
Proof.
  induction d as [|c d IH]; cbn [split_on forallb]; [reflexivity |].
  intros H. apply andb_true_iff in H as [Hc Hd].
  rewrite (digit_not_dot _ Hc), (IH Hd). reflexivity.
Qed.

Lemma split_on_octet d s :
  forallb is_digit d = true -> split_on "." (d ++ "."%char :: s) = d :: split_on "." s.
Proof.
  induction d as [|c d IH]; cbn [split_on forallb app]; [reflexivity |].
  intros H. apply andb_true_iff in H as [Hc Hd].
  rewrite (digit_not_dot _ Hc), (IH Hd). reflexivity.
Qed.

(** What the IPv4 pattern matches: four runs of digits and three dots,
    between two positions that are not next to a word character. *)
Lemma ipv4_shape prev rest m :
  match_at RE_IPV4 prev rest = Some m ->
  exists d1 d2 d3 d4,
    rest = ((d1 ++ ["."%char] ++ d2 ++ ["."%char] ++ d3 ++ ["."%char]) ++ d4) ++ after m
    /\ (forall d, In d [d1; d2; d3; d4] -> 1 <= length d /\ forallb is_digit d = true)
    /\ p_head is_word prev = false
    /\ p_head is_word (after m) = false
    /\ group m 1 = (d1 ++ ["."%char] ++ d2 ++ ["."%char] ++ d3 ++ ["."%char]) ++ d4.
Proof.
  intros H. apply match_at_in in H. unfold RE_IPV4 in H.
  apply in_exec_cat in H. destruct H as (m0 & H0 & H).
  apply in_exec_bound in H0. destruct H0 as [-> Hb0].
  apply in_exec_cat in H. destruct H as (m1 & H1 & H).
  apply in_exec_group in H1. destruct H1 as (m1' & g & H1 & S1 & S1' & C1).
  apply in_exec_cat in H1. destruct H1 as (m2 & H2 & H1).
  apply in_exec_exactly in H2.
  destruct H2 as (a1 & Ha1 & a2 & Ha2 & a3 & Ha3 & E3). simpl in E3. subst a3.
  apply in_exec_octet_dot in Ha1. destruct Ha1 as (d1 & T1 & L1 & D1 & K1).
  apply in_exec_octet_dot in Ha2. destruct Ha2 as (d2 & T2 & L2 & D2 & K2).
  apply in_exec_octet_dot in Ha3. destruct Ha3 as (d3 & T3 & L3 & D3 & K3).
  apply in_exec_repeat_chars in H1. destruct H1 as (d4 & T4 & L4 & D4 & K4).
  rewrite (forallb_eq _ is_digit) in D4 by apply mem_digits.
  pose proof (steps_trans _ _ _ _ _
                (steps_trans _ _ _ _ _ T1 (steps_trans _ _ _ _ _ T2 T3)) T4) as T.
  pose proof (steps_inj _ _ _ _ S1' T) as ->.
  apply in_exec_bound in H. destruct H as [-> Hb1].
  destruct S1 as [Ha Hbf]. simpl in Ha, Hbf, Hb0.
  assert (Hw1 : p_head is_word rest = true).
  { rewrite Ha. destruct d1 as [|c d1]; [simpl in L1; lia |].
    simpl in D1. apply andb_true_iff in D1 as [Dc _]. simpl. now apply digit_word. }
  assert (Hw4 : p_head is_word (before m1) = true).
  { rewrite Hbf, rev_app_distr, <- app_assoc.
    destruct (rev d4) as [|c l] eqn:E.
    - apply (f_equal (@length ascii)) in E. rewrite length_rev in E. simpl in E. lia.
    - assert (In c d4) as Hin by (apply in_rev; rewrite E; now left).
      simpl. apply digit_word. rewrite forallb_forall in D4. now apply D4. }
  exists d1, d2, d3, d4.
  split; [rewrite Ha; rewrite <- !app_assoc; reflexivity |].
  split.
  { intros d [<- | [<- | [<- | [<- | []]]]]; split; assumption. }
  split; [rewrite Hw1, xorb_true_r in Hb0; now apply negb_true_iff in Hb0 |].
  split; [rewrite Hw4, xorb_true_l in Hb1; now apply negb_true_iff in Hb1 |].
  unfold group. rewrite C1, K4, K3, K2, K1.
  unfold get_cap, set_cap. cbn [find fst snd Nat.eqb caps List.filter].
  rewrite <- !app_assoc. reflexivity.
Qed.

(** The masked address keeps the first three runs and the dots. *)
Lemma ip_repl_shape m d1 d2 d3 d4 :
  (forall d, In d [d1; d2; d3; d4] -> 1 <= length d /\ forallb is_digit d = true) ->
  group m 1 = (d1 ++ ["."%char] ++ d2 ++ ["."%char] ++ d3 ++ ["."%char]) ++ d4 ->
  ip_repl m = (d1 ++ ["."%char] ++ d2 ++ ["."%char] ++ d3 ++ ["."%char]) ++ ["X"%char].
Proof.
  intros Hd G. unfold ip_repl. rewrite G.
  assert (forallb is_digit d1 = true) as D1 by (apply Hd; simpl; auto).
  assert (forallb is_digit d2 = true) as D2 by (apply Hd; simpl; auto).
  assert (forallb is_digit d3 = true) as D3 by (apply Hd; simpl; auto).
  assert (forallb is_digit d4 = true) as D4 by (apply Hd; simpl; auto).
  rewrite <- !app_assoc. cbn [app].
  rewrite !split_on_octet by assumption. rewrite split_on_digits by assumption.
  cbn [length Nat.eqb set_last join txt]. simpl. reflexivity.
Qed.

(** Replacing what follows a character outside [p] by a text without good
    run creates no good run. *)
Lemma safe_repl_tail p good prev pre d rest t :
  pre <> [] -> p_head p (rev pre) = false ->
  p_head p (rev d) = true -> t <> [] ->
  existsb good (runs p [] t) = false ->
  (p_head p pre = true -> p_head p prev = false) ->
  p_head p rest = false ->
  safe_repl p good prev (pre ++ d) rest (pre ++ t).
Proof.
  intros Hpre Hlast Hd Ht Hgood Hleft Hright.
  assert (Hdn : d <> []) by (intros ->; discriminate Hd).
  assert (Hx : p_head p (rev (pre ++ d)) = true).
  { rewrite <- (app_nil_r (rev (pre ++ d))). now rewrite p_head_rev_tail. }
  constructor.
  - intros H. now apply app_eq_nil in H as [_ H].
  - now rewrite !p_head_app.
  - now rewrite p_head_app.
  - intros _. exact Hright.
  - rewrite Hx. discriminate.
  - rewrite !runs_app, (pending_last_np p pre []) by assumption.
    rewrite !existsb_app, Hgood, orb_false_r. intros ->. reflexivity.
Qed.

Lemma ipv4_safe p good prev rest m x :
  (forall c, is_digit c = true -> p c = true) ->
  (forall c, p c = true -> is_word c = true) ->
  p "."%char = false ->
  existsb good (runs p [] ["X"%char]) = false ->
  match_at RE_IPV4 prev (x ++ rest) = Some m -> after m = rest ->
  safe_repl p good prev x rest (ip_repl m).
Proof.
  intros Hdp Hpw Hdot Hgood E Ha.
  destruct (ipv4_shape _ _ _ E) as (d1 & d2 & d3 & d4 & Hsplit & Hd & Hb0 & Hb1 & G).
  rewrite Ha in Hsplit, Hb1. apply app_inv_tail in Hsplit. subst x.
  rewrite (ip_repl_shape _ _ _ _ _ Hd G).
  assert (Hnw : forall s, p_head is_word s = false -> p_head p s = false).
  { intros [|c s]; simpl; [reflexivity |]. intros H.
    destruct (p c) eqn:Hc; [| reflexivity]. apply Hpw in Hc. congruence. }
  apply safe_repl_tail.
  - intros H. apply app_eq_nil in H as [_ H]. now apply app_eq_nil in H as [H _].
  - rewrite !app_assoc, rev_app_distr. simpl. exact Hdot.
  - destruct (Hd d4) as [L4 D4]; [simpl; auto |].
    destruct (rev d4) as [|c l] eqn:E4.
    + apply (f_equal (@length ascii)) in E4. rewrite length_rev in E4. simpl in E4. lia.
    + simpl. apply Hdp. rewrite forallb_forall in D4. apply D4.
      apply in_rev. rewrite E4. now left.
  - discriminate.
  - exact Hgood.
  - intros _. now apply Hnw.
  - now apply Hnw.
Qed.

(** The IPv4 mask creates no run of [n] digits, [n] positive, and no
    passport-like token. *)
Lemma ip_pass_safe_digits n s :
  0 < n ->
  has_good is_digit (has_length n) [] (mask_ip_in s) = true ->
  has_good is_digit (has_length n) [] s = true.
Proof.
  intros Hn. change (mask_ip_in s) with (sub RE_IPV4 ip_repl s).
  apply sub_safe; [simpl; lia |].
  intros prev x rest m Hx E Ha.
  apply ipv4_safe; try assumption.
  - auto.
  - apply digit_word.
  - reflexivity.
  - reflexivity.
Qed.

Lemma ip_pass_safe_tokens s :
  has_good is_word pp_token [] (mask_ip_in s) = true ->
  has_good is_word pp_token [] s = true.
Proof.
  change (mask_ip_in s) with (sub RE_IPV4 ip_repl s).
  apply sub_safe; [simpl; lia |].
  intros prev x rest m Hx E Ha.
  apply ipv4_safe; try assumption.
  - apply digit_word.
  - auto.
  - reflexivity.
  - reflexivity.
Qed.

(** ** Reading the redacted record *)

Lemma process_record_fst (obj : record) :
  fst (process_record obj)
  = map_imap (fun k v => Some (redact_value k v (do_combination_redact obj)
                                 (addr_parts_of obj) (has_addr_field_of obj))) obj.
Proof.
  unfold process_record, do_combination_redact, addr_parts_of, has_addr_field_of, email_alone.
  destruct (count_b_signals obj) as [[[n fl] ap] haf]. reflexivity.
Qed.

Lemma process_record_snd (obj : record) :
  snd (process_record obj)
  = if email_alone (signal_flags obj) then false
    else a_hit obj || (2 <=? signal_count obj).
Proof.
  unfold process_record, signal_flags, signal_count, email_alone.
  destruct (count_b_signals obj) as [[[n fl] ap] haf]. reflexivity.
Qed.

Lemma process_record_lookup (obj : record) (k : string) :
  fst (process_record obj) !! k
  = (fun v => redact_value k v (do_combination_redact obj)
                (addr_parts_of obj) (has_addr_field_of obj)) <$> obj !! k.
Proof.
  rewrite process_record_fst, map_lookup_imap.
  destruct (obj !! k); reflexivity.
Qed.

Lemma redact_value_no_b (k : string) (v : value) (ap : nat) (haf : bool) :
  redact_value k v false ap haf
  = match v with VNone => VNone | _ => VStr (a_masks (py_str v)) end.
Proof. destruct v; reflexivity. Qed.

Lemma key_in_false (k : string) (ks : gset string) : k ∉ ks -> key_in k ks = false.
Proof. intros H. unfold key_in. now apply bool_decide_eq_false. Qed.

Lemma key_in_true (k : string) (ks : gset string) : k ∈ ks -> key_in k ks = true.
Proof. intros H. unfold key_in. now apply bool_decide_eq_true. Qed.

Lemma redact_value_no_role (k : string) (v : value) (do_b : bool) (ap : nat) (haf : bool) :
  k ∉ B_ROLE_KEYS ->
  redact_value k v do_b ap haf
  = match v with VNone => VNone | _ => VStr (a_masks (py_str v)) end.
Proof.
  intros H. destruct do_b; [| apply redact_value_no_b].
  unfold B_ROLE_KEYS in H. rewrite !not_elem_of_union in H.
  destruct H as ((((((H1 & H2) & H3) & H4) & H5) & H6) & H7).
  apply not_elem_of_union in H2.
  apply key_in_false in H1, H2, H3, H4, H5, H6, H7.
  unfold redact_value. rewrite H1, H2, H3, H4, H5, H6, H7. simpl.
  destruct v; reflexivity.
Qed.

(** ** Direct hits *)

Lemma a_hit_true_iff (obj : record) :
  a_hit obj = true <->
  exists k v, obj !! k = Some v /\ any_found (detect_a_in_value k v) = true.
Proof.
  unfold a_hit. rewrite existsb_exists. split.
  - intros [[k v] [Hin H]]. exists k, v. split; [| exact H].
    apply elem_of_map_to_list. now apply list_elem_of_In.
  - intros (k & v & Hk & H). exists (k, v). split; [| exact H].
    apply list_elem_of_In. now apply elem_of_map_to_list.
Qed.

Lemma any_found_direct_match (k : string) (v : value) :
  any_found (detect_a_in_value k v) = true <-> direct_match k v.
Proof.
  unfold any_found, detect_a_in_value, direct_match, key_in; simpl.
  destruct (matches RE_TEN_DIGITS _), (matches RE_AADHAR _),
    (matches RE_PASSPORT _), (matches RE_UPI _);
    case_bool_decide; simpl; intuition congruence.
Qed.

(** C1, as the code has it: the direct-hit flag is true exactly when some
    field's text matches one of four types (the 10-digit phone-like number
    or, with all white space removed, the 12-digit national ID, both only
    outside the exempt fields; the passport-like code; the payment handle),
    and the verdict is that flag or the combination threshold, unless the
    email-alone override applies.  No email or IPv4 matcher takes part.
    The phone and national-ID patterns match a maximal run of exactly 10,
    respectively 12, digits; the passport pattern a token that is a
    passport code; the handle pattern only where a handle is. *)
Theorem direct_hit_four_types (obj : record) :
  (a_hit obj = true <-> exists k v, obj !! k = Some v /\ direct_match k v)
  /\ snd (process_record obj)
     = (if email_alone (signal_flags obj) then false
        else a_hit obj || (2 <=? signal_count obj))
  /\ (forall s, matches RE_TEN_DIGITS s = true
                <-> exists t, In t (digit_runs s) /\ length t = 10)
  /\ (forall s, matches RE_AADHAR s = true
                <-> exists t, In t (digit_runs s) /\ length t = 12)
  /\ (forall s, matches RE_PASSPORT s = true
                <-> exists t, In t (tokens s) /\ passport_code t)
  /\ (forall s, matches RE_UPI s = true -> holds_handle s).
Proof.
  split; [| split; [apply process_record_snd |]].
  - rewrite a_hit_true_iff. split.
    + intros (k & v & Hk & H). exists k, v. split; [exact Hk |].
      now apply any_found_direct_match.
    + intros (k & v & Hk & H). exists k, v. split; [exact Hk |].
      now apply any_found_direct_match.
  - split; [intros s; apply (matches_digit_run 10); lia |].
    split; [intros s; apply (matches_digit_run 12); lia |].
    split; [apply matches_passport_code | apply matches_handle].
Qed.

(** C1 fails as stated: a field holding only an IPv4 address, or only an
    email address with a one-letter local part, matches the IPv4 or email
    pattern and yet gives no direct hit and a false verdict. *)
Lemma direct_hit_ignores_email_and_ipv4 :
  let ip := {[ "note"%string := VStr (txt "192.168.1.1") ]} : record in
  let mail := {[ "note"%string := VStr (txt "a@example.com") ]} : record in
  matches RE_IPV4 (txt "192.168.1.1") = true
  /\ a_hit ip = false /\ snd (process_record ip) = false
  /\ matches RE_EMAIL (txt "a@example.com") = true
  /\ a_hit mail = false /\ snd (process_record mail) = false.
Proof. vm_compute. repeat split; reflexivity. Qed.

(** ** The override *)

(** C3: when the email signal is the only signal, the verdict is false and
    no combination redaction is done, whatever the direct hits: every
    field gets the four always-on masks and nothing else. *)
Theorem email_alone_override (obj : record) :
  f_email (signal_flags obj) = true ->
  f_name (signal_flags obj) = false ->
  f_address (signal_flags obj) = false ->
  f_device_or_ip (signal_flags obj) = false ->
  snd (process_record obj) = false
  /\ do_combination_redact obj = false
  /\ forall k,
       fst (process_record obj) !! k
       = (fun v => match v with VNone => VNone | _ => VStr (a_masks (py_str v)) end)
           <$> obj !! k.
Proof.
  intros He Hn Ha Hd.
  assert (email_alone (signal_flags obj) = true) as Hal
    by (unfold email_alone; now rewrite He, Hn, Ha, Hd).
  assert (do_combination_redact obj = false) as Hb.
  { unfold do_combination_redact. unfold signal_flags in Hal.
    destruct (count_b_signals obj) as [[[n fl] ap] haf]. simpl in Hal.
    now rewrite Hal. }
  split; [| split].
  - rewrite process_record_snd. now rewrite Hal.
  - exact Hb.
  - intros k. rewrite process_record_lookup, Hb.
    destruct (obj !! k) as [v|]; simpl; [| reflexivity].
    now rewrite redact_value_no_b.
Qed.

(** A record with an email signal alone and a phone number in another
    field: a direct hit, and still the verdict is false. *)
Lemma email_alone_override_witness :
  let obj := <[ "email"%string := VStr (txt "alice@example.com") ]>
               {[ "note"%string := VStr (txt "9876543210") ]} : record in
  a_hit obj = true
  /\ snd (process_record obj) = false
  /\ do_combination_redact obj = false.
Proof.
  intros obj. split; [vm_compute; reflexivity |].
  destruct (email_alone_override obj) as (H1 & H2 & _);
    [vm_compute; reflexivity .. |].
  split; assumption.
Defined.

(** ** The exemption *)

Lemma detect_exempt (k : string) (v : value) :
  k ∈ NUMERIC_ID_KEYS ->
  phone (detect_a_in_value k v) = false
  /\ aadhar (detect_a_in_value k v) = false
  /\ passport (detect_a_in_value k v) = matches RE_PASSPORT (py_str (or_empty v))
  /\ upi (detect_a_in_value k v) = matches RE_UPI (py_str (or_empty v)).
Proof.
  intros Hk. unfold detect_a_in_value; simpl.
  rewrite (key_in_true _ _ Hk). simpl. repeat split; reflexivity.
Qed.

(** C5: in a field of the exempt set, detection reports neither a
    phone-like nor a national-ID-like match, whatever the value, while the
    passport-like and payment-handle patterns are searched as in any other
    field. *)
Theorem exempt_field_detection (k : string) (v : value) :
  k ∈ NUMERIC_ID_KEYS ->
  phone (detect_a_in_value k v) = false
  /\ aadhar (detect_a_in_value k v) = false
  /\ passport (detect_a_in_value k v) = matches RE_PASSPORT (py_str (or_empty v))
  /\ upi (detect_a_in_value k v) = matches RE_UPI (py_str (or_empty v)).
Proof. apply detect_exempt. Qed.

Lemma exempt_field_detection_witness :
  let v := VStr (txt "9876543210 123456789012 A1234567 alice@ybl") in
  phone (detect_a_in_value "order_id" v) = false
  /\ aadhar (detect_a_in_value "order_id" v) = false
  /\ passport (detect_a_in_value "order_id" v) = true
  /\ upi (detect_a_in_value "order_id" v) = true.
Proof.
  intros v.
  destruct (exempt_field_detection "order_id" v) as (H1 & H2 & H3 & H4);
    [vm_compute; reflexivity |].
  rewrite H3, H4. repeat split; try assumption; vm_compute; reflexivity.
Defined.

(** ** National IDs: detection against masking *)

(** C6 at its failing input: twelve digits grouped six and six are a
    national-ID hit for the detector, which removes all white space, and
    are left as they are by the mask, which joins 4-4-4 groups only. *)
Theorem aadhar_detected_but_not_masked :
  let v := VStr (txt "123456 789012") in
  aadhar (detect_a_in_value "note" v) = true
  /\ snd (process_record {[ "note"%string := v ]}) = true
  /\ mask_aadhar_digits (txt "123456 789012") = txt "123456 789012"
  /\ fst (process_record {[ "note"%string := v ]}) = {[ "note"%string := v ]}.
Proof. vm_compute. repeat split; reflexivity. Qed.

(** ** Loading *)

(** C8 at its failing input: whatever [json.loads] returns for the
    stripped text is returned as it is, mapping or not; a JSON text that is
    not an object gives a value on which [process_record] fails. *)
Theorem safe_json_load_returns_non_mapping
    (json_loads : text -> option pyobj) (raw : text) (v : value) :
  json_loads (strip raw) = Some (PVal v) ->
  safe_json_load json_loads raw = PVal v
  /\ process_loaded (safe_json_load json_loads raw) = None.
Proof.
  intros H. unfold safe_json_load.
  destruct raw; cbv beta iota zeta; rewrite H; split; reflexivity.
Qed.

Lemma safe_json_load_returns_non_mapping_witness :
  safe_json_load loads_literals (txt " [] ") = PVal (VOther false (txt "[]"))
  /\ process_loaded (safe_json_load loads_literals (txt " [] ")) = None.
Proof.
  apply (safe_json_load_returns_non_mapping loads_literals (txt " [] ")).
  vm_compute; reflexivity.
Defined.

(** What does hold of loading: text that cannot be parsed either way
    becomes the empty mapping, and the empty mapping has no signals, no
    direct hit, a false verdict and an empty redacted record. *)
Lemma safe_json_load_unparsable (json_loads : text -> option pyobj) (raw : text) :
  (forall t, json_loads t = None) -> safe_json_load json_loads raw = PDict ∅.
Proof. intros H. unfold safe_json_load. now rewrite !H. Qed.

Lemma process_record_empty :
  count_b_signals ∅ = (0, Flags false false false false, 0, false)
  /\ a_hit ∅ = false
  /\ process_record ∅ = (∅, false).
Proof. vm_compute. repeat split; reflexivity. Qed.

(** ** The always-on masks *)

Lemma a_masks_no_pattern s : no_direct_pattern s -> a_masks s = s.
Proof.
  intros (H1 & H2 & H3 & H4 & H5). unfold a_masks.
  assert (mask_phone_digits s = s) as -> by now apply sub_no_match.
  assert (mask_aadhar_digits s = s) as ->.
  { rewrite mask_aadhar_unfold. rewrite (sub_no_match RE_GROUPED) by exact H2.
    now apply sub_no_match. }
  assert (mask_passport_in s = s) as -> by now apply sub_no_match.
  now apply sub_no_match.
Qed.

Lemma process_record_field (obj : record) (k : string) (v : value) :
  obj !! k = Some v ->
  do_combination_redact obj = false \/ k ∉ B_ROLE_KEYS ->
  fst (process_record obj) !! k = Some (masked_value v).
Proof.
  intros Hk Hb. rewrite process_record_lookup, Hk. simpl. f_equal.
  destruct Hb as [Hb | Hb].
  - rewrite Hb. apply redact_value_no_b.
  - now apply redact_value_no_role.
Qed.

(** ** Every field but the rebuilt name *)

Lemma clean_runs t :
  no_number_or_code t
  <-> has_good is_digit (has_length 10) [] t = false
      /\ has_good is_digit (has_length 12) [] t = false
      /\ has_good is_word pp_token [] t = false.
Proof.
  unfold no_number_or_code.
  change RE_TEN_DIGITS with (isolated_run 10).
  change RE_AADHAR with (isolated_run 12).
  rewrite !matches_isolated_run by lia. rewrite matches_passport_tokens. tauto.
Qed.

(** A pass that creates no run of digits and no passport-like token keeps
    a text free of numbers and codes. *)
Lemma clean_pass (f : text -> text) t :
  (forall n, 2 < n -> has_good is_digit (has_length n) [] (f t) = true ->
             has_good is_digit (has_length n) [] t = true) ->
  (has_good is_word pp_token [] (f t) = true ->
   has_good is_word pp_token [] t = true) ->
  no_number_or_code t -> no_number_or_code (f t).
Proof.
  intros Hd Ht. rewrite !clean_runs. intros (H1 & H2 & H3).
  split; [| split]; apply not_true_is_false; intros H.
  - apply Hd in H; [congruence | lia].
  - apply Hd in H; [congruence | lia].
  - apply Ht in H. congruence.
Qed.

Lemma a_masks_clean s :
  no_number_or_code
    (mask_upi_in (mask_passport_in (mask_aadhar_digits (mask_phone_digits s)))).
Proof.
  split; [apply a_masks_no_phone |]. split; [apply a_masks_no_aadhar |].
  apply a_masks_no_passport.
Qed.

Lemma clean_email t : no_number_or_code t -> no_number_or_code (mask_email_str t).
Proof.
  apply clean_pass.
  - intros n Hn. now apply email_pass_safe_digits.
  - apply email_pass_safe_tokens.
Qed.

Lemma clean_ip t : no_number_or_code t -> no_number_or_code (mask_ip_in t).
Proof.
  apply clean_pass.
  - intros n Hn. apply ip_pass_safe_digits. lia.
  - apply ip_pass_safe_tokens.
Qed.

Lemma clean_marker t : no_number_or_code (hard_redact t).
Proof. unfold no_number_or_code. vm_compute. auto. Qed.

Lemma runs_xs_digits cur k : 0 < k -> runs is_digit cur (xs k) = flush cur.
Proof.
  intros Hk. unfold runs.
  destruct (closed_pending_all_np is_digit (xs k) cur) as [-> ->].
  - apply (forallb_xs (fun c => negb (is_digit c))). reflexivity.
  - destruct k; [lia | discriminate].
  - apply app_nil_r.
Qed.

Lemma runs_xs_word cur k : runs is_word cur (xs k) = flush (cur ++ xs k).
Proof.
  unfold runs.
  destruct (closed_pending_all_p is_word (xs k) cur) as [-> ->];
    [now apply forallb_xs | reflexivity].
Qed.

(** An initial followed by [X]s holds no number and no code. *)
Lemma clean_initial s k : no_number_or_code (take 1 s ++ xs k).
Proof.
  apply clean_runs.
  assert (Hd : forall n, 1 < n ->
            has_good is_digit (has_length n) [] (take 1 s ++ xs k) = false).
  { intros n Hn. unfold has_good.
    assert (Hx : forall cur, length cur <= 1 ->
              existsb (has_length n) (runs is_digit cur (xs k)) = false).
    { intros cur Hc. destruct k as [|k].
      - change (runs is_digit cur (xs 0)) with (flush cur).
        apply existsb_flush_false. unfold has_length. apply Nat.eqb_neq. lia.
      - rewrite runs_xs_digits by lia.
        apply existsb_flush_false. unfold has_length. apply Nat.eqb_neq. lia. }
    destruct s as [|c s]; [apply Hx; simpl; lia |].
    change (take 1 (c :: s) ++ xs k) with (c :: xs k).
    destruct (is_digit c) eqn:Hc.
    - rewrite runs_cons_p by exact Hc. apply Hx. simpl. lia.
    - unfold runs. cbn [closed pending]. rewrite Hc. cbn [flush app].
      apply Hx. simpl. lia. }
  split; [apply Hd; lia |]. split; [apply Hd; lia |].
  unfold has_good.
  destruct s as [|c s].
  - change (take 1 [] ++ xs k) with (xs k). rewrite runs_xs_word.
    apply existsb_flush_false. apply pp_token_xs. simpl. lia.
  - change (take 1 (c :: s) ++ xs k) with (c :: xs k).
    destruct (is_word c) eqn:Hc.
    + rewrite runs_cons_p by exact Hc. rewrite runs_xs_word.
      apply existsb_flush_false. apply pp_token_xs. simpl. lia.
    + unfold runs. cbn [closed pending]. rewrite Hc. cbn [flush app].
      fold (runs is_word [] (xs k)). rewrite runs_xs_word.
      apply existsb_flush_false. apply pp_token_xs. simpl. lia.
Qed.

Ltac clean_step :=
  match goal with
  | |- no_number_or_code (if ?c then _ else _) => destruct c
  | |- no_number_or_code (mask_ip_in _) => apply clean_ip
  | |- no_number_or_code (mask_email_str _) => apply clean_email
  | |- no_number_or_code (hard_redact _) => apply clean_marker
  | |- no_number_or_code (take 1 _ ++ xs _) => apply clean_initial
  | |- no_number_or_code (mask_upi_in _) => apply a_masks_clean
  end.

(** Whatever the field and the flag, the name rebuilt from the original
    apart, the redacted value holds no number and no code. *)
Lemma redact_value_clean (k : string) (v : value) (do_b : bool) (ap : nat) (haf : bool) :
  v <> VNone ->
  do_b && key_in k B_NAME_KEYS && looks_like_full_name (VStr (py_str v)) = false ->
  exists out, redact_value k v do_b ap haf = VStr out /\ no_number_or_code out.
Proof.
  intros Hv Hn.
  destruct v; [congruence | ..];
    (eexists; split; [unfold redact_value; cbv zeta; reflexivity |]);
    (destruct do_b; [| apply a_masks_clean]);
    rewrite andb_true_l in Hn; rewrite Hn; repeat clean_step.
Qed.

Lemma redact_value_email (k : string) (v : value) (ap : nat) (haf : bool) :
  v <> VNone -> k ∈ B_EMAIL_KEYS ->
  redact_value k v true ap haf = VStr (mask_email_str (a_masks (py_str v))).
Proof.
  intros Hv Hk.
  assert (k = "email"%string \/ k = "username"%string) as [-> | ->].
  { unfold B_EMAIL_KEYS in Hk. apply elem_of_union in Hk.
    destruct Hk as [Hk | Hk]; apply elem_of_singleton in Hk; auto. }
  - assert (key_in "email" B_NAME_KEYS = false) as E1 by (vm_compute; reflexivity).
    assert (key_in "email" {[ B_FIRST; B_LAST ]} = false) as E2 by (vm_compute; reflexivity).
    assert (key_in "email" B_EMAIL_KEYS = true) as E3 by (vm_compute; reflexivity).
    assert (key_in "email" B_ADDRESS_KEYS = false) as E4 by (vm_compute; reflexivity).
    assert (key_in "email" B_ADDR_PARTS = false) as E5 by (vm_compute; reflexivity).
    assert (key_in "email" B_DEVICE_KEYS = false) as E6 by (vm_compute; reflexivity).
    assert (key_in "email" B_IP_KEYS = false) as E7 by (vm_compute; reflexivity).
    unfold redact_value. rewrite E1, E2, E3, E4, E5, E6, E7.
    destruct v; [congruence | reflexivity ..].
  - assert (key_in "username" B_NAME_KEYS = false) as E1 by (vm_compute; reflexivity).
    assert (key_in "username" {[ B_FIRST; B_LAST ]} = false) as E2 by (vm_compute; reflexivity).
    assert (key_in "username" B_EMAIL_KEYS = true) as E3 by (vm_compute; reflexivity).
    assert (key_in "username" B_ADDRESS_KEYS = false) as E4 by (vm_compute; reflexivity).
    assert (key_in "username" B_ADDR_PARTS = false) as E5 by (vm_compute; reflexivity).
    assert (key_in "username" B_DEVICE_KEYS = false) as E6 by (vm_compute; reflexivity).
    assert (key_in "username" B_IP_KEYS = false) as E7 by (vm_compute; reflexivity).
    unfold redact_value. rewrite E1, E2, E3, E4, E5, E6, E7.
    destruct v; [congruence | reflexivity ..].
Qed.

Lemma redact_value_ip (k : string) (v : value) (ap : nat) (haf : bool) :
  v <> VNone -> k ∈ B_IP_KEYS ->
  redact_value k v true ap haf = VStr (mask_ip_in (a_masks (py_str v))).
Proof.
  intros Hv Hk. unfold B_IP_KEYS in Hk. apply elem_of_singleton in Hk. subst k.
  assert (key_in "ip_address" B_NAME_KEYS = false) as E1 by (vm_compute; reflexivity).
  assert (key_in "ip_address" {[ B_FIRST; B_LAST ]} = false) as E2 by (vm_compute; reflexivity).
  assert (key_in "ip_address" B_EMAIL_KEYS = false) as E3 by (vm_compute; reflexivity).
  assert (key_in "ip_address" B_ADDRESS_KEYS = false) as E4 by (vm_compute; reflexivity).
  assert (key_in "ip_address" B_ADDR_PARTS = false) as E5 by (vm_compute; reflexivity).
  assert (key_in "ip_address" B_DEVICE_KEYS = false) as E6 by (vm_compute; reflexivity).
  assert (key_in "ip_address" B_IP_KEYS = true) as E7 by (vm_compute; reflexivity).
  unfold redact_value. rewrite E1, E2, E3, E4, E5, E6, E7.
  destruct v; [congruence | reflexivity ..].
Qed.

(** C2, as the code has it: whatever the verdict, every field with a value,
    other than a name field that combination redaction rebuilds from the
    original text, comes out as a text in which no phone-like number, no
    isolated 12-digit run and no passport-like code is left.  Where
    combination redaction does not rewrite the field (the flag is off, or
    the field has no combination role) the output is the text of the value
    after the phone, national-ID, passport and payment-handle masks, in
    that order.  The email mask runs only in the email and username
    fields and the IPv4 mask only in the ip_address field, both only under
    combination redaction, after those four. *)
Theorem always_on_masks (obj : record) (k : string) (v : value) :
  obj !! k = Some v -> v <> VNone -> rebuilt_name obj k v = false ->
  exists out,
    fst (process_record obj) !! k = Some (VStr out)
    /\ (do_combination_redact obj = false \/ k ∉ B_ROLE_KEYS ->
        out = mask_upi_in (mask_passport_in (mask_aadhar_digits
                (mask_phone_digits (py_str v)))))
    /\ (do_combination_redact obj = true -> k ∈ B_EMAIL_KEYS ->
        out = mask_email_str (a_masks (py_str v)))
    /\ (do_combination_redact obj = true -> k ∈ B_IP_KEYS ->
        out = mask_ip_in (a_masks (py_str v)))
    /\ matches RE_TEN_DIGITS out = false
    /\ matches RE_AADHAR out = false
    /\ matches RE_PASSPORT out = false.
Proof.
  intros Hk Hv Hn. unfold rebuilt_name in Hn.
  destruct (redact_value_clean k v (do_combination_redact obj)
              (addr_parts_of obj) (has_addr_field_of obj) Hv Hn) as (out & E & C).
  assert (Hout : fst (process_record obj) !! k = Some (VStr out)).
  { rewrite process_record_lookup, Hk. simpl. now rewrite E. }
  exists out. split; [exact Hout |].
  split; [| split; [| split; [| exact C]]].
  - intros Hb. rewrite (process_record_field _ _ _ Hk Hb) in Hout.
    destruct v; [congruence | injection Hout as <-; reflexivity ..].
  - intros Hb Hin. rewrite Hb, redact_value_email in E by assumption.
    now injection E as <-.
  - intros Hb Hin. rewrite Hb, redact_value_ip in E by assumption.
    now injection E as <-.
Qed.

Lemma always_on_masks_witness :
  let v := VStr (txt "alice99@example.com, 9876543210, A1234567") in
  let obj := <[ "email"%string := v ]> {[ "name"%string := VStr (txt "Alice Wonder") ]} : record in
  exists out,
    fst (process_record obj) !! "email"%string = Some (VStr out)
    /\ out = txt "alXXXXX@example.com, 98XXXXXX10, AXXXXXX7"
    /\ matches RE_TEN_DIGITS out = false.
Proof.
  intros v obj.
  destruct (always_on_masks obj "email"%string v) as (out & H1 & _ & H2 & _ & H3 & _).
  - vm_compute. reflexivity.
  - discriminate.
  - vm_compute. reflexivity.
  - exists out. split; [exact H1 |]. split; [| exact H3].
    rewrite H2; [vm_compute; reflexivity | vm_compute; reflexivity |].
    unfold B_EMAIL_KEYS. apply elem_of_union_l, elem_of_singleton. reflexivity.
Defined.

(** The name field left out above: under combination redaction a value
    that looks like a full name is rebuilt from the original text, and a
    phone-like number in it comes out whole. *)
Example full_name_keeps_number :
  let v := VStr (txt "Ann Lee 9876543210") in
  let obj := <[ "name"%string := v ]> {[ "email"%string := VStr (txt "ann@example.com") ]} : record in
  rebuilt_name obj "name" v = true
  /\ fst (process_record obj) !! "name"%string = Some (VStr (txt "AXX LXX 9876543210"))
  /\ matches RE_TEN_DIGITS (txt "AXX LXX 9876543210") = true.
Proof. vm_compute. split; [| split]; reflexivity. Qed.

(** C2 fails as stated: an email address and an IPv4 address in a field
    without a combination role come out unmasked. *)
Lemma email_and_ipv4_survive_redaction :
  let v := VStr (txt "mail alice@1example.com from 10.0.0.7") in
  let obj := {[ "note"%string := v ]} : record in
  fst (process_record obj) !! "note"%string = Some v
  /\ matches RE_EMAIL (txt "mail alice@1example.com from 10.0.0.7") = true
  /\ matches RE_IPV4 (txt "mail alice@1example.com from 10.0.0.7") = true
  /\ mask_email_str (txt "mail alice@1example.com from 10.0.0.7")
     <> txt "mail alice@1example.com from 10.0.0.7"
  /\ mask_ip_in (txt "mail alice@1example.com from 10.0.0.7")
     <> txt "mail alice@1example.com from 10.0.0.7".
Proof. vm_compute. repeat split; try reflexivity; intros H; discriminate H. Qed.

(** ** The passport-like matcher *)

(** C4, as the code has it: the passport pattern matches exactly when some
    token (a maximal run of word characters) is one letter of the pattern's
    set followed by exactly 7 digits; the set is the ASCII letters other
    than Q, X and Z in either case, so I and O are in it; such a code is
    masked to its letter, 6 mask characters and its last digit. *)
Theorem passport_matcher_tokens :
  (forall s, matches RE_PASSPORT s = true
             <-> exists t, In t (tokens s) /\ passport_code t)
  /\ (forall c,
        cset_mem [Rng "A" "P"; Rng "R" "W"; One "Y";
                  Rng "a" "p"; Rng "r" "w"; One "y"]%char c = true
        <-> is_letter c = true /\ ~ In c ["Q"; "X"; "Z"; "q"; "x"; "z"]%char)
  /\ (forall c ds,
        passport_letter c = true -> length ds = 7 -> forallb is_digit ds = true ->
        mask_passport_in (c :: ds) = c :: xs 6 ++ lastn 1 ds)
  /\ mask_passport_in (txt "A1234567") = txt "AXXXXXX7"
  /\ matches RE_PASSPORT (txt "I1234567") = true
  /\ matches RE_PASSPORT (txt "O1234567") = true
  /\ matches RE_PASSPORT (txt "X1234567") = false.
Proof.
  split; [| split; [| split]].
  - apply matches_passport_code.
  - intros c. destruct c as [[] [] [] [] [] [] [] []]; vm_compute;
      split; try discriminate; try (intros _; split; [reflexivity |]); try tauto;
      try (intros [? ?]; discriminate);
      try (intros H; repeat (destruct H as [H | H]; [discriminate H |]); exact H);
      try (intros [_ H]; exfalso; apply H; tauto).
  - intros c ds Hc Hl Hd. apply mask_passport_code; try assumption.
    unfold has_length. now rewrite Hl.
  - vm_compute. repeat split; reflexivity.
Qed.

Lemma passport_matcher_tokens_witness :
  mask_passport_in (txt "B7654321") = txt "BXXXXXX1"
  /\ exists t, In t (tokens (txt "no B7654321 here")) /\ passport_code t.
Proof.
  destruct passport_matcher_tokens as (H1 & _ & H3 & _). split.
  - apply (H3 "B"%char (txt "7654321")); reflexivity.
  - apply H1. vm_compute. reflexivity.
Defined.

(** C4 fails as stated: the code [X1234567] does not match and is left
    unmasked, while [I1234567] and [O1234567] match and are masked. *)
Lemma passport_letter_set_differs :
  matches RE_PASSPORT (txt "X1234567") = false
  /\ mask_passport_in (txt "X1234567") = txt "X1234567"
  /\ mask_passport_in (txt "I1234567") = txt "IXXXXXX7"
  /\ mask_passport_in (txt "O1234567") = txt "OXXXXXX7".
Proof. vm_compute. repeat split; reflexivity. Qed.

(** ** Exempt fields are masked all the same *)

Lemma digits_no_at ds : forallb is_digit ds = true -> ~ In "@"%char ds.
Proof.
  intros Hd Hin. rewrite forallb_forall in Hd. apply Hd in Hin. discriminate Hin.
Qed.

Lemma digits_no_direct_hit (k : string) ds :
  k ∈ NUMERIC_ID_KEYS -> ds <> [] -> forallb is_digit ds = true ->
  any_found (detect_a_in_value k (VStr ds)) = false.
Proof.
  intros Hk Hne Hd. unfold any_found.
  destruct (detect_exempt k (VStr ds) Hk) as (-> & -> & -> & ->).
  assert (py_str (or_empty (VStr ds)) = ds) as -> by (destruct ds; [congruence | reflexivity]).
  rewrite matches_passport_tokens. unfold has_good.
  rewrite runs_all_digits;
    [| exact Hne | now apply (forallb_impl is_digit is_word ds digit_word)].
  destruct ds as [|d ds]; [congruence |]. simpl in Hd. apply andb_prop in Hd.
  destruct Hd as [Hd0 Hd]. cbn -[passport_letter is_digit].
  rewrite (digit_not_passport_letter _ Hd0). simpl.
  destruct (matches RE_UPI (d :: ds)) eqn:E; [| reflexivity].
  apply upi_needs_at in E. exfalso. revert E. apply digits_no_at.
  simpl. now rewrite Hd0, Hd.
Qed.

(** C9: the exemption is one of detection only.  In a field of the exempt
    set, whatever the combination flag, the redactor applies the always-on
    masks, the phone and national-ID masks among them, and leaves no
    phone-like number and no 12-digit run; a value of ten digits comes out
    with its middle six masked and a value of twelve digits with only its
    last four visible, though neither gave a direct hit. *)
Theorem exempt_field_still_masked (k : string) (v : value) (do_b : bool)
    (ap : nat) (haf : bool) :
  k ∈ NUMERIC_ID_KEYS -> v <> VNone ->
  redact_value k v do_b ap haf = VStr (a_masks (py_str v))
  /\ matches RE_TEN_DIGITS (a_masks (py_str v)) = false
  /\ matches RE_AADHAR (a_masks (py_str v)) = false
  /\ (forall ds, length ds = 10 -> forallb is_digit ds = true ->
        redact_value k (VStr ds) do_b ap haf = VStr (take 2 ds ++ xs 6 ++ lastn 2 ds)
        /\ any_found (detect_a_in_value k (VStr ds)) = false)
  /\ (forall ds, length ds = 12 -> forallb is_digit ds = true ->
        redact_value k (VStr ds) do_b ap haf = VStr (txt "XXXX XXXX " ++ lastn 4 ds)
        /\ any_found (detect_a_in_value k (VStr ds)) = false).
Proof.
  intros Hk Hv. pose proof (exempt_not_role _ Hk) as Hr.
  split; [| split; [apply a_masks_no_phone | split; [apply a_masks_no_aadhar |]]].
  - rewrite redact_value_no_role by exact Hr. destruct v; try reflexivity. congruence.
  - split; intros ds Hl Hd.
    + rewrite redact_value_no_role by exact Hr. simpl.
      rewrite a_masks_ten_digits; [| unfold has_length; now rewrite Hl | exact Hd].
      split; [reflexivity |]. apply digits_no_direct_hit; try assumption.
      intros ->. discriminate.
    + rewrite redact_value_no_role by exact Hr. simpl.
      rewrite a_masks_twelve_digits; [| unfold has_length; now rewrite Hl | exact Hd].
      split; [reflexivity |]. apply digits_no_direct_hit; try assumption.
      intros ->. discriminate.
Qed.

Lemma exempt_field_still_masked_witness :
  redact_value "order_id" (VInt 9876543210) true 0 false = VStr (txt "98XXXXXX10")
  /\ redact_value "order_id" (VStr (txt "123456789012")) true 0 false
     = VStr (txt "XXXX XXXX 9012")
  /\ any_found (detect_a_in_value "order_id" (VStr (txt "123456789012"))) = false.
Proof.
  destruct (exempt_field_still_masked "order_id" (VInt 9876543210) true 0 false)
    as (H1 & _ & _ & _ & H12); [vm_compute; reflexivity | discriminate |].
  split; [rewrite H1; vm_compute; reflexivity |].
  destruct (H12 (txt "123456789012")) as [H2 H3]; [reflexivity | reflexivity |].
  split; [rewrite H2; reflexivity | exact H3].
Defined.

(** ** A second pass *)

(** C7, as the code has it: a second pass raises no error; in a field
    without a combination role it finds no phone-like number, no 12-digit
    run and no passport-like code in the redacted text, so those three
    substitutions leave it unchanged, and the field is returned unchanged
    whenever the redacted text holds no 4-4-4 grouping and no payment
    handle; a masked phone number, a masked national ID, a masked passport
    code and the opaque marker are fixed points of the always-on masks. *)
Theorem second_pass (obj : record) (k : string) (s : text) :
  obj !! k = Some (VStr s) -> k ∉ B_ROLE_KEYS ->
  let red := fst (process_record obj) in
  let t := a_masks s in
  is_Some (process_loaded (PDict red))
  /\ red !! k = Some (VStr t)
  /\ fst (process_record red) !! k = Some (VStr (a_masks t))
  /\ mask_phone_digits t = t
  /\ sub RE_AADHAR aadhar_repl t = t
  /\ mask_passport_in t = t
  /\ (matches RE_GROUPED t = false -> matches RE_UPI t = false ->
      fst (process_record red) !! k = red !! k)
  /\ (forall a b c d, forallb is_digit [a; b; c; d] = true ->
        a_masks ([a; b] ++ xs 6 ++ [c; d]) = [a; b] ++ xs 6 ++ [c; d]
        /\ a_masks (txt "XXXX XXXX " ++ [a; b; c; d]) = txt "XXXX XXXX " ++ [a; b; c; d])
  /\ (forall c d, passport_letter c = true -> is_digit d = true ->
        a_masks (c :: xs 6 ++ [d]) = c :: xs 6 ++ [d])
  /\ a_masks (txt "[REDACTED_PII]") = txt "[REDACTED_PII]".
Proof.
  intros Hk Hr red t.
  assert (red !! k = Some (VStr t)) as Hred.
  { unfold red. rewrite (process_record_field _ _ _ Hk) by now right. reflexivity. }
  assert (fst (process_record red) !! k = Some (VStr (a_masks t))) as Hred2.
  { rewrite (process_record_field _ _ _ Hred) by now right. reflexivity. }
  assert (mask_phone_digits t = t) as H1 by (apply sub_no_match, a_masks_no_phone).
  assert (sub RE_AADHAR aadhar_repl t = t) as H2 by (apply sub_no_match, a_masks_no_aadhar).
  assert (mask_passport_in t = t) as H3 by (apply sub_no_match, a_masks_no_passport).
  split; [eexists; reflexivity |].
  repeat (split; [assumption |]).
  split; [| split; [| split]].
  - intros Hg Hu. rewrite Hred2, Hred. do 2 f_equal.
    apply a_masks_no_pattern. unfold no_direct_pattern.
    repeat split; try assumption.
    + apply a_masks_no_phone.
    + apply a_masks_no_aadhar.
    + apply a_masks_no_passport.
  - intros a b c d Hd. split; [now apply phone_token_stable | now apply aadhar_token_stable].
  - intros c d Hc Hd. now apply passport_token_stable.
  - apply marker_stable.
Qed.

Lemma second_pass_witness :
  let obj := <[ "note"%string := VStr (txt "call 9876543210 or A1234567") ]>
               {[ "ref"%string := VStr (txt "123456789012") ]} : record in
  let red := fst (process_record obj) in
  red !! "note"%string = Some (VStr (txt "call 98XXXXXX10 or AXXXXXX7"))
  /\ fst (process_record red) !! "note"%string = red !! "note"%string.
Proof.
  intros obj red.
  destruct (second_pass obj "note"%string (txt "call 9876543210 or A1234567"))
    as (_ & H1 & _ & _ & _ & _ & H2 & _).
  - vm_compute. reflexivity.
  - vm_compute. intros H. discriminate H.
  - split.
    + fold red in H1. rewrite H1. vm_compute. reflexivity.
    + apply H2; vm_compute; reflexivity.
Defined.

(** C7 fails as stated: a masked national ID followed by two groups of four
    digits is joined with them and masked again; a payment handle masked in
    the first pass lets an earlier handle match in the second; and a masked
    national ID in a name field reads as a full name in the second pass and
    switches combination redaction on. *)
Lemma redaction_not_idempotent :
  let twice (obj : record) := fst (process_record (fst (process_record obj))) in
  let once (obj : record) := fst (process_record obj) in
  let o1 := {[ "note"%string := VStr (txt "123456789012 3456 7890") ]} : record in
  let o2 := {[ "note"%string := VStr (txt "xyz@a-.-@fg") ]} : record in
  let o3 := <[ "name"%string := VStr (txt "123456789012") ]>
              (<[ "city"%string := VStr (txt "Pune") ]>
                 {[ "state"%string := VStr (txt "MH") ]}) : record in
  once o1 !! "note"%string = Some (VStr (txt "XXXX XXXX 9012 3456 7890"))
  /\ twice o1 !! "note"%string = Some (VStr (txt "XXXX XXXX XXXX XXXX 7890"))
  /\ once o2 !! "note"%string = Some (VStr (txt "xyz@a-XX@fg"))
  /\ twice o2 !! "note"%string = Some (VStr (txt "xyX@a-XX@fg"))
  /\ once o3 !! "city"%string = Some (VStr (txt "Pune"))
  /\ twice o3 !! "city"%string = Some (VStr (txt "[REDACTED_PII]"))
  /\ twice o1 <> once o1.
Proof.
  vm_compute. repeat split; try reflexivity. intros H. discriminate H.
Qed.

(** ** Keys and values of the redacted record *)

Lemma redact_value_shape (k : string) (v : value) (do_b : bool) (ap : nat) (haf : bool) :
  (v = VNone -> redact_value k v do_b ap haf = VNone)
  /\ (v <> VNone -> exists s, redact_value k v do_b ap haf = VStr s).
Proof.
  split.
  - intros ->. reflexivity.
  - intros Hv. destruct v; try congruence; eexists; reflexivity.
Qed.

(** C10: the redacted record has exactly the keys of the input; a [None]
    value stays [None]; any other value, a number, a boolean or a nested
    structure as well, comes out as a string, which is the text of the
    value itself when no pattern matches it and no combination redaction
    applies to the field. *)
Theorem process_record_frame (obj : record) :
  dom (fst (process_record obj)) = dom obj
  /\ forall k v, obj !! k = Some v ->
       (v = VNone -> fst (process_record obj) !! k = Some VNone)
       /\ (v <> VNone -> exists s, fst (process_record obj) !! k = Some (VStr s))
       /\ (v <> VNone ->
           do_combination_redact obj = false \/ k ∉ B_ROLE_KEYS ->
           no_direct_pattern (py_str v) ->
           fst (process_record obj) !! k = Some (VStr (py_str v))).
Proof.
  split.
  - apply set_eq. intros k. rewrite !elem_of_dom, process_record_lookup.
    destruct (obj !! k); simpl; split; intros [x Hx]; try discriminate; eauto.
  - intros k v Hk. rewrite process_record_lookup, Hk. simpl.
    destruct (redact_value_shape k v (do_combination_redact obj)
                (addr_parts_of obj) (has_addr_field_of obj)) as [Hn Hs].
    split; [| split].
    + intros Hv. now rewrite Hn.
    + intros Hv. destruct (Hs Hv) as [s ->]. eauto.
    + intros Hv Hb Hp.
      pose proof (process_record_field _ _ _ Hk Hb) as E.
      rewrite process_record_lookup, Hk in E. simpl in E. rewrite E.
      destruct v; try congruence; simpl; now rewrite a_masks_no_pattern.
Qed.

Lemma process_record_frame_witness :
  let obj := <[ "count"%string := VInt 5 ]>
               (<[ "flag"%string := VBool true ]>
                  (<[ "tags"%string := VOther true (txt "['a', 'b']") ]>
                     {[ "gone"%string := VNone ]})) : record in
  fst (process_record obj) !! "count"%string = Some (VStr (txt "5"))
  /\ fst (process_record obj) !! "flag"%string = Some (VStr (txt "True"))
  /\ fst (process_record obj) !! "tags"%string = Some (VStr (txt "['a', 'b']"))
  /\ fst (process_record obj) !! "gone"%string = Some VNone.
Proof.
  intros obj. destruct (process_record_frame obj) as [_ H].
  assert (do_combination_redact obj = false) as Hb by (vm_compute; reflexivity).
  split; [| split; [| split]].
  - destruct (H "count"%string (VInt 5)) as (_ & _ & H3); [vm_compute; reflexivity |].
    apply H3; [discriminate | now left | vm_compute; repeat split; reflexivity].
  - destruct (H "flag"%string (VBool true)) as (_ & _ & H3); [vm_compute; reflexivity |].
    apply H3; [discriminate | now left | vm_compute; repeat split; reflexivity].
  - destruct (H "tags"%string (VOther true (txt "['a', 'b']"))) as (_ & _ & H3);
      [vm_compute; reflexivity |].
    apply H3; [discriminate | now left | vm_compute; repeat split; reflexivity].
  - destruct (H "gone"%string VNone) as (H1 & _); [vm_compute; reflexivity |].
    now apply H1.
Defined.

(** * Further properties of the masks *)

(** ** Writing [X] in place *)

Lemma overwrites_refl p s : overwrites p s s.
Proof. induction s; constructor; auto. Qed.

Lemma overwrites_app p s1 t1 s2 t2 :
  overwrites p s1 t1 -> overwrites p s2 t2 -> overwrites p (s1 ++ s2) (t1 ++ t2).
Proof. apply Forall2_app. Qed.

Lemma overwrites_xs p t : forallb p t = true -> overwrites p t (xs (length t)).
Proof.
  induction t as [|c t IH]; simpl; intros H; constructor.
  - apply andb_prop in H. right. tauto.
  - apply andb_prop in H. now apply IH.
Qed.

Lemma overwrites_length p s t : overwrites p s t -> length t = length s.
Proof. intros H. symmetry. eapply Forall2_length, H. Qed.

Lemma overwrites_concat p (f : text -> text) parts :
  (forall t, In t parts -> overwrites p t (f t)) ->
  overwrites p (concat parts) (concat (map f parts)).
Proof.
  induction parts as [|t parts IH]; intros H; simpl; [constructor |].
  apply overwrites_app; [apply H; now left |]. apply IH. intros t' Ht'. apply H. now right.
Qed.

Ltac cells :=
  repeat (constructor; [first [left; reflexivity | right; split; [reflexivity | assumption]] |]);
  try constructor.

Section Pointwise.
Variable p : ascii -> bool.
Variable r : regex.
Variable repl : mstate -> text.
Hypothesis consumes : 0 < min_len r.
Hypothesis hit : forall prev x rest m,
  x <> [] -> match_at r prev (x ++ rest) = Some m -> after m = rest ->
  overwrites p x (repl m).

(** A substitution whose replacements write [X] in place writes [X] in
    place. *)
Lemma sub_overwrites s : overwrites p s (sub r repl s).
Proof.
  rewrite sub_sub_from.
  apply (sub_from_ind r repl (fun _ rest out => overwrites p rest out)).
  - exact consumes.
  - intros _. constructor.
  - intros prev c rest out _ IH. constructor; auto.
  - intros prev x rest m out Hx E Ha _ IH. apply overwrites_app; eauto.
Qed.
End Pointwise.

Lemma isolated_run_hit n prev x rest m :
  match_at (isolated_run n) prev (x ++ rest) = Some m -> after m = rest ->
  group m 1 = x /\ length x = n /\ forallb is_digit x = true.
Proof.
  intros E Ha. apply isolated_run_some in E. destruct E as (_ & Hl & Hd & Hg).
  pose proof (prefix_app_drop is_digit (x ++ rest)) as H.
  rewrite <- Hd, Ha in H. apply app_inv_tail in H.
  rewrite Hg, H. split; [reflexivity |]. split.
  - unfold has_length in Hl. rewrite H in Hl. now apply Nat.eqb_eq.
  - rewrite <- H. apply prefix_all.
Qed.

Lemma phone_overwrites s : overwrites is_digit s (mask_phone_digits s).
Proof.
  change (mask_phone_digits s) with (sub (isolated_run 10) phone_repl s).
  apply sub_overwrites; [simpl; lia |].
  intros prev x rest m _ E Ha.
  destruct (isolated_run_hit _ _ _ _ _ E Ha) as (Hg & Hl & Hd).
  unfold phone_repl. rewrite Hg.
  do 11 (destruct x as [|? x]; try discriminate Hl).
  cbn [forallb] in Hd. rewrite !andb_true_iff in Hd.
  destruct Hd as (? & ? & ? & ? & ? & ? & ? & ? & ? & ? & _).
  unfold overwrites. cbn. cells.
Qed.

Lemma passport_overwrites s : overwrites is_digit s (mask_passport_in s).
Proof.
  change (mask_passport_in s) with (sub RE_PASSPORT passport_repl s).
  apply sub_overwrites; [simpl; lia |].
  intros prev x rest m _ E Ha.
  destruct (passport_match _ _ _ _ E Ha) as (_ & Hx & _ & Hpp).
  apply passport_some in E. destruct E as (_ & _ & _ & Hg).
  unfold passport_repl. rewrite Hg, <- Hx.
  destruct (pp_token_shape _ Hpp) as (c & d1 & d2 & d3 & d4 & d5 & d6 & d7 & -> & _ & Hd).
  cbn [forallb] in Hd. rewrite !andb_true_iff in Hd.
  destruct Hd as (? & ? & ? & ? & ? & ? & ? & _).
  unfold overwrites. cbn. cells.
Qed.

Lemma handle_overwrites p user prov :
  1 <= length user -> forallb p user = true ->
  overwrites p (user ++ "@"%char :: prov) (handle_repl user prov).
Proof.
  intros Lu Hp.
  destruct (handle_repl_cases user prov Lu) as [-> | (u1 & u2 & urest & -> & ->)];
    [apply overwrites_refl |].
  replace ((u1 :: u2 :: urest) ++ "@"%char :: prov)
    with ((([u1; u2] ++ urest) ++ ["@"%char]) ++ prov)
    by (rewrite <- !app_assoc; reflexivity).
  repeat apply overwrites_app; try apply overwrites_refl.
  apply overwrites_xs. cbn [forallb] in Hp. rewrite !andb_true_iff in Hp. tauto.
Qed.

Lemma upi_overwrites s : overwrites upi_char s (mask_upi_in s).
Proof.
  change (mask_upi_in s) with (sub RE_UPI upi_repl s).
  apply sub_overwrites; [simpl; lia |].
  intros prev x rest m _ E Ha.
  destruct (upi_shape _ _ _ E) as (user & prov & Hsplit & Lu & Du & _ & _ & _ & G1 & G2).
  rewrite Ha in Hsplit. apply app_inv_tail in Hsplit. subst x.
  change (upi_repl m) with (handle_repl (group m 1) (group m 2)). rewrite G1, G2.
  apply handle_overwrites; [lia | exact Du].
Qed.

Lemma mem_email c :
  cset_mem [upper; lower; num; One "."; One "_"; One "%"; One "+"; One "-"]%char c
  = email_char c.
Proof. by_char c. Qed.

(** The local part that the email pattern captures. *)
Lemma email_local prev rest m :
  match_at RE_EMAIL prev rest = Some m ->
  forallb email_char (group m 1) = true.
Proof.
  intros H. apply match_at_in in H. unfold RE_EMAIL in H.
  apply in_exec_cat in H. destruct H as (m0 & H0 & H).
  apply in_exec_bound in H0. destruct H0 as [-> _].
  apply in_exec_cat in H. destruct H as (m1 & H1 & H).
  apply in_exec_group in H1. destruct H1 as (m1' & loc & H1 & S1 & S1' & C1).
  apply in_exec_repeat_chars in H1. destruct H1 as (loc' & Su & _ & Du & Cu).
  pose proof (steps_inj _ _ _ _ S1' Su) as <-. clear Su.
  rewrite (forallb_eq _ email_char) in Du by apply mem_email.
  apply in_exec_cat in H. destruct H as (m2 & H2 & H).
  apply in_exec_chars in H2. destruct H2 as (c & _ & _ & C2).
  apply in_exec_cat in H. destruct H as (m3 & H3 & H).
  apply in_exec_group in H3. destruct H3 as (m3' & dom & H3 & _ & _ & C3).
  apply in_exec_cat in H3. destruct H3 as (m4 & H4 & H3).
  apply in_exec_repeat_chars in H4. destruct H4 as (g1 & _ & _ & _ & C4).
  apply in_exec_cat in H3. destruct H3 as (m5 & H5 & H3).
  apply in_exec_chars in H5. destruct H5 as (c' & _ & _ & C5).
  apply in_exec_repeat_chars in H3. destruct H3 as (g3 & _ & _ & _ & C6).
  apply in_exec_bound in H. destruct H as [-> _].
  unfold group. rewrite C3, C6, C5, C4, C2, C1, Cu. simpl. exact Du.
Qed.

Lemma email_overwrites s : overwrites email_char s (mask_email_str s).
Proof.
  change (mask_email_str s) with (sub RE_EMAIL email_repl s).
  apply sub_overwrites; [simpl; lia |].
  intros prev x rest m _ E Ha.
  pose proof (email_local _ _ _ E) as Dl.
  destruct (email_shape _ _ _ E) as (loc & dom & Hsplit & Lu & _ & _ & _ & G1 & G2).
  rewrite Ha in Hsplit. apply app_inv_tail in Hsplit. subst x.
  unfold email_repl. rewrite G1, G2. rewrite G1 in Dl.
  now apply handle_overwrites.
Qed.

(** The phone, passport, payment-handle and email masks write [X] in
    place: every character of the result is the character of the input at
    that place, or an [X] over a digit (phone, passport), over a handle
    character (payment handle) or over a character of the local part
    (email); the length of the text is kept. *)
Theorem masks_overwrite_in_place (s : text) :
  (overwrites is_digit s (mask_phone_digits s)
   /\ length (mask_phone_digits s) = length s)
  /\ (overwrites is_digit s (mask_passport_in s)
      /\ length (mask_passport_in s) = length s)
  /\ (overwrites upi_char s (mask_upi_in s)
      /\ length (mask_upi_in s) = length s)
  /\ (overwrites email_char s (mask_email_str s)
      /\ length (mask_email_str s) = length s).
Proof.
  pose proof (phone_overwrites s) as H1. pose proof (passport_overwrites s) as H2.
  pose proof (upi_overwrites s) as H3. pose proof (email_overwrites s) as H4.
  split; [| split; [| split]];
    (split; [assumption | eapply overwrites_length; eassumption]).
Qed.

(** ** Fixed points of the masks *)

(** The phone mask leaves no phone-like number; it changes exactly the
    texts that hold one, and a second application changes nothing. *)
Theorem phone_mask_fixed_point (s : text) :
  matches RE_TEN_DIGITS (mask_phone_digits s) = false
  /\ (mask_phone_digits s = s <-> matches RE_TEN_DIGITS s = false)
  /\ mask_phone_digits (mask_phone_digits s) = mask_phone_digits s.
Proof.
  pose proof (mask_phone_complete s) as Hc.
  split; [exact Hc |]. split.
  - split; [intros E; now rewrite E in Hc | apply sub_no_match].
  - now apply sub_no_match.
Qed.

(** The passport mask leaves no passport-like code; it changes exactly the
    texts that hold one, and a second application changes nothing. *)
Theorem passport_mask_fixed_point (s : text) :
  matches RE_PASSPORT (mask_passport_in s) = false
  /\ (mask_passport_in s = s <-> matches RE_PASSPORT s = false)
  /\ mask_passport_in (mask_passport_in s) = mask_passport_in s.
Proof.
  pose proof (mask_passport_complete s) as Hc.
  split; [exact Hc |]. split.
  - split; [intros E; now rewrite E in Hc | apply sub_no_match].
  - now apply sub_no_match.
Qed.

(** ** Following the first choice of the matcher *)

Lemma head_cat r1 r2 st a b :
  head (exec r1 st) = Some a -> head (exec r2 a) = Some b ->
  head (exec (r1 +> r2) st) = Some b.
Proof.
  cbn [exec]. destruct (exec r1 st) as [|a' l]; [discriminate |].
  intros H. injection H as ->. cbn [flat_map].
  destruct (exec r2 a) as [|b' l']; [discriminate |].
  intros H. injection H as ->. reflexivity.
Qed.

Lemma head_notbehind cs st :
  p_head (cset_mem cs) (before st) = false -> head (exec (NotBehind cs) st) = Some st.
Proof.
  cbn [exec]. destruct (before st) as [|c l]; [reflexivity |].
  cbn [p_head]. intros ->. reflexivity.
Qed.

Lemma head_notahead cs st :
  p_head (cset_mem cs) (after st) = false -> head (exec (NotAhead cs) st) = Some st.
Proof.
  cbn [exec]. destruct (after st) as [|c l]; [reflexivity |].
  cbn [p_head]. intros ->. reflexivity.
Qed.

Lemma head_bound st :
  xorb (p_head is_word (before st)) (p_head is_word (after st)) = true ->
  head (exec Bound st) = Some st.
Proof.
  cbn [exec].
  change (xorb (word_before st) (word_after st))
    with (xorb (p_head is_word (before st)) (p_head is_word (after st))).
  intros ->. reflexivity.
Qed.

Lemma head_chars cs b c rest k :
  cset_mem cs c = true ->
  head (exec (Chars cs) (MState b (c :: rest) k)) = Some (MState (c :: b) rest k).
Proof. cbn [exec after before caps]. intros ->. reflexivity. Qed.

Lemma prefix_len_app_all p g rest :
  forallb p g = true -> p_head p rest = false -> prefix_len p (g ++ rest) = length g.
Proof.
  induction g as [|c g IH]; simpl; intros Hg Hr.
  - destruct rest as [|c rest]; [reflexivity |]. simpl in *. now rewrite Hr.
  - apply andb_prop in Hg. destruct Hg as [-> Hg]. now rewrite IH.
Qed.

Lemma head_desc a b : b <= a -> head (desc a b) = Some a.
Proof.
  intros H. unfold desc. replace (S a - b) with (S (a - b)) by lia.
  rewrite seq_S, rev_app_distr. simpl. f_equal. lia.
Qed.

(** A greedy repetition of a class takes the whole run ahead, when that
    is within its bounds. *)
Lemma head_repeat_chars lo hi cs b g rest k :
  forallb (cset_mem cs) g = true -> p_head (cset_mem cs) rest = false ->
  lo <= length g -> match hi with Some h => length g <= h | None => True end ->
  head (exec (Repeat lo hi (Chars cs)) (MState b (g ++ rest) k))
  = Some (MState (rev g ++ b) rest k).
Proof.
  intros Hg Hr Hlo Hhi. rewrite exec_repeat_chars. cbn [after].
  rewrite prefix_len_app_all by assumption.
  assert (reach hi 0 (length g) = length g) as ->.
  { unfold reach. destruct hi as [h|]; [lia | reflexivity]. }
  destruct (desc (length g) lo) as [|a l] eqn:E.
  - pose proof (head_desc (length g) lo Hlo) as H. rewrite E in H. discriminate.
  - pose proof (head_desc (length g) lo Hlo) as H. rewrite E in H. injection H as ->.
    cbn [map head]. unfold advance. cbn [after before caps].
    rewrite take_app_length, drop_app_length. reflexivity.
Qed.

Lemma head_group i r b s k b' s' k' :
  head (exec r (MState b s k)) = Some (MState b' s' k') ->
  head (exec (Group i r) (MState b s k))
  = Some (MState b' s' (set_cap i (take (length s - length s') s) k')).
Proof.
  cbn [exec]. destruct (exec r (MState b s k)) as [|a l]; [discriminate |].
  intros H. injection H as ->. reflexivity.
Qed.

Lemma head_app_some {A} (l1 l2 : list A) a : head l1 = Some a -> head (l1 ++ l2) = Some a.
Proof. destruct l1; [discriminate | auto]. Qed.

Lemma head_rounds_step step lo hi fuel n st st' m :
  below n hi = true -> head (step st) = Some st' ->
  length (after st') < length (after st) ->
  head (rounds step lo hi fuel (S n) st') = Some m ->
  head (rounds step lo hi (S fuel) n st) = Some m.
Proof.
  intros Hb Hs Hl Hm. cbn [rounds]. rewrite Hb.
  destruct (step st) as [|a l]; [discriminate |]. injection Hs as ->.
  cbn [flat_map]. apply Nat.ltb_lt in Hl. rewrite Hl.
  rewrite <- app_assoc. now apply head_app_some.
Qed.

Lemma head_rounds_stop step lo h fuel st :
  lo <= h -> head (rounds step lo (Some h) fuel h st) = Some st.
Proof.
  intros Hlo. apply Nat.leb_le in Hlo.
  destruct fuel; cbn [rounds below]; rewrite ?Nat.ltb_irrefl, Hlo; reflexivity.
Qed.

(** Three rounds, each following its first choice. *)
Lemma head_exactly3 r st a b c :
  head (exec r st) = Some a -> length (after a) < length (after st) ->
  head (exec r a) = Some b -> length (after b) < length (after a) ->
  head (exec r b) = Some c -> length (after c) < length (after b) ->
  head (exec (exactly 3 r) st) = Some c.
Proof.
  intros Ha La Hb Lb Hc Lc. unfold exactly. cbn [exec].
  destruct (length (after st)) as [|[|[|f]]] eqn:E; try lia.
  eapply head_rounds_step; [reflexivity | exact Ha | lia |].
  eapply head_rounds_step; [reflexivity | exact Hb | lia |].
  eapply head_rounds_step; [reflexivity | exact Hc | lia |].
  now apply head_rounds_stop.
Qed.

(** ** The national-ID mask *)

Lemma digit_head_not_space s : p_head is_digit s = true -> p_head is_space s = false.
Proof. destruct s as [|c s]; [discriminate |]. apply digit_not_space. Qed.

Lemma match_at_grouped g1 w1 g2 w2 g3 :
  length g1 = 4 -> length g2 = 4 -> length g3 = 4 ->
  forallb is_digit g1 = true -> forallb is_digit g2 = true ->
  forallb is_digit g3 = true ->
  forallb is_space w1 = true -> forallb is_space w2 = true ->
  exists m, match_at RE_GROUPED [] (g1 ++ w1 ++ g2 ++ w2 ++ g3) = Some m
            /\ after m = [] /\ group m 1 = g1 /\ group m 2 = g2 /\ group m 3 = g3.
Proof.
  intros L1 L2 L3 D1 D2 D3 S1 S2.
  assert (Hd : forall g, forallb is_digit g = true -> forallb (cset_mem [Digits]) g = true).
  { intros g H. now rewrite (forallb_eq _ is_digit) by apply mem_digits. }
  assert (Hs : forall w, forallb is_space w = true -> forallb (cset_mem [Spaces]) w = true).
  { intros w H. now rewrite (forallb_eq _ is_space) by apply mem_spaces. }
  assert (Hsp : forall g t, length g = 4 -> forallb is_digit g = true ->
                  p_head (cset_mem [Spaces]) (g ++ t) = false).
  { intros g t L D. destruct g as [|c g]; [discriminate L |].
    cbn [app p_head]. rewrite mem_spaces. apply digit_not_space.
    simpl in D. now apply andb_prop in D. }
  assert (Hex : forall i b g t k, length g = 4 -> forallb is_digit g = true ->
            head (exec (Group i (exactly 4 digit)) (MState b (g ++ t) k))
            = Some (MState (rev g ++ b) t (set_cap i g k))).
  { intros i b g t k L D.
    assert (head (exec (exactly 4 digit) (MState b (g ++ t) k))
            = Some (MState (rev g ++ b) t k)) as H.
    { unfold digit. rewrite exec_exactly_chars. cbn [after].
      assert (4 <= prefix_len (cset_mem [Digits]) (g ++ t)) as H4.
      { rewrite (prefix_len_ext _ is_digit) by apply mem_digits.
        do 5 (destruct g as [|? g]; try discriminate L).
        cbn [forallb] in D. rewrite !andb_true_iff in D.
        destruct D as (E1 & E2 & E3 & E4 & _). cbn [app prefix_len].
        rewrite E1, E2, E3, E4. lia. }
      apply Nat.leb_le in H4. rewrite H4.
      cbn [head]. unfold advance. cbn [after before caps].
      rewrite <- L, take_app_length, drop_app_length. reflexivity. }
    rewrite (head_group _ _ _ _ _ _ _ _ H). do 3 f_equal.
    rewrite length_app. replace (length g + length t - length t) with (length g) by lia.
    apply take_app_length. }
  replace (g1 ++ w1 ++ g2 ++ w2 ++ g3) with (g1 ++ w1 ++ g2 ++ w2 ++ g3 ++ [])
    by now rewrite app_nil_r.
  eexists. split; [| split; [| split; [| split]]].
  - unfold match_at, RE_GROUPED.
    eapply head_cat; [apply head_notbehind; reflexivity |].
    eapply head_cat; [apply Hex; assumption |].
    eapply head_cat.
    { apply head_repeat_chars; [now apply Hs | now apply Hsp | lia | exact I]. }
    eapply head_cat; [apply Hex; assumption |].
    eapply head_cat.
    { apply head_repeat_chars; [now apply Hs | now apply Hsp | lia | exact I]. }
    eapply head_cat; [apply Hex; assumption |].
    apply head_notahead. reflexivity.
  - reflexivity.
  - reflexivity.
  - reflexivity.
  - reflexivity.
Qed.

Lemma digit_count_runs (p : ascii -> bool) s : forall cur,
  concat (runs p cur s) = cur ++ List.filter p s.
Proof.
  induction s as [|c s IH]; intros cur.
  - rewrite runs_nil. destruct cur; simpl; now rewrite ?app_nil_r.
  - destruct (p c) eqn:E.
    + rewrite runs_cons_p by exact E. rewrite IH. simpl. rewrite E.
      now rewrite <- app_assoc.
    + rewrite runs_cons_np by exact E. rewrite concat_app, IH. simpl. rewrite E.
      destruct cur; simpl; now rewrite ?app_nil_r.
Qed.

Lemma run_needs_digits n s :
  has_good is_digit (has_length n) [] s = true -> n <= length (List.filter is_digit s).
Proof.
  unfold has_good. rewrite existsb_exists. intros (t & Hin & Ht).
  apply Nat.eqb_eq in Ht. subst n.
  change (List.filter is_digit s) with ([] ++ List.filter is_digit s).
  rewrite <- digit_count_runs.
  destruct (List.in_split _ _ Hin) as (l1 & l2 & ->).
  rewrite concat_app, length_app. simpl. rewrite length_app. lia.
Qed.

(** The national-ID mask leaves no isolated run of twelve digits, and a
    text with fewer than twelve digits in all is left as it is. *)
Theorem aadhar_mask_leaves_no_run (s : text) :
  matches RE_AADHAR (mask_aadhar_digits s) = false
  /\ (length (List.filter is_digit s) < 12 -> mask_aadhar_digits s = s).
Proof.
  split; [apply mask_aadhar_complete |].
  intros Hn. rewrite mask_aadhar_unfold.
  assert (sub RE_GROUPED grouped_repl s = s) as ->.
  { apply sub_no_match. destruct (matches RE_GROUPED s) eqn:E; [| reflexivity].
    apply grouped_needs_twelve in E. lia. }
  apply sub_no_match. change RE_AADHAR with (isolated_run 12).
  rewrite matches_isolated_run by lia.
  destruct (has_good _ _ _ _) eqn:E; [| reflexivity].
  apply run_needs_digits in E. lia.
Qed.

(** A national ID written as three groups of four digits, with any white
    space or none between the groups, comes out as [XXXX XXXX] and its
    last group. *)
Theorem aadhar_mask_on_groups (g1 w1 g2 w2 g3 : text) :
  length g1 = 4 -> length g2 = 4 -> length g3 = 4 ->
  forallb is_digit (g1 ++ g2 ++ g3) = true ->
  forallb is_space (w1 ++ w2) = true ->
  mask_aadhar_digits (g1 ++ w1 ++ g2 ++ w2 ++ g3) = txt "XXXX XXXX " ++ g3.
Proof.
  intros L1 L2 L3 D W. rewrite !forallb_app in D, W.
  apply andb_prop in D. destruct D as [D1 D]. rewrite forallb_app in D.
  apply andb_prop in D. destruct D as [D2 D3].
  apply andb_prop in W. destruct W as [S1 S2].
  destruct (match_at_grouped g1 w1 g2 w2 g3) as (m & E & Ha & G1 & G2 & G3);
    try assumption.
  rewrite mask_aadhar_unfold.
  rewrite (sub_whole RE_GROUPED grouped_repl ltac:(simpl; lia) _ _ E Ha).
  unfold grouped_repl. rewrite G1, G2, G3.
  assert (Hd : forallb is_digit (g1 ++ g2 ++ g3) = true).
  { rewrite !forallb_app, D1, D2, D3. reflexivity. }
  rewrite <- (grouped_on_digits (g1 ++ g2 ++ g3)) at 1 by exact Hd.
  rewrite <- mask_aadhar_unfold, mask_aadhar_twelve_digits; [| | exact Hd].
  - f_equal. unfold lastn. rewrite !length_app, L1, L2, L3. simpl.
    rewrite app_assoc, drop_app_length'; [reflexivity |]. rewrite length_app. lia.
  - unfold has_length. rewrite !length_app, L1, L2, L3. reflexivity.
Qed.

Lemma aadhar_mask_on_groups_witness :
  mask_aadhar_digits (txt "1234" ++ txt "  " ++ txt "5678" ++ [] ++ txt "9012")
  = txt "XXXX XXXX " ++ txt "9012".
Proof.
  apply (aadhar_mask_on_groups (txt "1234") (txt "  ") (txt "5678") [] (txt "9012"));
    reflexivity.
Defined.

(** ** The IPv4 mask *)

Section Measure.
Variable p : ascii -> bool.
Variable r : regex.
Variable repl : mstate -> text.
Hypothesis consumes : 0 < min_len r.
Hypothesis hit : forall prev x rest m,
  x <> [] -> match_at r prev (x ++ rest) = Some m -> after m = rest ->
  length (List.filter p (repl m)) < length (List.filter p x)
  /\ length (repl m) <= length x.

(** Replacements that lose characters of a class: the substitution never
    gains any, and loses some as soon as the pattern is found. *)
Lemma sub_from_measure prev rest :
  length (List.filter p (sub_from r repl prev rest)) <= length (List.filter p rest)
  /\ length (sub_from r repl prev rest) <= length rest
  /\ (search_from r prev rest <> None ->
      length (List.filter p (sub_from r repl prev rest)) < length (List.filter p rest)).
Proof.
  apply (sub_from_ind r repl
           (fun prev rest out =>
              length (List.filter p out) <= length (List.filter p rest)
              /\ length out <= length rest
              /\ (search_from r prev rest <> None ->
                  length (List.filter p out) < length (List.filter p rest)))).
  - exact consumes.
  - intros prev'. split; [reflexivity |]. split; [reflexivity |].
    cbn [search_from]. destruct (match_at r prev' []) as [m|] eqn:E; [| congruence].
    apply match_at_consumes in E; [simpl in E; lia | exact consumes].
  - intros prev' c rest' out E (IH1 & IH2 & IH3).
    split; [| split].
    + simpl. destruct (p c); simpl; lia.
    + simpl. lia.
    + cbn [search_from]. rewrite E. intros H. specialize (IH3 H).
      simpl. destruct (p c); simpl; lia.
  - intros prev' x rest' m out Hx E Ha _ (IH1 & IH2 & _).
    destruct (hit _ _ _ _ Hx E Ha) as [H1 H2].
    rewrite !List.filter_app, !length_app. lia.
Qed.

Lemma sub_changes s : matches r s = true -> sub r repl s <> s.
Proof.
  unfold matches, search. intros H E.
  destruct (sub_from_measure [] s) as (_ & _ & H3).
  rewrite <- sub_sub_from, E in H3.
  destruct (search_from r [] s); [| discriminate].
  assert (Some m <> None) as Hn by discriminate. specialize (H3 Hn). lia.
Qed.

Lemma sub_not_longer s : length (sub r repl s) <= length s.
Proof. rewrite sub_sub_from. apply sub_from_measure. Qed.
End Measure.

Lemma filter_all (p : ascii -> bool) g : forallb p g = true -> List.filter p g = g.
Proof.
  induction g as [|c g IH]; simpl; [reflexivity |].
  intros Hg. apply andb_prop in Hg. destruct Hg as [-> Hg]. now rewrite IH.
Qed.

Lemma ip_hit prev x rest m :
  match_at RE_IPV4 prev (x ++ rest) = Some m -> after m = rest ->
  exists pre d4, x = pre ++ d4 /\ ip_repl m = pre ++ ["X"%char]
                 /\ 1 <= length d4 /\ forallb is_digit d4 = true.
Proof.
  intros E Ha.
  destruct (ipv4_shape _ _ _ E) as (d1 & d2 & d3 & d4 & Hsplit & Hd & _ & _ & G).
  rewrite Ha in Hsplit. apply app_inv_tail in Hsplit.
  exists (d1 ++ ["."%char] ++ d2 ++ ["."%char] ++ d3 ++ ["."%char]), d4.
  split; [exact Hsplit |]. split; [now apply (ip_repl_shape _ _ _ _ _ Hd) |].
  apply Hd. simpl. auto.
Qed.

Lemma match_at_ipv4 d1 d2 d3 d4 :
  (forall d, In d [d1; d2; d3; d4] ->
             1 <= length d <= 3 /\ forallb is_digit d = true) ->
  exists m,
    match_at RE_IPV4 []
      ((d1 ++ ["."%char] ++ d2 ++ ["."%char] ++ d3 ++ ["."%char]) ++ d4) = Some m
    /\ after m = []
    /\ group m 1 = (d1 ++ ["."%char] ++ d2 ++ ["."%char] ++ d3 ++ ["."%char]) ++ d4.
Proof.
  intros Hd.
  assert (Hoct : forall d b t k,
            1 <= length d <= 3 -> forallb is_digit d = true ->
            head (exec (Repeat 1 (Some 3) digit +> Chars [One "."%char])
                       (MState b (d ++ "."%char :: t) k))
            = Some (MState ("."%char :: rev d ++ b) t k)).
  { intros d b t k L D. eapply head_cat.
    - apply head_repeat_chars; [| reflexivity | lia | simpl; lia].
      now rewrite (forallb_eq _ is_digit) by apply mem_digits.
    - apply head_chars. reflexivity. }
  destruct (Hd d1) as [L1 D1]; [simpl; auto |].
  destruct (Hd d2) as [L2 D2]; [simpl; auto |].
  destruct (Hd d3) as [L3 D3]; [simpl; auto |].
  destruct (Hd d4) as [L4 D4]; [simpl; auto |].
  assert (Hw : forall d t, 1 <= length d -> forallb is_digit d = true ->
                 p_head is_word (d ++ t) = true).
  { intros d t L D. destruct d as [|c d]; [simpl in L; lia |].
    simpl in D. apply andb_prop in D. simpl. now apply digit_word. }
  rewrite <- !app_assoc. cbn [app].
  rewrite <- (app_nil_r d4).
  eexists. split; [| split].
  - unfold match_at, RE_IPV4.
    eapply head_cat.
    { apply head_bound. cbn [before after p_head]. rewrite Hw by (assumption || lia).
      reflexivity. }
    eapply head_cat.
    { apply head_group. eapply head_cat.
      - eapply head_exactly3.
        + apply Hoct; assumption.
        + cbn [after]. repeat first [rewrite length_app | rewrite length_cons]. lia.
        + apply Hoct; assumption.
        + cbn [after]. repeat first [rewrite length_app | rewrite length_cons]. lia.
        + apply Hoct; assumption.
        + cbn [after]. repeat first [rewrite length_app | rewrite length_cons]. lia.
      - apply head_repeat_chars; [| reflexivity | lia | simpl; lia].
        now rewrite (forallb_eq _ is_digit) by apply mem_digits. }
    apply head_bound. cbn [before after p_head].
    rewrite <- (rev_involutive (rev d4 ++ _)).
    destruct (rev d4) as [|c l] eqn:E4.
    { apply (f_equal (@length ascii)) in E4. rewrite length_rev in E4. simpl in E4. lia. }
    rewrite rev_involutive. cbn [app p_head].
    assert (In c d4) as Hin by (apply in_rev; rewrite E4; now left).
    rewrite forallb_forall in D4. rewrite (digit_word _ (D4 _ Hin)). reflexivity.
  - reflexivity.
  - unfold group. cbn [caps]. unfold get_cap, set_cap. cbn [find fst snd Nat.eqb].
    rewrite length_nil, Nat.sub_0_r. apply firstn_all.
Qed.

(** An address alone, four runs of one to three digits with dots between,
    comes out with its last run replaced by [X]; the runs are not checked
    against 255. *)
Theorem ip_mask_on_address (d1 d2 d3 d4 : text) :
  (forall d, In d [d1; d2; d3; d4] ->
             1 <= length d <= 3 /\ forallb is_digit d = true) ->
  mask_ip_in (d1 ++ txt "." ++ d2 ++ txt "." ++ d3 ++ txt "." ++ d4)
  = d1 ++ txt "." ++ d2 ++ txt "." ++ d3 ++ txt ".X".
Proof.
  intros Hd. destruct (match_at_ipv4 _ _ _ _ Hd) as (m & E & Ha & G).
  assert (Hd' : forall d, In d [d1; d2; d3; d4] ->
                  1 <= length d /\ forallb is_digit d = true).
  { intros d Hin. destruct (Hd d Hin). split; [lia | assumption]. }
  change (mask_ip_in ?s) with (sub RE_IPV4 ip_repl s).
  replace (d1 ++ txt "." ++ d2 ++ txt "." ++ d3 ++ txt "." ++ d4)
    with ((d1 ++ ["."%char] ++ d2 ++ ["."%char] ++ d3 ++ ["."%char]) ++ d4)
    by (rewrite <- !app_assoc; reflexivity).
  rewrite (sub_whole RE_IPV4 ip_repl ltac:(simpl; lia) _ _ E Ha).
  rewrite (ip_repl_shape _ _ _ _ _ Hd' G). rewrite <- !app_assoc. reflexivity.
Qed.

Lemma ip_mask_on_address_witness :
  mask_ip_in (txt "192" ++ txt "." ++ txt "168" ++ txt "." ++ txt "1" ++ txt "." ++ txt "999")
  = txt "192" ++ txt "." ++ txt "168" ++ txt "." ++ txt "1" ++ txt ".X".
Proof.
  apply (ip_mask_on_address (txt "192") (txt "168") (txt "1") (txt "999")).
  intros d [<- | [<- | [<- | [<- | []]]]]; (split; [simpl; lia | reflexivity]).
Defined.

(** The IPv4 mask changes exactly the texts in which the pattern is found,
    and never makes a text longer. *)
Theorem ip_mask_fixed_point (s : text) :
  (mask_ip_in s = s <-> matches RE_IPV4 s = false)
  /\ length (mask_ip_in s) <= length s.
Proof.
  assert (Hhit : forall prev x rest m,
            x <> [] -> match_at RE_IPV4 prev (x ++ rest) = Some m -> after m = rest ->
            length (List.filter is_digit (ip_repl m)) < length (List.filter is_digit x)
            /\ length (ip_repl m) <= length x).
  { intros prev x rest m _ E Ha.
    destruct (ip_hit _ _ _ _ E Ha) as (pre & d4 & -> & -> & L4 & D4).
    rewrite !List.filter_app, !length_app, (filter_all _ _ D4). simpl. lia. }
  change (mask_ip_in s) with (sub RE_IPV4 ip_repl s).
  split; [split |].
  - intros E. destruct (matches RE_IPV4 s) eqn:Hm; [| reflexivity].
    exfalso. revert E. apply (sub_changes is_digit); [simpl; lia | exact Hhit | exact Hm].
  - apply sub_no_match.
  - apply (sub_not_longer is_digit); [simpl; lia | exact Hhit].
Qed.

(** ** The name mask *)

Lemma concat_pieces chs : forall cur,
  concat (pieces 1 chs cur) = rev cur ++ flat_map (emit (fun m => group m 1)) chs.
Proof.
  induction chs as [|[c | m] chs IH]; intros cur.
  - simpl. now rewrite app_nil_r.
  - cbn [pieces flat_map emit]. rewrite IH. simpl. now rewrite <- app_assoc.
  - cbn [pieces flat_map emit seq map concat app]. rewrite IH. reflexivity.
Qed.

Lemma spaces_kept_hit prev x rest m :
  match_at RE_SPACES_KEPT prev (x ++ rest) = Some m -> after m = rest ->
  group m 1 = x /\ forallb is_space x = true.
Proof.
  intros E Ha. apply match_at_in in E. unfold RE_SPACES_KEPT in E.
  apply in_exec_group in E. destruct E as (m1 & g & H1 & S1 & S1' & C1).
  apply in_exec_repeat_chars in H1. destruct H1 as (g' & Sg & _ & Dg & Cg).
  pose proof (steps_inj _ _ _ _ S1' Sg) as <-.
  rewrite (forallb_eq _ is_space) in Dg by apply mem_spaces.
  destruct S1 as [Hs _]. cbn [after] in Hs. rewrite Ha in Hs.
  apply app_inv_tail in Hs. subst g.
  split; [| exact Dg]. unfold group. rewrite C1. reflexivity.
Qed.

(** Splitting on white space and keeping the separators loses nothing. *)
Lemma concat_split_kept s : concat (split RE_SPACES_KEPT s) = s.
Proof.
  unfold split, scan. cbn [ngroups]. rewrite concat_pieces. cbn [rev app].
  change (flat_map (emit (fun m => group m 1)) (scan_from RE_SPACES_KEPT [] s 0))
    with (sub_from RE_SPACES_KEPT (fun m => group m 1) [] s).
  apply (sub_from_fixed RE_SPACES_KEPT (fun m => group m 1) ltac:(simpl; lia)
           (fun _ => True)); auto.
  intros prev x rest m _ E Ha. now apply spaces_kept_hit in E.
Qed.

Lemma mem_name_head c : cset_mem [upper; lower] c = is_letter c.
Proof. by_char c. Qed.

Lemma mem_name_tail c :
  cset_mem [upper; lower; One "."; One "'"; One "-"]%char c = name_char c.
Proof. by_char c. Qed.

(** A name token is a letter followed by letters, dots, apostrophes and
    hyphens. *)
Lemma name_token_shape t :
  is_name_token t = true ->
  exists c g, t = c :: g /\ is_letter c = true /\ forallb name_char g = true.
Proof.
  unfold is_name_token, fullmatch.
  destruct (find _ _) as [m|] eqn:E; [| discriminate]. intros _.
  apply find_some in E. destruct E as [Hin Hend].
  destruct (after m) as [|? ?] eqn:Ha; [| discriminate].
  unfold RE_NAME_TOKEN in Hin.
  apply in_exec_cat in Hin. destruct Hin as (m1 & H1 & H2).
  apply in_exec_chars in H1. destruct H1 as (c & S1 & Hc & _).
  apply in_exec_repeat_chars in H2. destruct H2 as (g & S2 & _ & Dg & _).
  destruct (steps_trans _ _ _ _ _ S1 S2) as [Hs _]. cbn [after] in Hs.
  rewrite Ha, app_nil_r in Hs.
  exists c, g. split; [exact Hs |]. split.
  - now rewrite <- mem_name_head.
  - now rewrite (forallb_eq _ name_char) in Dg by apply mem_name_tail.
Qed.

Lemma mask_name_unfold s :
  mask_name_full s = concat (map mask_piece (split RE_SPACES_KEPT s)).
Proof. reflexivity. Qed.

Lemma mask_piece_overwrites t : overwrites name_char t (mask_piece t).
Proof.
  unfold mask_piece. destruct (isspace t); [apply overwrites_refl |].
  destruct (is_name_token t) eqn:E; [| apply overwrites_refl].
  destruct (name_token_shape _ E) as (c & g & -> & _ & Dg).
  replace (Nat.max 0 (length (c :: g) - 1)) with (length g) by (simpl; lia).
  change (take 1 (c :: g)) with [c]. change (c :: g) with ([c] ++ g) at 1.
  apply overwrites_app; [apply overwrites_refl | now apply overwrites_xs].
Qed.

Lemma name_char_not_space c : name_char c = true -> is_space c = false.
Proof. by_char c. Qed.

Lemma name_overwrites s : overwrites name_char s (mask_name_full s).
Proof.
  rewrite mask_name_unfold. rewrite <- (concat_split_kept s) at 1.
  apply overwrites_concat. intros t _. apply mask_piece_overwrites.
Qed.

Lemma overwrites_spaces s t :
  overwrites name_char s t -> map is_space t = map is_space s.
Proof.
  intros H. induction H as [|c d s' t' Hcd _ IH]; [reflexivity |].
  simpl. rewrite IH. f_equal.
  destruct Hcd as [-> | [-> Hc]]; [reflexivity |].
  rewrite (name_char_not_space _ Hc). reflexivity.
Qed.

(** The name mask writes [X] in place, over letters, dots, apostrophes and
    hyphens only: the length of the text is kept, and every white-space
    character, digit and other sign stays where it was. *)
Theorem name_mask_overwrites (s : text) :
  overwrites name_char s (mask_name_full s)
  /\ length (mask_name_full s) = length s
  /\ map is_space (mask_name_full s) = map is_space s.
Proof.
  pose proof (name_overwrites s) as H.
  split; [exact H |]. split; [eapply overwrites_length, H |].
  now apply overwrites_spaces.
Qed.

(** ** Splitting on white space *)

Lemma starts_np_head (p : ascii -> bool) s : starts_np p s -> p_head p s = false.
Proof. destruct s; [reflexivity | exact id]. Qed.

Lemma text_cases (s : text) :
  no_space s = true
  \/ exists u g rest,
       s = u ++ g ++ rest /\ no_space u = true /\ g <> []
       /\ forallb is_space g = true /\ p_head is_space rest = false.
Proof.
  pose proof (prefix_app_drop (fun c => negb (is_space c)) s) as Hs.
  pose proof (prefix_all (fun c => negb (is_space c)) s) as Hu.
  pose proof (drop_prefix_starts_np (fun c => negb (is_space c)) s) as Hr.
  remember (prefix (fun c => negb (is_space c)) s) as u eqn:Eu.
  remember (drop (length u) s) as s1 eqn:E1.
  destruct s1 as [|c s1'].
  - left. rewrite app_nil_r in Hs. now rewrite <- Hs.
  - right. simpl in Hr. apply negb_false_iff in Hr.
    pose proof (prefix_app_drop is_space (c :: s1')) as Hs1.
    pose proof (prefix_all is_space (c :: s1')) as Hg.
    pose proof (drop_prefix_starts_np is_space (c :: s1')) as Hr2.
    apply starts_np_head in Hr2.
    remember (prefix is_space (c :: s1')) as g eqn:Eg.
    exists u, g, (drop (length g) (c :: s1')).
    split; [now rewrite Hs1 |]. split; [exact Hu |].
    split; [| split; [exact Hg | exact Hr2]].
    subst g. simpl. rewrite Hr. discriminate.
Qed.

Section SpaceSplit.
Variable r : regex.
Hypothesis r_consumes : 0 < min_len r.
Hypothesis r_none : forall prev c s,
  is_space c = false -> match_at r prev (c :: s) = None.
Hypothesis r_some : forall prev g rest,
  g <> [] -> forallb is_space g = true -> p_head is_space rest = false ->
  exists m, match_at r prev (g ++ rest) = Some m /\ after m = rest
            /\ map (group m) (seq 1 (ngroups r)) = map (fun _ => g) (seq 1 (ngroups r)).

Lemma scan_from_hit prev x rest m :
  match_at r prev (x ++ rest) = Some m -> after m = rest ->
  scan_from r prev (x ++ rest) 0 = Hit m :: scan_from r (rev x ++ prev) rest 0.
Proof.
  intros E Ha.
  pose proof (match_at_consumes _ _ _ _ r_consumes E) as Hlt.
  rewrite Ha, length_app in Hlt.
  destruct x as [|c x]; [simpl in Hlt; lia |].
  cbn [app scan_from]. cbn [app] in E. rewrite E, Ha.
  replace (length (c :: x ++ rest) - length rest) with (S (length x))
    by (simpl; rewrite length_app; lia).
  rewrite scan_skip. cbn [rev]. now rewrite <- app_assoc.
Qed.

Lemma scan_from_word u : forall prev rest,
  no_space u = true ->
  scan_from r prev (u ++ rest) 0 = map Lit u ++ scan_from r (rev u ++ prev) rest 0.
Proof.
  induction u as [|c u IH]; intros prev rest Hu; [reflexivity |].
  cbn [no_space forallb] in Hu. apply andb_prop in Hu. destruct Hu as [Hc Hu].
  apply negb_true_iff in Hc.
  cbn [app scan_from map]. rewrite (r_none _ _ _ Hc).
  rewrite (IH _ _ Hu). cbn [rev]. now rewrite <- app_assoc.
Qed.

Lemma pieces_lits n u : forall chs cur,
  pieces n (map Lit u ++ chs) cur = pieces n chs (rev u ++ cur).
Proof.
  induction u as [|c u IH]; intros chs cur; [reflexivity |].
  cbn [map app pieces]. rewrite IH. cbn [rev]. now rewrite <- app_assoc.
Qed.

Lemma scan_from_end prev : scan_from r prev [] 0 = [].
Proof.
  cbn [scan_from]. destruct (match_at r prev []) as [m|] eqn:E; [| reflexivity].
  apply match_at_consumes in E; [simpl in E; lia | exact r_consumes].
Qed.

(** A text without white space is one piece. *)
Lemma pieces_word prev u cur :
  no_space u = true ->
  pieces (ngroups r) (scan_from r prev u 0) cur = [rev cur ++ u].
Proof.
  intros Hu. rewrite <- (app_nil_r u) at 1.
  rewrite scan_from_word by exact Hu. rewrite scan_from_end, app_nil_r.
  rewrite <- (app_nil_r (map Lit u)), pieces_lits. cbn [pieces].
  now rewrite rev_app_distr, rev_involutive.
Qed.

(** The first word, the white space after it, and the pieces of the
    rest. *)
Lemma pieces_step prev u g rest cur :
  no_space u = true -> g <> [] -> forallb is_space g = true ->
  p_head is_space rest = false ->
  pieces (ngroups r) (scan_from r prev (u ++ g ++ rest) 0) cur
  = (rev cur ++ u) :: map (fun _ => g) (seq 1 (ngroups r))
      ++ pieces (ngroups r) (scan_from r (rev g ++ rev u ++ prev) rest 0) [].
Proof.
  intros Hu Hg Hsp Hr. rewrite scan_from_word by exact Hu.
  destruct (r_some (rev u ++ prev) g rest Hg Hsp Hr) as (m & E & Ha & Hgr).
  rewrite (scan_from_hit _ _ _ _ E Ha), pieces_lits. cbn [pieces].
  rewrite rev_app_distr, rev_involutive, Hgr. reflexivity.
Qed.
End SpaceSplit.

Lemma spaces_none prev c s :
  is_space c = false ->
  exec (Repeat 1 None (Chars [Spaces])) (MState prev (c :: s) []) = [].
Proof.
  intros Hc. rewrite exec_repeat_chars. cbn [after prefix_len].
  rewrite mem_spaces, Hc. reflexivity.
Qed.

Lemma spaces_some prev g rest :
  g <> [] -> forallb is_space g = true -> p_head is_space rest = false ->
  head (exec (Repeat 1 None (Chars [Spaces])) (MState prev (g ++ rest) []))
  = Some (MState (rev g ++ prev) rest []).
Proof.
  intros Hg Hsp Hr. apply head_repeat_chars.
  - now rewrite (forallb_eq _ is_space) by apply mem_spaces.
  - destruct rest as [|c rest]; [reflexivity |]. cbn [p_head] in *. now rewrite mem_spaces.
  - destruct g; [congruence | simpl; lia].
  - exact I.
Qed.

Lemma kept_none prev c s :
  is_space c = false -> match_at RE_SPACES_KEPT prev (c :: s) = None.
Proof.
  intros Hc. unfold match_at, RE_SPACES_KEPT. cbn [exec].
  change (rounds _ _ _ _ _ _)
    with (exec (Repeat 1 None (Chars [Spaces])) (MState prev (c :: s) [])).
  now rewrite spaces_none.
Qed.

Lemma kept_some prev g rest :
  g <> [] -> forallb is_space g = true -> p_head is_space rest = false ->
  exists m, match_at RE_SPACES_KEPT prev (g ++ rest) = Some m /\ after m = rest
            /\ map (group m) (seq 1 (ngroups RE_SPACES_KEPT))
               = map (fun _ => g) (seq 1 (ngroups RE_SPACES_KEPT)).
Proof.
  intros Hg Hsp Hr. pose proof (spaces_some prev g rest Hg Hsp Hr) as H.
  eexists. split; [| split].
  - unfold match_at, RE_SPACES_KEPT. apply head_group. exact H.
  - reflexivity.
  - unfold RE_SPACES_KEPT. cbn [ngroups seq map]. f_equal. unfold group. cbn [caps].
    unfold get_cap, set_cap. cbn [find fst snd Nat.eqb].
    rewrite length_app. replace (length g + length rest - length rest) with (length g) by lia.
    apply take_app_length.
Qed.

Lemma plain_none prev c s :
  is_space c = false -> match_at RE_SPACES prev (c :: s) = None.
Proof.
  intros Hc. unfold match_at, RE_SPACES. now rewrite spaces_none.
Qed.

Lemma plain_some prev g rest :
  g <> [] -> forallb is_space g = true -> p_head is_space rest = false ->
  exists m, match_at RE_SPACES prev (g ++ rest) = Some m /\ after m = rest
            /\ map (group m) (seq 1 (ngroups RE_SPACES))
               = map (fun _ => g) (seq 1 (ngroups RE_SPACES)).
Proof.
  intros Hg Hsp Hr. pose proof (spaces_some prev g rest Hg Hsp Hr) as H.
  eexists. split; [| split].
  - unfold match_at, RE_SPACES. exact H.
  - reflexivity.
  - reflexivity.
Qed.

(** ** A second pass of the name mask *)

Lemma isspace_spaces g : g <> [] -> forallb is_space g = true -> isspace g = true.
Proof. intros Hg H. destruct g; [congruence | exact H]. Qed.

Lemma mask_piece_space g :
  g <> [] -> forallb is_space g = true -> mask_piece g = g.
Proof. intros Hg H. unfold mask_piece. now rewrite isspace_spaces. Qed.

Lemma mask_from_word prev u :
  no_space u = true -> mask_name_from prev u = mask_piece u.
Proof.
  intros Hu. unfold mask_name_from.
  change (pieces 1) with (pieces (ngroups RE_SPACES_KEPT)).
  rewrite (pieces_word RE_SPACES_KEPT ltac:(simpl; lia) kept_none prev u [] Hu).
  simpl. apply app_nil_r.
Qed.

Lemma mask_from_step prev u g rest :
  no_space u = true -> g <> [] -> forallb is_space g = true ->
  p_head is_space rest = false ->
  mask_name_from prev (u ++ g ++ rest)
  = mask_piece u ++ g ++ mask_name_from (rev g ++ rev u ++ prev) rest.
Proof.
  intros Hu Hg Hsp Hr. unfold mask_name_from.
  change (pieces 1) with (pieces (ngroups RE_SPACES_KEPT)).
  rewrite (pieces_step RE_SPACES_KEPT ltac:(simpl; lia) kept_none kept_some
             prev u g rest [] Hu Hg Hsp Hr).
  cbn [ngroups RE_SPACES_KEPT seq map app rev concat].
  now rewrite (mask_piece_space g Hg Hsp).
Qed.

(** Where the scan starts makes no difference to the name mask. *)
Lemma mask_from_any s : forall prev, mask_name_from prev s = mask_name_full s.
Proof.
  remember (length s) as n eqn:Hn. revert s Hn.
  induction n as [n IH] using lt_wf_ind. intros s Hn prev.
  change (mask_name_full s) with (mask_name_from [] s).
  destruct (text_cases s) as [Hu | (u & g & rest & -> & Hu & Hg & Hsp & Hr)].
  - now rewrite !mask_from_word.
  - rewrite !mask_from_step by assumption. do 2 f_equal.
    assert (length rest < n) as Hlt.
    { subst n. rewrite !length_app. destruct g; [congruence | simpl; lia]. }
    rewrite (IH _ Hlt rest eq_refl), (IH _ Hlt rest eq_refl (rev g ++ rev u ++ [])).
    reflexivity.
Qed.

Lemma mask_word u : no_space u = true -> mask_name_full u = mask_piece u.
Proof. intros Hu. rewrite <- (mask_from_any u []). now apply mask_from_word. Qed.

Lemma mask_step u g rest :
  no_space u = true -> g <> [] -> forallb is_space g = true ->
  p_head is_space rest = false ->
  mask_name_full (u ++ g ++ rest) = mask_piece u ++ g ++ mask_name_full rest.
Proof.
  intros Hu Hg Hsp Hr. rewrite <- (mask_from_any _ []).
  rewrite mask_from_step by assumption. now rewrite mask_from_any.
Qed.

Lemma no_space_map u : no_space u = forallb negb (map is_space u).
Proof. unfold no_space. induction u as [|c u IH]; simpl; [reflexivity | now rewrite IH]. Qed.

Lemma p_head_map (p : ascii -> bool) s :
  p_head p s = match map p s with b :: _ => b | [] => false end.
Proof. destruct s; reflexivity. Qed.

Lemma mask_piece_spaces t : map is_space (mask_piece t) = map is_space t.
Proof. apply overwrites_spaces, mask_piece_overwrites. Qed.

Lemma letter_name_char c : is_letter c = true -> name_char c = true.
Proof. by_char c. Qed.

(** A letter followed by name characters is a name token. *)
Lemma name_token_intro c g :
  is_letter c = true -> forallb name_char g = true -> is_name_token (c :: g) = true.
Proof.
  intros Hc Hg. unfold is_name_token, fullmatch.
  assert (exists l, exec RE_NAME_TOKEN (MState [] (c :: g) [])
                    = MState (rev g ++ [c]) [] [] :: l) as [l ->].
  { unfold RE_NAME_TOKEN. cbn [exec after before caps].
    rewrite mem_name_head, Hc. cbn [flat_map]. rewrite app_nil_r.
    change (rounds _ _ _ _ _ _)
      with (exec (Repeat 0 None (Chars [upper; lower; One "."%char; One "'"%char; One "-"%char]))
                 (MState [c] g [])).
    pose proof (head_repeat_chars 0 None
                  [upper; lower; One "."%char; One "'"%char; One "-"%char] [c] g [] []) as H.
    rewrite app_nil_r in H.
    destruct (exec _ _) as [|a l]; [discriminate H; auto; try lia |].
    - now rewrite (forallb_eq _ name_char) by apply mem_name_tail.
    - exists l. f_equal. assert (Some a = Some (MState (rev g ++ [c]) [] [])) as Ha.
      { apply H; [| reflexivity | lia | exact I].
        now rewrite (forallb_eq _ name_char) by apply mem_name_tail. }
      now injection Ha. }
  reflexivity.
Qed.

Lemma letter_not_space c : is_letter c = true -> is_space c = false.
Proof. by_char c. Qed.

Lemma mask_piece_token c g :
  is_letter c = true -> forallb name_char g = true ->
  mask_piece (c :: g) = c :: xs (length g).
Proof.
  intros Hc Hg. unfold mask_piece.
  assert (isspace (c :: g) = false) as ->.
  { cbn [isspace forallb]. now rewrite (letter_not_space _ Hc). }
  rewrite name_token_intro by assumption.
  replace (Nat.max 0 (length (c :: g) - 1)) with (length g) by (simpl; lia).
  reflexivity.
Qed.

Lemma mask_piece_idem t : mask_piece (mask_piece t) = mask_piece t.
Proof.
  destruct (isspace t) eqn:Es; [| destruct (is_name_token t) eqn:En].
  - assert (mask_piece t = t) as E by (unfold mask_piece; now rewrite Es).
    now rewrite !E.
  - destruct (name_token_shape _ En) as (c & g & -> & Hc & Hg).
    rewrite (mask_piece_token c g Hc Hg).
    rewrite mask_piece_token; [| exact Hc | now apply forallb_xs].
    now rewrite length_xs.
  - assert (mask_piece t = t) as E by (unfold mask_piece; now rewrite Es, En).
    now rewrite !E.
Qed.

(** Masking a masked name changes nothing. *)
Theorem name_mask_idempotent (s : text) :
  mask_name_full (mask_name_full s) = mask_name_full s.
Proof.
  remember (length s) as n eqn:Hn. revert s Hn.
  induction n as [n IH] using lt_wf_ind. intros s Hn.
  destruct (text_cases s) as [Hu | (u & g & rest & -> & Hu & Hg & Hsp & Hr)].
  - rewrite (mask_word s Hu). rewrite mask_word.
    + apply mask_piece_idem.
    + rewrite no_space_map, mask_piece_spaces, <- no_space_map. exact Hu.
  - rewrite (mask_step u g rest Hu Hg Hsp Hr).
    assert (length rest < n) as Hlt.
    { subst n. rewrite !length_app. destruct g; [congruence | simpl; lia]. }
    rewrite mask_step; [| | exact Hg | exact Hsp |].
    + rewrite mask_piece_idem, (IH _ Hlt rest eq_refl). reflexivity.
    + rewrite no_space_map, mask_piece_spaces, <- no_space_map. exact Hu.
    + rewrite p_head_map, (overwrites_spaces _ _ (name_overwrites rest)).
      now rewrite <- p_head_map.
Qed.

(** A first name and a last name: each keeps its initial. *)
Theorem name_mask_on_two_words (c1 c2 : ascii) (g1 w g2 : text) :
  is_letter c1 = true -> forallb name_char g1 = true ->
  is_letter c2 = true -> forallb name_char g2 = true ->
  w <> [] -> forallb is_space w = true ->
  mask_name_full ((c1 :: g1) ++ w ++ (c2 :: g2))
  = (c1 :: xs (length g1)) ++ w ++ (c2 :: xs (length g2)).
Proof.
  intros H1 G1 H2 G2 Hw Hsp.
  assert (Hn : forall c g, is_letter c = true -> forallb name_char g = true ->
                 no_space (c :: g) = true).
  { intros c g Hc Hg. unfold no_space. cbn [forallb].
    rewrite (letter_not_space _ Hc). cbn [negb andb].
    rewrite forallb_forall in Hg |- *. intros x Hx.
    now rewrite (name_char_not_space _ (Hg x Hx)). }
  rewrite mask_step; [| now apply Hn | exact Hw | exact Hsp |].
  - rewrite mask_word by now apply Hn.
    now rewrite !mask_piece_token by assumption.
  - cbn [p_head]. now apply letter_not_space.
Qed.

Lemma name_mask_on_two_words_witness :
  mask_name_full (txt "John" ++ txt "  " ++ txt "O'Neil-Smith")
  = txt "JXXX" ++ txt "  " ++ txt "OXXXXXXXXXXX".
Proof.
  apply (name_mask_on_two_words "J" "O" (txt "ohn") (txt "  ") (txt "'Neil-Smith"));
    first [reflexivity | discriminate].
Defined.

(** * The utilities *)

(** ** [looks_like_full_name] *)

Lemma dropwhile_spaces pad t :
  forallb is_space pad = true -> p_head is_space t = false ->
  dropwhile is_space (pad ++ t) = t.
Proof.
  induction pad as [|c pad IH]; simpl; intros Hp Ht.
  - destruct t as [|c t]; [reflexivity |]. simpl in *. now rewrite Ht.
  - apply andb_prop in Hp. destruct Hp as [-> Hp]. now apply IH.
Qed.

(** [strip] takes the white space off both ends. *)
Lemma strip_padded pad1 core pad2 :
  forallb is_space pad1 = true -> forallb is_space pad2 = true ->
  p_head is_space core = false -> p_head is_space (rev core) = false ->
  core <> [] ->
  strip (pad1 ++ core ++ pad2) = core.
Proof.
  intros H1 H2 Hh Hl Hc. unfold strip, strip_by.
  rewrite dropwhile_spaces; [| exact H1 |].
  2:{ destruct core; [congruence | exact Hh]. }
  rewrite rev_app_distr, dropwhile_spaces; [apply rev_involutive | | exact Hl].
  rewrite forallb_forall in H2 |- *. intros x Hx. apply H2. now apply in_rev.
Qed.

Lemma strip_no_space s : no_space s = true -> strip s = s.
Proof.
  intros H. destruct s as [|c s]; [reflexivity |].
  rewrite <- (app_nil_r (c :: s)) at 1.
  change ((c :: s) ++ []) with ([] ++ (c :: s) ++ []).
  apply strip_padded; try reflexivity; [| | discriminate].
  - unfold no_space in H. simpl in H. apply andb_prop in H.
    cbn [p_head]. now apply negb_true_iff.
  - destruct (rev (c :: s)) as [|d l] eqn:E; [reflexivity |].
    cbn [p_head]. unfold no_space in H. rewrite forallb_forall in H.
    apply negb_true_iff, H, in_rev. rewrite E. now left.
Qed.

Lemma split_plain_word u : no_space u = true -> split RE_SPACES u = [u].
Proof.
  intros Hu. unfold split, scan.
  now rewrite (pieces_word RE_SPACES ltac:(simpl; lia) plain_none [] u [] Hu).
Qed.

Lemma split_plain_two u g v :
  no_space u = true -> g <> [] -> forallb is_space g = true ->
  no_space v = true -> v <> [] ->
  split RE_SPACES (u ++ g ++ v) = [u; v].
Proof.
  intros Hu Hg Hsp Hv Hne. unfold split, scan.
  rewrite (pieces_step RE_SPACES ltac:(simpl; lia) plain_none plain_some [] u g v []);
    try assumption.
  - cbn [ngroups RE_SPACES seq map app rev].
    now rewrite (pieces_word RE_SPACES ltac:(simpl; lia) plain_none _ v [] Hv).
  - destruct v as [|c v]; [congruence |]. unfold no_space in Hv. simpl in Hv.
    apply andb_prop in Hv. cbn [p_head]. now apply negb_true_iff.
Qed.

(** A value that is empty or false, and a text without white space, never
    look like a full name: it takes two words. *)
Theorem full_name_needs_two_words :
  (forall v, truthy v = false -> looks_like_full_name v = false)
  /\ (forall s, no_space s = true -> looks_like_full_name (VStr s) = false).
Proof.
  split.
  - intros v H. unfold looks_like_full_name, or_empty. rewrite H. reflexivity.
  - intros s Hs. unfold looks_like_full_name, or_empty.
    destruct (truthy (VStr s)); [| reflexivity]. cbn [py_str].
    rewrite (strip_no_space s Hs), (split_plain_word s Hs).
    cbn [List.filter]. destruct s; cbn [List.filter]; [reflexivity |].
    destruct (is_name_token _); reflexivity.
Qed.

(** Two name words with white space between them, whatever white space
    surrounds them, look like a full name. *)
Theorem two_name_words_look_full (c1 c2 : ascii) (g1 w g2 pad1 pad2 : text) :
  is_letter c1 = true -> forallb name_char g1 = true ->
  is_letter c2 = true -> forallb name_char g2 = true ->
  w <> [] -> forallb is_space (pad1 ++ w ++ pad2) = true ->
  looks_like_full_name (VStr (pad1 ++ ((c1 :: g1) ++ w ++ (c2 :: g2)) ++ pad2)) = true.
Proof.
  intros H1 G1 H2 G2 Hw Hsp.
  rewrite forallb_app in Hsp. apply andb_prop in Hsp. destruct Hsp as [P1 Hsp].
  rewrite forallb_app in Hsp. apply andb_prop in Hsp. destruct Hsp as [Hsw P2].
  assert (Hn : forall c g, is_letter c = true -> forallb name_char g = true ->
                 no_space (c :: g) = true).
  { intros c g Hc Hg. unfold no_space. cbn [forallb].
    rewrite (letter_not_space _ Hc). cbn [negb andb].
    rewrite forallb_forall in Hg |- *. intros x Hx.
    now rewrite (name_char_not_space _ (Hg x Hx)). }
  unfold looks_like_full_name, or_empty.
  assert (truthy (VStr (pad1 ++ ((c1 :: g1) ++ w ++ c2 :: g2) ++ pad2)) = true) as ->.
  { cbn [truthy]. destruct pad1; reflexivity. }
  cbn [py_str]. rewrite strip_padded; try assumption.
  - rewrite split_plain_two; try (now apply Hn); try assumption; [| discriminate].
    cbn [List.filter]. rewrite !name_token_intro by assumption. reflexivity.
  - cbn [app p_head]. now apply letter_not_space.
  - rewrite !rev_app_distr. cbn [rev].
    destruct (rev g2) as [|d l] eqn:E; cbn [app p_head].
    + now apply letter_not_space.
    + apply name_char_not_space. rewrite forallb_forall in G2. apply G2.
      apply in_rev. rewrite E. now left.
  - discriminate.
Qed.

Lemma two_name_words_look_full_witness :
  looks_like_full_name
    (VStr (txt " " ++ (txt "Mary-Ann" ++ txt " " ++ txt "O'Hara") ++ txt "  ")) = true.
Proof.
  apply (two_name_words_look_full "M" "O" (txt "ary-Ann") (txt " ") (txt "'Hara")
           (txt " ") (txt "  "));
    first [reflexivity | discriminate].
Defined.

(** * Counting the signals *)

Lemma get_seen (rec : record) (k : string) (F : value -> bool) :
  truthy (get rec k) && F (get rec k) = truthy (seen rec k) && F (seen rec k).
Proof. unfold seen. destruct (truthy (get rec k)) eqn:E; [now rewrite E | reflexivity]. Qed.

Lemma truthy_seen (rec : record) (k : string) :
  truthy (get rec k) = truthy (seen rec k).
Proof. unfold seen. destruct (truthy (get rec k)) eqn:E; [now rewrite E | reflexivity]. Qed.

Lemma role_key (k : string) :
  In k ["name"; "first_name"; "last_name"; "email"; "username"; "address";
        "city"; "state"; "pin_code"; "device_id"; "ip_address"]%string ->
  k ∈ B_ROLE_KEYS.
Proof.
  intros H.
  repeat (destruct H as [<- | H];
          [apply (proj1 (bool_decide_eq_true _)); vm_compute; reflexivity |]).
  destruct H.
Qed.

Lemma role_key_inv (k : string) :
  k ∈ B_ROLE_KEYS ->
  In k ["name"; "first_name"; "last_name"; "email"; "username"; "address";
        "city"; "state"; "pin_code"; "device_id"; "ip_address"]%string.
Proof.
  unfold B_ROLE_KEYS, B_NAME_KEYS, B_FIRST, B_LAST, B_EMAIL_KEYS, B_ADDRESS_KEYS,
    B_ADDR_PARTS, B_DEVICE_KEYS, B_IP_KEYS.
  rewrite !elem_of_union, !elem_of_singleton. simpl. intuition.
Qed.

Lemma count_b_signals_seen (rec : record) :
  count_b_signals rec
  = (let name :=
       if truthy (seen rec "name") && looks_like_full_name (seen rec "name") then true
       else if truthy (seen rec "first_name") && truthy (seen rec "last_name") then true
       else false in
     let email :=
       truthy (seen rec "username") && valid_email (seen rec "username")
       || truthy (seen rec "email") && valid_email (seen rec "email") in
     let addr_parts :=
       length (List.filter id [truthy (seen rec "state"); truthy (seen rec "city");
                               truthy (seen rec "pin_code")]) in
     let has_addr_field := truthy (seen rec "address") in
     let address := has_addr_field || (2 <=? addr_parts) in
     let device_or_ip :=
       truthy (seen rec "device_id")
       || truthy (seen rec "ip_address")
          && matches RE_IPV4 (py_str (seen rec "ip_address")) in
     let fl := Flags name email address device_or_ip in
     (count_true fl, fl, addr_parts, has_addr_field)).
Proof.
  unfold count_b_signals.
  assert (elements B_EMAIL_KEYS = ["username"; "email"]%string) as ->
    by (vm_compute; reflexivity).
  assert (elements B_ADDR_PARTS = ["state"; "city"; "pin_code"]%string) as ->
    by (vm_compute; reflexivity).
  assert (elements B_DEVICE_KEYS = ["device_id"]%string) as ->
    by (vm_compute; reflexivity).
  unfold B_FIRST, B_LAST. cbn [existsb List.filter].
  rewrite (get_seen rec "name" looks_like_full_name).
  rewrite (get_seen rec "username" valid_email), (get_seen rec "email" valid_email).
  change (match search RE_IPV4 (py_str (get rec "ip_address")) with
          | Some _ => true
          | None => false
          end) with (matches RE_IPV4 (py_str (get rec "ip_address"))).
  rewrite (get_seen rec "ip_address" (fun v => matches RE_IPV4 (py_str v))).
  rewrite !truthy_seen, !orb_false_r. cbv zeta.
  assert (Hf : forall a b c : bool,
            length (if a then "state"%string
                              :: (if b then "city"%string
                                            :: (if c then ["pin_code"%string] else [])
                                  else if c then ["pin_code"%string] else [])
                    else if b then "city"%string
                                     :: (if c then ["pin_code"%string] else [])
                         else if c then ["pin_code"%string] else [])
            = length (List.filter id [a; b; c])).
  { intros [] [] []; reflexivity. }
  rewrite Hf. reflexivity.
Qed.

(** The signals are a function of the role fields whose values are true
    in Python's sense. *)
Lemma signals_seen (r1 r2 : record) :
  (forall k, k ∈ B_ROLE_KEYS -> seen r1 k = seen r2 k) ->
  count_b_signals r1 = count_b_signals r2.
Proof.
  intros H. rewrite !count_b_signals_seen.
  rewrite !(H "name"%string), !(H "first_name"%string), !(H "last_name"%string),
    !(H "username"%string), !(H "email"%string), !(H "state"%string),
    !(H "city"%string), !(H "pin_code"%string), !(H "address"%string),
    !(H "device_id"%string), !(H "ip_address"%string)
    by (apply role_key; simpl; tauto).
  reflexivity.
Qed.

Lemma signals_insert_other (obj : record) (k : string) (v : value) :
  k ∉ B_ROLE_KEYS -> count_b_signals (<[k := v]> obj) = count_b_signals obj.
Proof.
  intros Hk. apply signals_seen. intros k' Hk'. unfold seen, get.
  rewrite lookup_insert_ne by (intros ->; contradiction). reflexivity.
Qed.

Lemma signals_insert_falsy (obj : record) (k : string) (v : value) :
  truthy v = false -> count_b_signals (<[k := v]> obj) = count_b_signals (delete k obj).
Proof.
  intros Hv. apply signals_seen. intros k' _. unfold seen, get.
  destruct (decide (k' = k)) as [-> | Hne].
  - rewrite lookup_insert_eq, lookup_delete_eq. simpl. now rewrite Hv.
  - now rewrite lookup_insert_ne, lookup_delete_ne by congruence.
Qed.

(** The signal count, the flags and the address figures depend on the
    record only through the eleven role fields, and through those only
    where the value is true in Python's sense: a role field holding
    [None], an empty text, zero or [False] counts as a missing one. *)
Theorem signals_depend_on_role_fields (r1 r2 : record) :
  (forall k, k ∈ B_ROLE_KEYS -> seen r1 k = seen r2 k) ->
  count_b_signals r1 = count_b_signals r2.
Proof.
  intros H. apply signals_seen. intros k Hk.
  apply role_key_inv in Hk. apply H, role_key, Hk.
Qed.

Lemma signals_depend_on_role_fields_witness :
  count_b_signals (<[ "name"%string := VStr (txt "Ann Lee") ]>
                     (<[ "city"%string := VStr [] ]>
                        (<[ "device_id"%string := VInt 0 ]>
                           {[ "note"%string := VStr (txt "call me") ]})))
  = count_b_signals {[ "name"%string := VStr (txt "Ann Lee") ]}.
Proof.
  apply signals_depend_on_role_fields. intros k Hk. apply role_key_inv in Hk.
  repeat (destruct Hk as [<- | Hk]; [vm_compute; reflexivity |]). destruct Hk.
Defined.

Lemma count_true_le (fl : flags) : count_true fl <= 4.
Proof. destruct fl as [[] [] [] []]; vm_compute; lia. Qed.

Lemma email_alone_count (fl : flags) : email_alone fl = true -> count_true fl = 1.
Proof. destruct fl as [[] [] [] []]; vm_compute; congruence. Qed.

Lemma signal_count_flags (obj : record) :
  signal_count obj = count_true (signal_flags obj).
Proof. reflexivity. Qed.

(** The combination flag is the threshold alone: at least two of the four
    signals.  When the email signal is the only one the count is one, so
    the override has no flag to clear; it bears on the verdict only.  The
    count is at most four and the number of address parts at most
    three. *)
Theorem combination_flag_is_threshold (obj : record) :
  do_combination_redact obj = (2 <=? signal_count obj)
  /\ (email_alone (signal_flags obj) = true -> signal_count obj = 1)
  /\ snd (process_record obj)
     = negb (email_alone (signal_flags obj))
       && (a_hit obj || (2 <=? signal_count obj))
  /\ signal_count obj <= 4
  /\ addr_parts_of obj <= 3.
Proof.
  assert (Hal : email_alone (signal_flags obj) = true -> signal_count obj = 1).
  { intros H. rewrite signal_count_flags. now apply email_alone_count. }
  split; [| split; [exact Hal | split; [| split]]].
  - assert (do_combination_redact obj
            = if email_alone (signal_flags obj) then false
              else 2 <=? signal_count obj) as ->.
    { unfold do_combination_redact, signal_flags, signal_count.
      destruct (count_b_signals obj) as [[[n fl] ap] haf]. reflexivity. }
    destruct (email_alone (signal_flags obj)) eqn:E; [| reflexivity].
    now rewrite (Hal eq_refl).
  - rewrite process_record_snd.
    destruct (email_alone (signal_flags obj)); reflexivity.
  - rewrite signal_count_flags. apply count_true_le.
  - unfold addr_parts_of. rewrite count_b_signals_seen. cbn [fst snd].
    destruct (truthy _), (truthy _), (truthy _); simpl; lia.
Qed.

(** ** Records without a true value *)

Lemma detect_falsy (k : string) (v : value) :
  truthy v = false -> any_found (detect_a_in_value k v) = false.
Proof.
  intros H. unfold detect_a_in_value, or_empty. rewrite H. cbn [py_str].
  assert (matches RE_TEN_DIGITS [] = false) as -> by reflexivity.
  assert (squeeze [] = []) as -> by reflexivity.
  assert (matches RE_AADHAR [] = false) as -> by reflexivity.
  assert (matches RE_PASSPORT [] = false) as -> by reflexivity.
  assert (matches RE_UPI [] = false) as -> by reflexivity.
  unfold any_found. cbn [phone aadhar passport upi]. now rewrite !andb_false_r.
Qed.

(** A record in which no value is true in Python's sense ([None], empty
    text, zero, [False]) has no direct hit and no signal: its verdict is
    false and no combination redaction is done. *)
Theorem empty_values_are_not_pii (obj : record) :
  (forall k v, obj !! k = Some v -> truthy v = false) ->
  a_hit obj = false
  /\ signal_count obj = 0
  /\ do_combination_redact obj = false
  /\ snd (process_record obj) = false.
Proof.
  intros H.
  assert (Ha : a_hit obj = false).
  { apply not_true_is_false. intros E.
    apply a_hit_true_iff in E. destruct E as (k & v & Hk & Hf).
    rewrite detect_falsy in Hf by (eapply H, Hk). discriminate. }
  assert (Hs : count_b_signals obj = count_b_signals ∅).
  { apply signals_seen. intros k _. unfold seen, get.
    rewrite lookup_empty. simpl.
    destruct (obj !! k) as [v|] eqn:E; simpl; [| reflexivity].
    now rewrite (H _ _ E). }
  assert (Hc : signal_count obj = 0) by (unfold signal_count; now rewrite Hs).
  assert (Hd : do_combination_redact obj = false)
    by (unfold do_combination_redact; now rewrite Hs).
  split; [exact Ha |]. split; [exact Hc |]. split; [exact Hd |].
  rewrite process_record_snd, Ha, Hc.
  destruct (email_alone _); reflexivity.
Qed.

Lemma empty_values_are_not_pii_witness :
  let obj := <[ "phone"%string := VStr [] ]>
               (<[ "name"%string := VNone ]>
                  (<[ "count"%string := VInt 0 ]>
                     {[ "email"%string := VBool false ]})) : record in
  a_hit obj = false /\ snd (process_record obj) = false.
Proof.
  intros obj. destruct (empty_values_are_not_pii obj) as (H1 & _ & _ & H4).
  - intros k v Hk. unfold obj in Hk.
    destruct (decide (k = "phone"%string)) as [-> | N1];
      [rewrite lookup_insert_eq in Hk; injection Hk as <-; reflexivity |].
    rewrite lookup_insert_ne in Hk by congruence.
    destruct (decide (k = "name"%string)) as [-> | N2];
      [rewrite lookup_insert_eq in Hk; injection Hk as <-; reflexivity |].
    rewrite lookup_insert_ne in Hk by congruence.
    destruct (decide (k = "count"%string)) as [-> | N3];
      [rewrite lookup_insert_eq in Hk; injection Hk as <-; reflexivity |].
    rewrite lookup_insert_ne in Hk by congruence.
    apply lookup_singleton_Some in Hk. destruct Hk as [_ <-]. reflexivity.
  - split; assumption.
Defined.

(** * Combination redaction, role by role *)

(** The role sets on a given field name. *)
Ltac role_set k S :=
  let b := eval vm_compute in (key_in k S) in
  let E := fresh "E" in
  assert (key_in k S = b) as E by (vm_compute; reflexivity);
  rewrite ?E; clear E; cbv beta iota zeta.

Ltac role_sets k :=
  role_set k B_NAME_KEYS; role_set k ({[ B_FIRST; B_LAST ]} : gset string);
  role_set k B_EMAIL_KEYS; role_set k B_ADDRESS_KEYS; role_set k B_ADDR_PARTS;
  role_set k B_DEVICE_KEYS; role_set k B_IP_KEYS.

Lemma redact_value_hidden (k : string) (v : value) (ap : nat) (haf : bool) :
  v <> VNone -> k = "address"%string \/ k = "device_id"%string ->
  redact_value k v true ap haf = VStr (txt "[REDACTED_PII]").
Proof.
  intros Hv [-> | ->]; unfold redact_value.
  - role_sets "address"%string. destruct v; [congruence | reflexivity ..].
  - role_sets "device_id"%string. destruct v; [congruence | reflexivity ..].
Qed.

Lemma redact_value_part (k : string) (v : value) (ap : nat) (haf : bool) :
  v <> VNone -> k ∈ B_ADDR_PARTS ->
  redact_value k v true ap haf
  = VStr (if haf || (2 <=? ap) then txt "[REDACTED_PII]" else a_masks (py_str v)).
Proof.
  intros Hv Hk.
  assert (k = "city"%string \/ k = "state"%string \/ k = "pin_code"%string)
    as [-> | [-> | ->]].
  { unfold B_ADDR_PARTS in Hk. rewrite !elem_of_union, !elem_of_singleton in Hk. tauto. }
  - unfold redact_value. role_sets "city"%string.
    destruct v; [congruence | ..]; cbv zeta iota beta; destruct (haf || (2 <=? ap)); reflexivity.
  - unfold redact_value. role_sets "state"%string.
    destruct v; [congruence | ..]; cbv zeta iota beta; destruct (haf || (2 <=? ap)); reflexivity.
  - unfold redact_value. role_sets "pin_code"%string.
    destruct v; [congruence | ..]; cbv zeta iota beta; destruct (haf || (2 <=? ap)); reflexivity.
Qed.

Lemma redact_value_name (v : value) (ap : nat) (haf : bool) :
  v <> VNone ->
  redact_value "name" v true ap haf
  = VStr (if looks_like_full_name (VStr (py_str v)) then mask_name_full (py_str v)
          else a_masks (py_str v)).
Proof.
  intros Hv. unfold redact_value. role_sets "name"%string.
  destruct v; [congruence | ..]; cbv zeta iota beta; cbn [andb];
    destruct (looks_like_full_name _); reflexivity.
Qed.

Lemma redact_value_initial (k : string) (v : value) (ap : nat) (haf : bool) :
  v <> VNone -> k = B_FIRST \/ k = B_LAST ->
  redact_value k v true ap haf
  = VStr (take 1 (a_masks (py_str v)) ++ xs (length (a_masks (py_str v)) - 1)).
Proof.
  intros Hv [-> | ->]; unfold redact_value, B_FIRST, B_LAST.
  - role_sets "first_name"%string. destruct v; [congruence | reflexivity ..].
  - role_sets "last_name"%string. destruct v; [congruence | reflexivity ..].
Qed.

(** Under combination redaction the address and the device identifier
    come out as the opaque marker, whatever they hold; a city, a state or
    a PIN code comes out as the marker when the record has an address
    field or at least two address parts, and with the always-on masks
    alone otherwise. *)
Theorem address_and_device_are_blanked (obj : record) (k : string) (v : value) :
  do_combination_redact obj = true -> obj !! k = Some v -> v <> VNone ->
  (k = "address"%string \/ k = "device_id"%string ->
   fst (process_record obj) !! k = Some (VStr (txt "[REDACTED_PII]")))
  /\ (k ∈ B_ADDR_PARTS ->
      fst (process_record obj) !! k
      = Some (VStr (if has_addr_field_of obj || (2 <=? addr_parts_of obj)
                    then txt "[REDACTED_PII]" else a_masks (py_str v)))).
Proof.
  intros Hb Hk Hv. rewrite process_record_lookup, Hk, Hb. cbn [fmap option_fmap option_map].
  split; intros H.
  - now rewrite redact_value_hidden.
  - now rewrite redact_value_part.
Qed.

Lemma address_and_device_are_blanked_witness :
  let obj := <[ "name"%string := VStr (txt "Ann Lee") ]>
               (<[ "address"%string := VInt 42 ]>
                  {[ "city"%string := VStr (txt "Pune") ]}) : record in
  fst (process_record obj) !! "address"%string = Some (VStr (txt "[REDACTED_PII]"))
  /\ fst (process_record obj) !! "city"%string = Some (VStr (txt "[REDACTED_PII]")).
Proof.
  intros obj.
  destruct (address_and_device_are_blanked obj "address"%string (VInt 42)) as [H1 _];
    [vm_compute; reflexivity | reflexivity | discriminate |].
  destruct (address_and_device_are_blanked obj "city"%string (VStr (txt "Pune"))) as [_ H2];
    [vm_compute; reflexivity | reflexivity | discriminate |].
  split; [apply H1; now left |].
  rewrite H2 by (apply (proj1 (bool_decide_eq_true _)); vm_compute; reflexivity).
  vm_compute. reflexivity.
Defined.

(** Under combination redaction a first name or a last name keeps the
    first character of its masked text and has [X] for every other one; a
    name that looks like a full name is rebuilt by [mask_name_full] from
    the text of the value as it came in, so the always-on masks do not
    show in it, and a name that does not look like one gets the always-on
    masks alone. *)
Theorem name_fields_under_combination (obj : record) (k : string) (v : value) :
  do_combination_redact obj = true -> obj !! k = Some v -> v <> VNone ->
  (k = "name"%string ->
   fst (process_record obj) !! k
   = Some (VStr (if looks_like_full_name (VStr (py_str v))
                 then mask_name_full (py_str v) else a_masks (py_str v))))
  /\ (k = "first_name"%string \/ k = "last_name"%string ->
      fst (process_record obj) !! k
      = Some (VStr (take 1 (a_masks (py_str v))
                    ++ xs (length (a_masks (py_str v)) - 1)))).
Proof.
  intros Hb Hk Hv. rewrite process_record_lookup, Hk, Hb. cbn [fmap option_fmap option_map].
  split; intros H.
  - subst k. now rewrite redact_value_name.
  - now rewrite redact_value_initial.
Qed.

Lemma name_fields_under_combination_witness :
  let obj := <[ "first_name"%string := VStr (txt "Ann") ]>
               (<[ "last_name"%string := VStr (txt "Lee") ]>
                  {[ "address"%string := VStr (txt "12 High Street") ]}) : record in
  fst (process_record obj) !! "first_name"%string = Some (VStr (txt "AXX")).
Proof.
  intros obj.
  destruct (name_fields_under_combination obj "first_name"%string (VStr (txt "Ann")))
    as [_ H]; [vm_compute; reflexivity | reflexivity | discriminate |].
  rewrite H by now left. vm_compute. reflexivity.
Defined.

(** * Detection and redaction together *)

(** A phone-like number or a passport-like code that detection reports in
    a field is masked in that field's output: the output differs from the
    text of the value and holds neither.  (The name field that combination
    redaction rebuilds is the exception.) *)
Theorem detected_number_is_masked (obj : record) (k : string) (v : value) :
  obj !! k = Some v -> rebuilt_name obj k v = false ->
  phone (detect_a_in_value k v) = true \/ passport (detect_a_in_value k v) = true ->
  exists out,
    fst (process_record obj) !! k = Some (VStr out)
    /\ out <> py_str v
    /\ matches RE_TEN_DIGITS out = false
    /\ matches RE_PASSPORT out = false.
Proof.
  intros Hk Hn Hd.
  assert (Ht : truthy v = true).
  { destruct (truthy v) eqn:E; [reflexivity |].
    pose proof (detect_falsy k v E) as Hf. unfold any_found in Hf.
    apply orb_false_elim in Hf. destruct Hf as [Hf _].
    apply orb_false_elim in Hf. destruct Hf as [Hf Hp].
    apply orb_false_elim in Hf. destruct Hf as [Hph _].
    destruct Hd as [Hd | Hd]; congruence. }
  assert (Hv : v <> VNone) by (intros ->; discriminate Ht).
  assert (Hm : matches RE_TEN_DIGITS (py_str v) = true
               \/ matches RE_PASSPORT (py_str v) = true).
  { unfold detect_a_in_value, or_empty in Hd. rewrite Ht in Hd. cbn [phone passport] in Hd.
    destruct Hd as [Hd | Hd]; [left | right; exact Hd].
    apply andb_prop in Hd. destruct Hd as [_ Hd]. exact Hd. }
  unfold rebuilt_name in Hn.
  destruct (redact_value_clean k v (do_combination_redact obj)
              (addr_parts_of obj) (has_addr_field_of obj) Hv Hn) as (out & E & C1 & _ & C3).
  exists out. split; [rewrite process_record_lookup, Hk; simpl; now rewrite E |].
  split; [| split; assumption].
  intros ->. destruct Hm as [Hm | Hm]; [rewrite Hm in C1 | rewrite Hm in C3]; discriminate.
Qed.

Lemma detected_number_is_masked_witness :
  let v := VStr (txt "ref A1234567") in
  let obj := {[ "order_id"%string := v ]} : record in
  exists out,
    fst (process_record obj) !! "order_id"%string = Some (VStr out)
    /\ out <> txt "ref A1234567".
Proof.
  intros v obj.
  destruct (detected_number_is_masked obj "order_id"%string v) as (out & H1 & H2 & _).
  - reflexivity.
  - vm_compute. reflexivity.
  - right. vm_compute. reflexivity.
  - exists out. split; assumption.
Defined.

(** ** A field without a role *)

Lemma a_hit_insert (obj : record) (k : string) (v : value) :
  obj !! k = None ->
  a_hit (<[k := v]> obj) = any_found (detect_a_in_value k v) || a_hit obj.
Proof.
  intros Hk. apply eq_true_iff_eq.
  rewrite orb_true_iff, !a_hit_true_iff. split.
  - intros (k' & v' & Hl & Hf). destruct (decide (k' = k)) as [-> | Hne].
    + rewrite lookup_insert_eq in Hl. injection Hl as <-. now left.
    + rewrite lookup_insert_ne in Hl by congruence. right. eauto.
  - intros [Hf | (k' & v' & Hl & Hf)].
    + exists k, v. split; [apply lookup_insert_eq | exact Hf].
    + exists k', v'. split; [| exact Hf].
      rewrite lookup_insert_ne; [exact Hl |]. intros <-. congruence.
Qed.

(** A field whose name has no combination role is processed on its own:
    putting it into a record leaves the signals as they were and every
    other field's output as it was, its own output is the value under the
    always-on masks, and if the field is new its direct hit is added to
    the record's, so a true verdict stays true. *)
Theorem field_without_role_is_independent (obj : record) (k : string) (v : value) :
  k ∉ B_ROLE_KEYS ->
  count_b_signals (<[k := v]> obj) = count_b_signals obj
  /\ fst (process_record (<[k := v]> obj))
     = <[k := masked_value v]> (fst (process_record obj))
  /\ (obj !! k = None ->
      a_hit (<[k := v]> obj) = any_found (detect_a_in_value k v) || a_hit obj)
  /\ (obj !! k = None -> snd (process_record obj) = true ->
      snd (process_record (<[k := v]> obj)) = true).
Proof.
  intros Hk. pose proof (signals_insert_other obj k v Hk) as Hs.
  split; [exact Hs |]. split; [| split].
  - apply map_eq. intros k'. rewrite process_record_lookup.
    unfold do_combination_redact, addr_parts_of, has_addr_field_of. rewrite Hs.
    destruct (decide (k' = k)) as [-> | Hne].
    + rewrite !lookup_insert_eq. simpl. f_equal.
      unfold masked_value. now rewrite redact_value_no_role.
    + rewrite !lookup_insert_ne by congruence. now rewrite process_record_lookup.
  - now apply a_hit_insert.
  - intros Hn. rewrite !process_record_snd.
    unfold signal_flags, signal_count. rewrite Hs, (a_hit_insert _ _ _ Hn).
    destruct (email_alone _); [discriminate |].
    intros H. apply orb_true_iff in H. destruct H as [-> | ->];
      now rewrite ?orb_true_r.
Qed.

Lemma field_without_role_is_independent_witness :
  let obj := {[ "name"%string := VStr (txt "Ann Lee") ]} : record in
  fst (process_record (<[ "note"%string := VStr (txt "9876543210") ]> obj))
  = <[ "note"%string := VStr (txt "98XXXXXX10") ]> (fst (process_record obj)).
Proof.
  intros obj.
  destruct (field_without_role_is_independent obj "note"%string
              (VStr (txt "9876543210"))) as (_ & H & _).
  - apply (proj1 (bool_decide_eq_false _)). vm_compute. reflexivity.
  - rewrite H. f_equal.
Defined.

(** ** [valid_email] *)

Lemma mem_host c :
  cset_mem [upper; lower; num; One "."; One "-"]%char c = host_char c.
Proof. by_char c. Qed.

(** What the email pattern matches, part by part. *)
Lemma email_parts prev rest m :
  match_at RE_EMAIL prev rest = Some m ->
  exists loc host tld,
    rest = (loc ++ "@"%char :: host ++ "."%char :: tld) ++ after m
    /\ 1 <= length loc /\ forallb email_char loc = true
    /\ 1 <= length host /\ forallb host_char host = true
    /\ 2 <= length tld /\ forallb is_letter tld = true.
Proof.
  intros H. apply match_at_in in H. unfold RE_EMAIL in H.
  apply in_exec_cat in H. destruct H as (m0 & H0 & H).
  apply in_exec_bound in H0. destruct H0 as [-> _].
  apply in_exec_cat in H. destruct H as (m1 & H1 & H).
  apply in_exec_group in H1. destruct H1 as (m1' & loc & H1 & S1 & S1' & _).
  apply in_exec_repeat_chars in H1. destruct H1 as (loc' & Su & Lu & Du & _).
  pose proof (steps_inj _ _ _ _ S1' Su) as <-. clear Su.
  rewrite (forallb_eq _ email_char) in Du by apply mem_email.
  apply in_exec_cat in H. destruct H as (m2 & H2 & H).
  apply in_exec_chars in H2. destruct H2 as (c & S2 & Hc & _).
  apply mem_at in Hc. subst c.
  apply in_exec_cat in H. destruct H as (m3 & H3 & H).
  apply in_exec_group in H3. destruct H3 as (m3' & dom & H3 & S3 & S3' & _).
  apply in_exec_cat in H3. destruct H3 as (m4 & H4 & H3).
  apply in_exec_repeat_chars in H4. destruct H4 as (host & S4 & L4 & D4 & _).
  rewrite (forallb_eq _ host_char) in D4 by apply mem_host.
  apply in_exec_cat in H3. destruct H3 as (m5 & H5 & H3).
  apply in_exec_chars in H5. destruct H5 as (c & S5 & Hc & _).
  apply mem_dot in Hc. subst c.
  apply in_exec_repeat_chars in H3. destruct H3 as (tld & S6 & L6 & D6 & _).
  rewrite (forallb_eq _ is_letter) in D6 by apply mem_name_head.
  pose proof (steps_inj _ _ _ _ S3'
                (steps_trans _ _ _ _ _ S4 (steps_trans _ _ _ _ _ S5 S6))) as ->.
  apply in_exec_bound in H. destruct H as [-> _].
  destruct (steps_trans _ _ _ _ _ S1 (steps_trans _ _ _ _ _ S2 S3)) as [Ha _].
  cbn [after] in Ha.
  exists loc, host, tld. split; [| tauto].
  rewrite Ha. cbn [app]. rewrite <- !app_assoc. cbn [app]. reflexivity.
Qed.

(** A value counts as a valid email only if its text holds an address: a
    local part, [@], a host, a dot and at least two letters.  The address
    may stand anywhere in the text. *)
Theorem valid_email_holds_address (v : value) :
  valid_email v = true -> holds_email (py_str v).
Proof.
  unfold valid_email.
  assert (Hs : forall t : text, match t with [] => [] | a :: l => a :: l end = t)
    by (intros []; reflexivity).
  cbv zeta. rewrite Hs. intros H.
  change (matches RE_EMAIL (py_str v) = true) in H.
  destruct (matches_split RE_EMAIL (py_str v) H) as (a & b & m & E & Hm).
  destruct (email_parts _ _ _ Hm) as (loc & host & tld & Hb & Hrest).
  exists a, loc, host, tld, (after m). split; [| exact Hrest].
  rewrite E, Hb. reflexivity.
Qed.

Lemma valid_email_holds_address_witness :
  holds_email (txt "write to ann.lee@mail.example.org today").
Proof.
  apply (valid_email_holds_address (VStr (txt "write to ann.lee@mail.example.org today"))).
  vm_compute. reflexivity.
Defined.

(** ** [safe_json_load] *)

Lemma strip_by_padded (p : ascii -> bool) pad1 core pad2 :
  forallb p pad1 = true -> forallb p pad2 = true ->
  p_head p core = false -> p_head p (rev core) = false ->
  strip_by p (pad1 ++ core ++ pad2) = core.
Proof.
  assert (Hd : forall pad t, forallb p pad = true -> p_head p t = false ->
                 dropwhile p (pad ++ t) = t).
  { induction pad as [|c pad IH]; simpl; intros t Hp Ht.
    - destruct t as [|c t]; [reflexivity |]. simpl in *. now rewrite Ht.
    - apply andb_prop in Hp. destruct Hp as [-> Hp]. now apply IH. }
  intros H1 H2 Hh Hl. unfold strip_by.
  destruct core as [|c core].
  - assert (Hall : forall l, forallb p l = true -> dropwhile p l = []).
    { induction l as [|c l IH]; simpl; [reflexivity |].
      intros H. apply andb_prop in H. destruct H as [-> H]. now apply IH. }
    cbn [app]. rewrite (Hall (pad1 ++ pad2)) by now rewrite forallb_app, H1, H2.
    reflexivity.
  - rewrite Hd; [| exact H1 | exact Hh].
    rewrite rev_app_distr, Hd; [apply rev_involutive | | exact Hl].
    rewrite forallb_forall in H2 |- *. intros x Hx. apply H2. now apply in_rev.
Qed.

Lemma code_dq c : (code c =? 34)%N = true -> c = dq.
Proof. by_char c. Qed.

Lemma starts_with_dq c s :
  starts_with [dq; dq] (dq :: c :: s) = (code c =? 34)%N.
Proof.
  cbn [starts_with]. change (code dq =? code dq)%N with true.
  change (code dq) with 34%N. rewrite andb_true_r. cbn [andb].
  apply N.eqb_sym.
Qed.

(** Undoing the doubling of the quotes. *)
Lemma replace_doubled s : forall rest,
  replace_from [dq; dq] [dq]
    (flat_map (fun c => if (code c =? 34)%N then [dq; dq] else [c]) s ++ rest) 0
  = s ++ replace_from [dq; dq] [dq] rest 0.
Proof.
  induction s as [|c s IH]; intros rest; [reflexivity |].
  cbn [flat_map]. destruct (code c =? 34)%N eqn:E.
  - apply code_dq in E. subst c. cbn [app replace_from].
    rewrite starts_with_dq. change (code dq =? 34)%N with true.
    cbn [length Nat.sub app]. now rewrite IH.
  - cbn [app replace_from].
    assert (starts_with [dq; dq] (c :: flat_map _ s ++ rest) = false) as ->.
    { cbn [starts_with]. change (code dq) with 34%N.
      rewrite N.eqb_sym, E. reflexivity. }
    now rewrite IH.
Qed.

Lemma replace_quoted s :
  p_head edge_char s = false ->
  replace [dq; dq] [dq] (csv_quoted s) = dq :: s ++ [dq]
  \/ (s = [] /\ replace [dq; dq] [dq] (csv_quoted s) = [dq]).
Proof.
  intros Hs. destruct s as [|c s]; [right; split; reflexivity |]. left.
  cbn [p_head] in Hs. unfold edge_char in Hs. apply orb_false_elim in Hs.
  destruct Hs as [_ Hq].
  unfold replace, csv_quoted. cbn [flat_map]. rewrite Hq. cbn [app replace_from].
  rewrite starts_with_dq, Hq.
  assert (starts_with [dq; dq] (c :: flat_map _ s ++ [dq]) = false) as ->.
  { cbn [starts_with]. change (code dq) with 34%N. rewrite N.eqb_sym, Hq. reflexivity. }
  f_equal. f_equal. now rewrite replace_doubled.
Qed.

(** A cell that is still CSV-quoted, its quotes doubled: [json.loads]
    refuses it as it stands, and the second attempt reads the text that
    was quoted.  The text must not begin or end with white space or with a
    double quote, which the repair would take off as well. *)
Theorem safe_json_load_unquotes (json_loads : text -> option pyobj) (s : text) :
  p_head edge_char s = false -> p_head edge_char (rev s) = false ->
  json_loads (csv_quoted s) = None ->
  safe_json_load json_loads (csv_quoted s)
  = match json_loads s with Some o => o | None => PDict ∅ end.
Proof.
  intros Hh Hl Hfail. unfold safe_json_load.
  assert (strip (csv_quoted s) = csv_quoted s) as Hstrip.
  { unfold strip. rewrite <- (app_nil_r (csv_quoted s)) at 1.
    change (csv_quoted s ++ []) with ([] ++ csv_quoted s ++ []).
    apply strip_by_padded; try reflexivity.
    unfold csv_quoted. rewrite app_comm_cons, rev_app_distr. reflexivity. }
  cbv zeta.
  match goal with
  | |- context [strip ?x] => replace x with (csv_quoted s) by reflexivity
  end.
  rewrite !Hstrip, Hfail.
  change (ascii_of_nat 34) with dq.
  assert (strip_char dq (replace [dq; dq] [dq] (csv_quoted s)) = s) as ->.
  { assert (Hp : forall t, p_head edge_char t = false ->
                   p_head (fun c => (code c =? code dq)%N) t = false).
    { intros [|c t]; [reflexivity |]. cbn [p_head]. unfold edge_char.
      intros H. apply orb_false_elim in H. change (code dq) with 34%N. tauto. }
    destruct (replace_quoted s Hh) as [-> | [-> ->]]; [| reflexivity].
    unfold strip_char. change (dq :: s ++ [dq]) with ([dq] ++ s ++ [dq]).
    apply strip_by_padded; try reflexivity; now apply Hp. }
  reflexivity.
Qed.

Lemma safe_json_load_unquotes_witness :
  let s := txt "{" ++ [dq] ++ txt "n" ++ [dq] ++ txt ": 1}" in
  let rec := {[ "n"%string := VInt 1 ]} : record in
  let json_loads := fun t => if bool_decide (t = s) then Some (PDict rec) else None in
  safe_json_load json_loads (csv_quoted s) = PDict rec.
Proof.
  intros s rec json_loads.
  rewrite (safe_json_load_unquotes json_loads s); reflexivity.
Defined.

(** * The command-line program *)

Section MainFacts.
Variable json_loads : text -> option pyobj.
Variable json_dumps : record -> text.


Lemma process_row_none col row :
  process_row json_loads json_dumps col row = None ->
  exists v,
    safe_json_load json_loads
      (default [] (json_cell col row))
    = PVal v.
Proof.
  unfold process_row. cbv zeta.
  destruct (safe_json_load json_loads _) as [rec | v]; cbn [process_loaded].
  - destruct (process_record rec). discriminate.
  - eauto.
Qed.



End MainFacts.



(** A row whose JSON cell is missing (a short line) or blank is written
    with an empty record and the verdict [False]: the loader falls back to
    the empty mapping when [json.loads] refuses the empty text. *)
Theorem blank_cell_gives_empty_record (json_loads : text -> option pyobj)
    (json_dumps : record -> text) (col : string) (row : csv_row) (cell : option text) :
  json_loads [] = None -> row !! col = Some cell ->
  forallb is_space (default [] cell) = true ->
  process_row json_loads json_dumps col row
  = Some (OutRow (mjoin (row !! "record_id"%string)) (json_dumps ∅) (txt "False")).
Proof.
  intros Hfail Hcell Hblank. unfold process_row, json_cell. rewrite Hcell. cbv zeta.
  assert (Hs : forall t, forallb is_space t = true -> strip t = []).
  { intros t Ht. unfold strip, strip_by.
    assert (dropwhile is_space t = []) as ->; [| reflexivity].
    induction t as [|c t IH]; [reflexivity |]. simpl in *.
    apply andb_prop in Ht. destruct Ht as [-> Ht]. now apply IH. }
  assert (safe_json_load json_loads (default [] cell) = PDict ∅) as ->.
  { unfold safe_json_load. cbv zeta.
    match goal with
    | |- context [strip ?x] => replace x with (default [] cell) by (destruct (default [] cell); reflexivity)
    end.
    rewrite (Hs _ Hblank), Hfail.
    change (strip_char (ascii_of_nat 34) (replace [ascii_of_nat 34; ascii_of_nat 34]
              [ascii_of_nat 34] [])) with (@nil ascii).
    now rewrite Hfail. }
  cbn [process_loaded]. rewrite (proj2 (proj2 process_record_empty)). reflexivity.
Qed.



Lemma blank_cell_gives_empty_record_witness :
  let dumps := fun red : record => txt (pretty (size red)) in
  let row := <[ "record_id"%string := Some (txt "8") ]>
               {[ "data_json"%string := None ]} : csv_row in
  process_row loads_literals dumps "data_json" row
  = Some (OutRow (Some (txt "8")) (txt "0") (txt "False")).
Proof.
  intros dumps row.
  rewrite (blank_cell_gives_empty_record loads_literals dumps "data_json"%string row None);
    [| reflexivity | vm_compute; reflexivity | reflexivity].
  vm_compute. reflexivity.
Defined.

(** * Detection across white space *)

Lemma plain_hit prev x rest m :
  match_at RE_SPACES prev (x ++ rest) = Some m -> after m = rest ->
  forallb is_space x = true.
Proof.
  intros E Ha. apply match_at_in in E. unfold RE_SPACES in E.
  apply in_exec_repeat_chars in E. destruct E as (g & [Hs _] & _ & Dg & _).
  cbn [after] in Hs. rewrite Ha in Hs. apply app_inv_tail in Hs. subst g.
  now rewrite (forallb_eq _ is_space) in Dg by apply mem_spaces.
Qed.

Lemma plain_found prev c rest :
  is_space c = true -> match_at RE_SPACES prev (c :: rest) <> None.
Proof.
  intros Hc.
  pose proof (prefix_app_drop is_space (c :: rest)) as Hs.
  pose proof (prefix_all is_space (c :: rest)) as Hg.
  pose proof (starts_np_head _ _ (drop_prefix_starts_np is_space (c :: rest))) as Hr.
  assert (prefix is_space (c :: rest) <> []) as Hne by (simpl; rewrite Hc; discriminate).
  destruct (plain_some prev _ _ Hne Hg Hr) as (m & E & _).
  rewrite Hs in E. now rewrite E.
Qed.

(** [re.sub(r'\s+', '', s)] takes out every white-space character. *)
Lemma squeeze_filter s : squeeze s = List.filter (fun c => negb (is_space c)) s.
Proof.
  unfold squeeze. rewrite sub_sub_from.
  apply (sub_from_ind RE_SPACES (fun _ => [])
           (fun _ rest out => out = List.filter (fun c => negb (is_space c)) rest)).
  - simpl. lia.
  - reflexivity.
  - intros prev c rest out E ->. simpl.
    destruct (is_space c) eqn:Hc; [| reflexivity].
    exfalso. now apply (plain_found prev c rest Hc).
  - intros prev x rest m out _ E Ha _ ->.
    rewrite List.filter_app. pose proof (plain_hit _ _ _ _ E Ha) as Hx.
    assert (List.filter (fun c => negb (is_space c)) x = []) as ->; [| reflexivity].
    clear E. induction x as [|c x IH]; [reflexivity |]. simpl in *.
    apply andb_prop in Hx. destruct Hx as [-> Hx]. now apply IH.
Qed.

(** Twelve digits are reported as a national ID however white space
    divides them, in any field outside the exempt set: detection looks at
    the text with all white space taken out. *)
Theorem aadhar_detected_across_spaces (k : string) (s : text) :
  k ∉ NUMERIC_ID_KEYS ->
  forallb (fun c => is_digit c || is_space c) s = true ->
  length (List.filter is_digit s) = 12 ->
  aadhar (detect_a_in_value k (VStr s)) = true.
Proof.
  intros Hk Hs Hl.
  assert (Hne : s <> []) by (intros ->; discriminate Hl).
  unfold detect_a_in_value, or_empty.
  assert (truthy (VStr s) = true) as -> by (destruct s; [congruence | reflexivity]).
  cbn [py_str aadhar]. rewrite (key_in_false _ _ Hk). cbn [negb andb].
  rewrite squeeze_filter.
  assert (List.filter (fun c => negb (is_space c)) s = List.filter is_digit s) as ->.
  { clear Hl Hne. induction s as [|c s IH]; [reflexivity |]. simpl in *.
    apply andb_prop in Hs. destruct Hs as [Hc Hs]. rewrite (IH Hs).
    destruct (is_digit c) eqn:Hd.
    - now rewrite (digit_not_space _ Hd).
    - simpl in Hc. now rewrite Hc. }
  change RE_AADHAR with (isolated_run 12). rewrite matches_isolated_run by lia.
  unfold has_good. rewrite runs_all_digits.
  - cbn [existsb]. unfold has_length. rewrite Hl. reflexivity.
  - intros E. rewrite E in Hl. discriminate Hl.
  - clear. induction s as [|c s IH]; [reflexivity |]. simpl.
    destruct (is_digit c) eqn:Hd; [simpl; now rewrite Hd, IH | exact IH].
Qed.

Lemma aadhar_detected_across_spaces_witness :
  aadhar (detect_a_in_value "note" (VStr (txt "12 3456 78901 2"))) = true.
Proof.
  apply aadhar_detected_across_spaces.
  - apply (proj1 (bool_decide_eq_false _)). vm_compute. reflexivity.
  - reflexivity.
  - reflexivity.
Defined.

(** * The payment-handle mask on a handle *)

Lemma match_at_upi user c prov :
  2 <= length user -> forallb upi_char user = true -> p_head is_word user = true ->
  is_letter c = true -> 1 <= length prov -> forallb upi_char prov = true ->
  p_head is_word (rev (c :: prov)) = true ->
  exists m, match_at RE_UPI [] (user ++ "@"%char :: c :: prov) = Some m
            /\ after m = [] /\ group m 1 = user /\ group m 2 = c :: prov.
Proof.
  intros Lu Du Wu Hc Lp Dp Wp.
  assert (Hcls : forall g, forallb upi_char g = true ->
            forallb (cset_mem [upper; lower; num; One "."; One "_"; One "-"]%char) g = true).
  { intros g H. now rewrite (forallb_eq _ upi_char) by apply mem_upi. }
  replace (user ++ "@"%char :: c :: prov) with (user ++ "@"%char :: c :: prov ++ [])
    by now rewrite app_nil_r.
  eexists. split; [| split; [| split]].
  - unfold match_at, RE_UPI.
    eapply head_cat.
    { apply head_bound. cbn [before after p_head].
      destruct user as [|u user]; [discriminate Wu |]. cbn [app p_head] in *.
      now rewrite Wu. }
    eapply head_cat.
    { apply head_group.
      apply (head_repeat_chars 2 None _ [] user ("@"%char :: c :: prov ++ []) []);
        [now apply Hcls | reflexivity | exact Lu | exact I]. }
    eapply head_cat; [apply head_chars; reflexivity |].
    eapply head_cat.
    { apply head_group. eapply head_cat.
      - apply head_chars. now rewrite mem_name_head.
      - apply head_repeat_chars; [now apply Hcls | reflexivity | exact Lp | exact I]. }
    apply head_bound. cbn [before after p_head].
    change (rev prov ++ c :: "@"%char :: rev user ++ [])
      with (rev prov ++ [c] ++ "@"%char :: rev user ++ []).
    rewrite app_assoc. change (rev prov ++ [c]) with (rev (c :: prov)).
    destruct (rev (c :: prov)) as [|d l]; [discriminate Wp |].
    cbn [app p_head] in *. now rewrite Wp.
  - reflexivity.
  - unfold group. cbn [caps]. unfold get_cap, set_cap.
    cbn [find fst snd Nat.eqb List.filter negb].
    match goal with
    | |- take ?n _ = _ =>
        replace n with (length user) by (rewrite ?length_app; cbn [length]; lia)
    end.
    apply take_app_length.
  - unfold group. cbn [caps]. unfold get_cap, set_cap.
    cbn [find fst snd Nat.eqb List.filter negb].
    rewrite app_nil_r.
    match goal with
    | |- take ?n _ = _ =>
        replace n with (length (c :: prov)) by (cbn [length]; lia)
    end.
    apply firstn_all.
Qed.

(** A payment handle alone keeps the first two characters of its user
    part, its [@] and its provider; the rest of the user part becomes
    [X]. *)
Theorem upi_mask_on_handle (user : text) (c : ascii) (prov : text) :
  2 <= length user -> forallb upi_char user = true -> p_head is_word user = true ->
  is_letter c = true -> 1 <= length prov -> forallb upi_char prov = true ->
  p_head is_word (rev (c :: prov)) = true ->
  mask_upi_in (user ++ txt "@" ++ c :: prov)
  = take 2 user ++ xs (length user - 2) ++ txt "@" ++ c :: prov.
Proof.
  intros Lu Du Wu Hc Lp Dp Wp.
  destruct (match_at_upi user c prov Lu Du Wu Hc Lp Dp Wp) as (m & E & Ha & G1 & G2).
  change (mask_upi_in ?s) with (sub RE_UPI upi_repl s).
  change (user ++ txt "@" ++ c :: prov) with (user ++ "@"%char :: c :: prov).
  rewrite (sub_whole RE_UPI upi_repl ltac:(simpl; lia) _ _ E Ha).
  unfold upi_repl. rewrite G1, G2. cbv zeta.
  now rewrite Nat.min_l by lia.
Qed.

Lemma upi_mask_on_handle_witness :
  mask_upi_in (txt "ann.lee-9" ++ txt "@" ++ "o"%char :: txt "kaxis")
  = take 2 (txt "ann.lee-9") ++ xs 7 ++ txt "@" ++ "o"%char :: txt "kaxis".
Proof.
  apply (upi_mask_on_handle (txt "ann.lee-9") "o" (txt "kaxis")); first [reflexivity | simpl; lia].
Defined.

Lemma write_rows_shape (json_loads : text -> option pyobj) (json_dumps : record -> text)
    (col : string) (rs : list csv_row) : forall out,
  exists outs,
    out_file (write_rows json_loads json_dumps col rs out) = Some (out ++ map Row outs)
    /\ length outs <= length rs
    /\ (ended (write_rows json_loads json_dumps col rs out) = Wrote
        /\ length outs = length rs
        \/ ended (write_rows json_loads json_dumps col rs out) = Raised
           /\ length outs < length rs).
Proof.
  induction rs as [|row rs IH]; intros out.
  - exists []. cbn. rewrite app_nil_r. split; [reflexivity |]. split; [lia |]. now left.
  - cbn [write_rows]. destruct (process_row json_loads json_dumps col row) as [r|].
    + destruct (IH (out ++ [Row r])) as (outs & E & L & H).
      exists (r :: outs). rewrite E. cbn [map length]. rewrite <- app_assoc.
      split; [reflexivity |]. split; [lia |].
      destruct H as [[H1 H2] | [H1 H2]]; [left | right]; (split; [exact H1 | lia]).
    + exists []. cbn. rewrite app_nil_r. split; [reflexivity |]. split; [lia |].
      right. split; [reflexivity | lia].
Qed.

(** Whatever the arguments and the input, the output file is in one of
    three states when the program ends: never opened (wrong number of
    arguments, or no input file); created and empty (the columns are
    missing, or the input has no first line); or holding its first line
    followed by one row for each input row processed, which are all of
    them when the program ends normally and fewer when a row raised. *)
Theorem main_output_is_well_formed (json_loads : text -> option pyobj)
    (json_dumps : record -> text) (argv : list text) (input : option csv_file) :
  let r := main json_loads json_dumps argv input in
  match out_file r with
  | None =>
      (ended r = Usage /\ length argv <> 2)
      \/ (ended r = Raised /\ length argv = 2 /\ input = None)
  | Some [] =>
      length argv = 2
      /\ exists f, input = Some f
         /\ ((ended r = Raised /\ fieldnames f = None)
             \/ (ended r = BadColumns
                 /\ exists names, fieldnames f = Some names
                    /\ (json_col names = None \/ ("record_id"%string ∉ names))))
  | Some (first :: ls) =>
      first = Header /\ length argv = 2
      /\ exists f outs, input = Some f /\ ls = map Row outs
         /\ ((ended r = Wrote /\ length outs = length (rows f))
             \/ (ended r = Raised /\ length outs < length (rows f)))
  end.
Proof.
  intros r. subst r. unfold main.
  destruct (Nat.eqb_spec (length argv) 2) as [Ha | Ha]; cbn [negb].
  2:{ cbn. left. split; [reflexivity | exact Ha]. }
  destruct input as [f|]; [| cbn; right; repeat split; assumption].
  destruct (fieldnames f) as [names|] eqn:Hf.
  2:{ cbn. split; [exact Ha |]. exists f. split; [reflexivity |]. left. split; [reflexivity | first [reflexivity | exact Hf]]. }
  destruct (json_col names) as [col|] eqn:Hc.
  2:{ cbn. split; [exact Ha |]. exists f. split; [reflexivity |]. right.
      split; [reflexivity |]. exists names. split; [first [reflexivity | exact Hf] | now left]. }
  destruct (bool_decide ("record_id"%string ∈ names)) eqn:Hr.
  2:{ cbn. split; [exact Ha |]. exists f. split; [reflexivity |]. right.
      split; [reflexivity |]. exists names. split; [first [reflexivity | exact Hf] |]. right.
      now apply bool_decide_eq_false in Hr. }
  destruct (write_rows_shape json_loads json_dumps col (rows f) [Header])
    as (outs & E & _ & H).
  rewrite E. cbn [app]. split; [reflexivity |]. split; [exact Ha |].
  exists f, outs. split; [reflexivity |]. split; [reflexivity | exact H].
Qed.
